(** * crossover-cache: the RESP connection, the pooled client and the
      caching HTTP middleware, embedded as Rocq functions.

    Go strings are byte strings: they are [string] here (a list of 8-bit
    [ascii]).  Go's [int] is the 64-bit signed integer, kept as [Z] with
    the wrap-around written where the code can overflow.  A Go call
    returning [(T, error)] returns a [result T]; a runtime panic is the
    third constructor.  Objects mutated in place (a connection, the
    client, a response writer) are passed in and returned. *)

From Stdlib Require Import ZArith List String Ascii Bool Lia DecimalString.
From Stdlib Require DecimalPos DecimalZ.
Import ListNotations.
Open Scope Z_scope.

(** ** Go values shared by both packages *)

Inductive error : Type :=
| Canceled                      (* context.Canceled *)
| DeadlineExceeded              (* context.DeadlineExceeded *)
| EOF                           (* io.EOF *)
| ErrNoProgress                 (* io.ErrNoProgress *)
| ErrClosed                     (* use of closed network connection *)
| ErrTimeout                    (* i/o timeout *)
| NetError (msg : string)       (* any other error of the socket *)
| ErrSyntax                     (* strconv.ErrSyntax *)
| ErrRange                      (* strconv.ErrRange *)
| ErrorsNew (msg : string)      (* errors.New(msg) *)
| Errorf (format : string).     (* fmt.Errorf(format), no operands *)

Inductive panic : Type :=
| MakeSliceLenOutOfRange        (* makeslice: len out of range *)
| SliceBoundsOutOfRange         (* slice bounds out of range *)
| IndexOutOfRange               (* index out of range *)
| MakeChanSizeOutOfRange.       (* makechan: size out of range *)

Inductive result (A : Type) : Type :=
| Ok (a : A)
| Err (e : error)
| Panic (p : panic).
Arguments Ok {A} a.
Arguments Err {A} e.
Arguments Panic {A} p.

Definition is_Ok {A} (r : result A) : bool :=
  match r with Ok _ => true | _ => false end.
Definition is_Err {A} (r : result A) : bool :=
  match r with Err _ => true | _ => false end.
Definition is_Panic {A} (r : result A) : bool :=
  match r with Panic _ => true | _ => false end.

(** The text of [fmt.Errorf(format)] called without operands is [format]
    itself when [format] holds no [%] verb; with a verb the text is
    rewritten by the formatter, which is outside this model. *)
Fixpoint has_percent (s : string) : bool :=
  match s with
  | EmptyString => false
  | String c t => Ascii.eqb c "%"%char || has_percent t
  end.

Definition error_text (e : error) : option string :=
  match e with
  | ErrorsNew msg => Some msg
  | Errorf format => if has_percent format then None else Some format
  | _ => None
  end.

(** context.Context. [ctx_done] is the error recorded when the context
    was cancelled, if it was; [ctx_Deadline] is what ctx.Deadline()
    returns. Times are nanoseconds of the clock. *)
Record Context : Type := {
  ctx_done : option error;
  ctx_Deadline : option Z
}.

(** ctx.Err() read when the clock shows [now]: the recorded error, or
    DeadlineExceeded once the deadline has passed. *)
Definition Context_Err (ctx : Context) (now : Z) : option error :=
  match ctx_done ctx with
  | Some err => Some err
  | None =>
      match ctx_Deadline ctx with
      | Some d => if d <=? now then Some DeadlineExceeded else None
      | None => None
      end
  end.

Definition Second : Z := 1000000000.

Definition Background : Context :=
  {| ctx_done := None; ctx_Deadline := None |}.

(** context.WithTimeout(context.Background(), d) made when the clock
    shows [now]. *)
Definition WithTimeout (now d : Z) : Context :=
  {| ctx_done := None; ctx_Deadline := Some (now + d) |}.

(** ** Byte strings *)

Definition CR : ascii := "013"%char.
Definition LF : ascii := "010"%char.
Definition NUL : ascii := "000"%char.
Definition CRLF : string := String CR (String LF EmptyString).

Definition len (s : string) : Z := Z.of_nat (String.length s).

Fixpoint take (n : nat) (s : string) : string :=
  match n, s with
  | S n', String c t => String c (take n' t)
  | _, _ => EmptyString
  end.

Fixpoint drop (n : nat) (s : string) : string :=
  match n, s with
  | S n', String _ t => drop n' t
  | _, _ => s
  end.

(** bytes.IndexByte *)
Fixpoint IndexByte (s : string) (c : ascii) : option nat :=
  match s with
  | EmptyString => None
  | String a t =>
      if Ascii.eqb a c then Some O
      else match IndexByte t c with
           | Some i => Some (S i)
           | None => None
           end
  end.

(** strings.HasSuffix and strings.TrimSuffix *)
Definition HasSuffix (s suffix : string) : bool :=
  (String.length suffix <=? String.length s)%nat
  && String.eqb (drop (String.length s - String.length suffix) s) suffix.

Definition TrimSuffix (s suffix : string) : string :=
  if HasSuffix s suffix
  then take (String.length s - String.length suffix) s
  else s.

(** make([]byte, n) followed by a copy of [bytes] into its front. *)
Fixpoint zeros (n : nat) : string :=
  match n with
  | O => EmptyString
  | S n' => String NUL (zeros n')
  end.

Definition copy_into (n : nat) (bytes : string) : string :=
  (take n bytes ++ zeros (n - String.length bytes))%string.

(** *** 64-bit [int] *)

Definition MaxInt64 : Z := 9223372036854775807.
Definition MinInt64 : Z := -9223372036854775808.

Definition wrap64 (z : Z) : Z :=
  (z + 9223372036854775808) mod 18446744073709551616 - 9223372036854775808.

(** Largest byte count [make] accepts on a 64-bit platform (48-bit heap
    addresses); above it, as below zero, [make] panics. *)
Definition maxAlloc : Z := 281474976710656.

(** *** strconv *)

Definition is_digit (c : ascii) : bool :=
  let n := nat_of_ascii c in ((48 <=? n) && (n <=? 57))%nat.

Fixpoint digits_value (acc : Z) (s : string) : option Z :=
  match s with
  | EmptyString => Some acc
  | String c t =>
      if is_digit c
      then digits_value (acc * 10 + (Z.of_nat (nat_of_ascii c) - 48)) t
      else None
  end.

Definition maxUint64 : Z := 18446744073709551615.

(** strconv.ParseUint(s, 10, 64), the loop over the bytes of [s], with
    [n] the number read so far.  A byte that is no decimal digit ends it
    with (0, ErrSyntax).  A digit that takes the number past 64 bits
    ends it with (maxUint64, ErrRange) at that digit: the bytes after it
    are not looked at. *)
Fixpoint ParseUint_loop (n : Z) (s : string) : Z * option error :=
  match s with
  | EmptyString => (n, None)
  | String c t =>
      if is_digit c then
        let d := Z.of_nat (nat_of_ascii c) - 48 in
        if maxUint64 / 10 + 1 <=? n then (maxUint64, Some ErrRange) (* n*base overflows *)
        else
          let n1 := n * 10 + d in
          if maxUint64 <? n1 then (maxUint64, Some ErrRange)        (* n+d overflows *)
          else ParseUint_loop n1 t
      else (0, Some ErrSyntax)
  end.

Definition ParseUint (s : string) : Z * option error :=
  match s with
  | EmptyString => (0, Some ErrSyntax)
  | _ => ParseUint_loop 0 s
  end.

(** strconv.ParseInt(s, 10, 0) with a 64-bit [int]: the sign is picked
    off, the rest goes to ParseUint; a syntax error gives 0; a number
    out of range, the range error of ParseUint included, gives the
    nearest bound with ErrRange. *)
Definition ParseInt (s : string) : Z * option error :=
  match s with
  | EmptyString => (0, Some ErrSyntax)
  | String c t =>
      let neg := Ascii.eqb c "-"%char in
      let body := if Ascii.eqb c "+"%char then t else if neg then t else s in
      match ParseUint body with
      | (_, Some ErrSyntax) => (0, Some ErrSyntax)
      | (un, _) =>
          let cutoff := 9223372036854775808 in
          if negb neg && (cutoff <=? un) then (cutoff - 1, Some ErrRange)
          else if neg && (cutoff <? un) then (- cutoff, Some ErrRange)
          else
            let n := wrap64 un in
            (if neg then wrap64 (- n) else n, None)
      end
  end.

(** strconv.Atoi with a 64-bit [int].  A text of 1 to 18 bytes takes the
    fast path: the sign is cut, a sign alone or a byte that is no digit
    is (0, ErrSyntax), and the digits are summed with no range check (18
    digits stay below 2^63).  Every other text goes to ParseInt. *)
Definition Atoi (s : string) : Z * option error :=
  let sLen := String.length s in
  if ((0 <? sLen) && (sLen <? 19))%nat then
    match s with
    | EmptyString => (0, Some ErrSyntax)
    | String c t =>
        let signed := Ascii.eqb c "-"%char || Ascii.eqb c "+"%char in
        let s1 := if signed then t else s in
        if signed && (String.length s1 <? 1)%nat then (0, Some ErrSyntax)
        else
          match digits_value 0 s1 with
          | None => (0, Some ErrSyntax)
          | Some n => (if Ascii.eqb c "-"%char then - n else n, None)
          end
    end
  else ParseInt s.

(** strconv.Itoa, also what the [%d] verb prints. *)
Definition Itoa (z : Z) : string := NilZero.string_of_int (Z.to_int z).

(** ** Package resp *)

Module resp.

(** *** The socket (net.Conn)

    The peer and the network are a script: [incoming] lists what the
    successive reads of the socket deliver, a chunk of bytes or an
    error; when the script is exhausted a read runs into its deadline.
    [outgoing] collects the bytes written. *)

Inductive ReadEvent : Type :=
| Data (bytes : string)
| Fail (e : error).

Record NetConn : Type := {
  fd : nat;
  incoming : list ReadEvent;
  outgoing : string;
  closed : bool;
  write_fault : option error;
  read_deadline : option Z;
  write_deadline : option Z
}.

Definition set_incoming (c : NetConn) (evs : list ReadEvent) : NetConn :=
  {| fd := fd c; incoming := evs; outgoing := outgoing c;
     closed := closed c; write_fault := write_fault c;
     read_deadline := read_deadline c;
     write_deadline := write_deadline c |}.

(** conn.Read(p) with len(p) = [n]. *)
Definition conn_Read (c : NetConn) (n : nat) : NetConn * (string * option error) :=
  if closed c then (c, (EmptyString, Some ErrClosed))
  else
    match incoming c with
    | [] => (c, (EmptyString, Some ErrTimeout))
    | Fail e :: rest => (set_incoming c rest, (EmptyString, Some e))
    | Data bytes :: rest =>
        if (String.length bytes <=? n)%nat
        then (set_incoming c rest, (bytes, None))
        else (set_incoming c (Data (drop n bytes) :: rest), (take n bytes, None))
    end.

(** conn.Write(p): all of [p] or an error. *)
Definition conn_Write (c : NetConn) (p : string) : NetConn * option error :=
  if closed c then (c, Some ErrClosed)
  else
    match write_fault c with
    | Some e => (c, Some e)
    | None =>
        ({| fd := fd c; incoming := incoming c;
            outgoing := (outgoing c ++ p)%string;
            closed := closed c; write_fault := write_fault c;
            read_deadline := read_deadline c;
            write_deadline := write_deadline c |}, None)
    end.

Definition SetReadDeadline (c : NetConn) (t : Z) : NetConn * option error :=
  if closed c then (c, Some ErrClosed)
  else ({| fd := fd c; incoming := incoming c; outgoing := outgoing c;
           closed := closed c; write_fault := write_fault c;
           read_deadline := Some t;
           write_deadline := write_deadline c |}, None).

Definition SetWriteDeadline (c : NetConn) (t : Z) : NetConn * option error :=
  if closed c then (c, Some ErrClosed)
  else ({| fd := fd c; incoming := incoming c; outgoing := outgoing c;
           closed := closed c; write_fault := write_fault c;
           read_deadline := read_deadline c;
           write_deadline := Some t |}, None).

Definition conn_Close (c : NetConn) : NetConn * option error :=
  if closed c then (c, Some ErrClosed)
  else ({| fd := fd c; incoming := incoming c; outgoing := outgoing c;
           closed := true; write_fault := write_fault c;
           read_deadline := read_deadline c;
           write_deadline := write_deadline c |}, None).

(** *** bufio.Reader and bufio.Writer over the socket

    [rd_buf] is the unread part of the reader's buffer, [wr_buf] the
    unflushed part of the writer's; both buffers hold [bufSize] bytes. *)

Definition bufSize : nat := 4096.
Definition maxConsecutiveEmptyReads : nat := 100.

Record Reader : Type := { rd_buf : string; rd_err : option error }.
Record Writer : Type := { wr_buf : string; wr_err : option error }.

(** b.fill(): read once into the free space, retrying empty reads. *)
Fixpoint fill_loop (i : nat) (b : Reader) (c : NetConn) : Reader * NetConn :=
  match i with
  | O => ({| rd_buf := rd_buf b; rd_err := Some ErrNoProgress |}, c)
  | S i' =>
      let '(c', (bytes, err)) := conn_Read c (bufSize - String.length (rd_buf b)) in
      let b' := {| rd_buf := (rd_buf b ++ bytes)%string; rd_err := err |} in
      match err with
      | Some _ => (b', c')
      | None =>
          match bytes with
          | EmptyString => fill_loop i' b' c'
          | _ => (b', c')
          end
      end
  end.

Definition fill (b : Reader) (c : NetConn) : Reader * NetConn :=
  fill_loop maxConsecutiveEmptyReads b c.

(** b.ReadString(delim): the bytes up to and including the first
    [delim]; a full buffer without [delim] is put aside as a fragment and
    reading goes on; on an error the bytes read so far come with it. *)
Fixpoint ReadString_loop (fuel : nat) (acc : string) (delim : ascii)
    (b : Reader) (c : NetConn) : Reader * NetConn * (string * option error) :=
  match IndexByte (rd_buf b) delim with
  | Some i =>
      ({| rd_buf := drop (S i) (rd_buf b); rd_err := rd_err b |}, c,
       ((acc ++ take (S i) (rd_buf b))%string, None))
  | None =>
      match rd_err b with
      | Some e =>
          ({| rd_buf := EmptyString; rd_err := None |}, c,
           ((acc ++ rd_buf b)%string, Some e))
      | None =>
          match fuel with
          | O => (b, c, (acc, Some ErrNoProgress))
          | S fuel' =>
              if (bufSize <=? String.length (rd_buf b))%nat
              then ReadString_loop fuel' (acc ++ rd_buf b)%string delim
                     {| rd_buf := EmptyString; rd_err := None |} c
              else
                let '(b', c') := fill b c in
                ReadString_loop fuel' acc delim b' c'
          end
      end
  end.

(** Every turn of the loop either returns, empties a full buffer, or
    takes an event or some bytes from the script, or records an error;
    this many turns are enough. *)
Fixpoint script_weight (evs : list ReadEvent) : nat :=
  match evs with
  | [] => O
  | Data bytes :: rest => (S (String.length bytes) + script_weight rest)%nat
  | Fail _ :: rest => S (script_weight rest)
  end.

Definition ReadString_fuel (c : NetConn) : nat :=
  (3 * script_weight (incoming c) + 4)%nat.

Definition ReadString (delim : ascii) (b : Reader) (c : NetConn)
    : Reader * NetConn * (string * option error) :=
  ReadString_loop (ReadString_fuel c) EmptyString delim b c.

(** b.Read(p) with len(p) = [n]: at most one read of the socket, and
    only when nothing is buffered; otherwise whatever is buffered, up to
    [n] bytes. *)
Definition Reader_Read (n : nat) (b : Reader) (c : NetConn)
    : Reader * NetConn * (string * option error) :=
  match n with
  | O =>
      match rd_buf b with
      | EmptyString => ({| rd_buf := EmptyString; rd_err := None |}, c,
                        (EmptyString, rd_err b))
      | _ => (b, c, (EmptyString, None))
      end
  | _ =>
      match rd_buf b with
      | EmptyString =>
          match rd_err b with
          | Some e => ({| rd_buf := EmptyString; rd_err := None |}, c,
                       (EmptyString, Some e))
          | None =>
              if (bufSize <=? n)%nat
              then
                let '(c', (bytes, err)) := conn_Read c n in
                ({| rd_buf := EmptyString; rd_err := None |}, c', (bytes, err))
              else
                let '(c', (bytes, err)) := conn_Read c bufSize in
                match bytes with
                | EmptyString =>
                    ({| rd_buf := EmptyString; rd_err := None |}, c',
                     (EmptyString, err))
                | _ =>
                    ({| rd_buf := drop n bytes; rd_err := err |}, c',
                     (take n bytes, None))
                end
          end
      | _ =>
          ({| rd_buf := drop n (rd_buf b); rd_err := rd_err b |}, c,
           (take n (rd_buf b), None))
      end
  end.

(** b.Flush() *)
Definition Flush (w : Writer) (c : NetConn) : Writer * NetConn * option error :=
  match wr_err w with
  | Some e => (w, c, Some e)
  | None =>
      match wr_buf w with
      | EmptyString => (w, c, None)
      | _ =>
          match conn_Write c (wr_buf w) with
          | (c', Some e) => ({| wr_buf := wr_buf w; wr_err := Some e |}, c', Some e)
          | (c', None) => ({| wr_buf := EmptyString; wr_err := None |}, c', None)
          end
      end
  end.

(** b.WriteString(s), byte by byte: a byte that meets a full buffer
    flushes it first; an error of a flush sticks and stops the write. *)
Fixpoint WriteString (s : string) (w : Writer) (c : NetConn)
    : Writer * NetConn * option error :=
  match wr_err w with
  | Some e => (w, c, Some e)
  | None =>
      match s with
      | EmptyString => (w, c, None)
      | String a t =>
          if (bufSize <=? String.length (wr_buf w))%nat
          then
            match Flush w c with
            | (w', c', Some e) => (w', c', Some e)
            | (w', c', None) =>
                WriteString t
                  {| wr_buf := (wr_buf w' ++ String a EmptyString)%string;
                     wr_err := None |} c'
            end
          else
            WriteString t
              {| wr_buf := (wr_buf w ++ String a EmptyString)%string;
                 wr_err := None |} c
      end
  end.

(** *** Connection (the file of NewRedisConnection) *)

Record Connection : Type := {
  conn : NetConn;
  rd : Reader;     (* rw.Reader *)
  wr : Writer      (* rw.Writer *)
}.

(** time.Now().Add(5 * time.Second), or the deadline of the context.
    The clock shows [now] for the length of one call. *)
Definition deadline_of (ctx : Context) (now : Z) : Z :=
  match ctx_Deadline ctx with
  | Some d => d
  | None => now + 5 * Second
  end.

Definition Send (ctx : Context) (now : Z) (command : string) (rc : Connection)
    : Connection * option error :=
  match Context_Err ctx now with
  | Some err => (rc, Some err)
  | None =>
      let deadline := deadline_of ctx now in
      match SetWriteDeadline (conn rc) deadline with
      | (c1, Some err) => ({| conn := c1; rd := rd rc; wr := wr rc |}, Some err)
      | (c1, None) =>
          match WriteString (command ++ CRLF)%string (wr rc) c1 with
          | (w2, c2, Some err) => ({| conn := c2; rd := rd rc; wr := w2 |}, Some err)
          | (w2, c2, None) =>
              let '(w3, c3, err) := Flush w2 c2 in
              ({| conn := c3; rd := rd rc; wr := w3 |}, err)
          end
      end
  end.

Definition Receive (ctx : Context) (now : Z) (rc : Connection)
    : Connection * result string :=
  match Context_Err ctx now with
  | Some err => (rc, Err err)
  | None =>
      let deadline := deadline_of ctx now in
      match SetReadDeadline (conn rc) deadline with
      | (c1, Some err) => ({| conn := c1; rd := rd rc; wr := wr rc |}, Err err)
      | (c1, None) =>
          let '(b2, c2, (line, err)) := ReadString LF (rd rc) c1 in
          let rc2 := {| conn := c2; rd := b2; wr := wr rc |} in
          match err with
          | Some e => (rc2, Err e)
          | None =>
              match line with
              | EmptyString => (rc2, Panic IndexOutOfRange)
              | String first rest =>         (* line[0], line[1:] *)
                  if Ascii.eqb first "-"%char then
                    (rc2, Err (Errorf (TrimSuffix rest CRLF)))
                  else if Ascii.eqb first "$"%char then
                    let length := fst (Atoi (TrimSuffix rest CRLF)) in
                    if length =? -1 then (rc2, Ok EmptyString)
                    else
                      let n := wrap64 (length + 2) in
                      if (n <? 0) || (maxAlloc <? n)
                      then (rc2, Panic MakeSliceLenOutOfRange)
                      else
                        let '(b3, c3, (bytes, err3)) :=
                          Reader_Read (Z.to_nat n) b2 c2 in
                        let rc3 := {| conn := c3; rd := b3; wr := wr rc |} in
                        let buf := copy_into (Z.to_nat n) bytes in
                        match err3 with
                        | Some e => (rc3, Err e)
                        | None =>
                            if (length <? 0) || (n <? length)
                            then (rc3, Panic SliceBoundsOutOfRange)
                            else (rc3, Ok (take (Z.to_nat length) buf))
                        end
                  else if Ascii.eqb first "+"%char then
                    (rc2, Ok (TrimSuffix rest CRLF))
                  else
                    (rc2, Ok (TrimSuffix line CRLF))
              end
          end
      end
  end.

(** rc.conn.Close() *)
Definition Close (rc : Connection) : Connection * option error :=
  let '(c1, err) := conn_Close (conn rc) in
  ({| conn := c1; rd := rd rc; wr := wr rc |}, err).

Definition Auth (ctx : Context) (now : Z) (password : string) (rc : Connection)
    : Connection * result unit :=
  match Context_Err ctx now with
  | Some err => (rc, Err err)
  | None =>
      match Send ctx now ("AUTH " ++ password)%string rc with
      | (rc1, Some err) => (rc1, Err err)
      | (rc1, None) =>
          match Receive ctx now rc1 with
          | (rc2, Panic p) => (rc2, Panic p)
          | (rc2, Err err) => (rc2, Err err)
          | (rc2, Ok reply) =>
              if String.eqb reply "OK" then (rc2, Ok tt)
              else (rc2, Err (ErrorsNew "authentication failed"))
          end
      end
  end.

Definition Ping (ctx : Context) (now : Z) (rc : Connection)
    : Connection * result unit :=
  match Context_Err ctx now with
  | Some err => (rc, Err err)
  | None =>
      match Send ctx now "PING" rc with
      | (rc1, Some err) => (rc1, Err err)
      | (rc1, None) =>
          match Receive ctx now rc1 with
          | (rc2, Panic p) => (rc2, Panic p)
          | (rc2, Err err) => (rc2, Err err)
          | (rc2, Ok reply) =>
              if String.eqb reply "PONG" then (rc2, Ok tt)
              else (rc2, Err (ErrorsNew "did not receive PONG response"))
          end
      end
  end.

(** *** The dialer

    IDialer is an interface; the network behind it is a script of dial
    outcomes, one taken per call of Dial (refused when none is left), and
    [attempts] counts the calls. *)

Record Dialer : Type := {
  script : list (NetConn + error);
  attempts : nat
}.

Definition Dial (d : Dialer) (ctx : Context) (address : string)
    : Dialer * (NetConn + error) :=
  match script d with
  | [] => ({| script := []; attempts := S (attempts d) |},
           inr (NetError "connection refused"))
  | o :: rest => ({| script := rest; attempts := S (attempts d) |}, o)
  end.

(** bufio.NewReadWriter(bufio.NewReader(conn), bufio.NewWriter(conn)) *)
Definition wrap (c : NetConn) : Connection :=
  {| conn := c;
     rd := {| rd_buf := EmptyString; rd_err := None |};
     wr := {| wr_buf := EmptyString; wr_err := None |} |}.

Definition NewRedisConnection (dialer : Dialer) (now : Z) (address auth : string)
    : Dialer * result Connection :=
  let ctx := WithTimeout now (5 * Second) in
  match Dial dialer ctx address with
  | (d1, inr err) => (d1, Err err)
  | (d1, inl c) =>
      let rc := wrap c in
      if String.eqb auth "" then (d1, Ok rc)
      else
        match Auth ctx now auth rc with
        | (rc1, Panic p) => (d1, Panic p)
        | (rc1, Err err) => (d1, Err err)     (* after conn.Close() *)
        | (rc1, Ok _) => (d1, Ok rc1)
        end
  end.

(** *** Client (the file of NewRedisClient)

    [pool] is the buffered channel of capacity [poolSize], oldest
    connection first: a send appends, a receive takes the head.  Each
    method runs under the client's mutex, so a method is one atomic step
    of the client and concurrent callers are a sequence of such steps. *)

Definition SendCmd (key value : string) : string :=
  ("*3" ++ CRLF ++ "$3" ++ CRLF ++ "SET" ++ CRLF
   ++ "$" ++ Itoa (len key) ++ CRLF ++ key ++ CRLF
   ++ "$" ++ Itoa (len value) ++ CRLF ++ value ++ CRLF)%string.

Definition ExpireCmd (key : string) (seconds : Z) : string :=
  ("*3" ++ CRLF ++ "$6" ++ CRLF ++ "EXPIRE" ++ CRLF
   ++ "$" ++ Itoa (len key) ++ CRLF ++ key ++ CRLF
   ++ "$" ++ Itoa (len (Itoa seconds)) ++ CRLF ++ Itoa seconds ++ CRLF)%string.

Definition SetWithTTLCmd (key value : string) (ttl : Z) : string :=
  ("*5" ++ CRLF ++ "$3" ++ CRLF ++ "SET" ++ CRLF
   ++ "$" ++ Itoa (len key) ++ CRLF ++ key ++ CRLF
   ++ "$" ++ Itoa (len value) ++ CRLF ++ value ++ CRLF
   ++ "$2" ++ CRLF ++ "EX" ++ CRLF
   ++ "$" ++ Itoa (len (Itoa ttl)) ++ CRLF ++ Itoa ttl ++ CRLF)%string.

Definition GetCmd (key : string) : string :=
  ("*2" ++ CRLF ++ "$3" ++ CRLF ++ "GET" ++ CRLF
   ++ "$" ++ Itoa (len key) ++ CRLF ++ key ++ CRLF)%string.

Definition DeleteCmd (key : string) : string :=
  ("*2" ++ CRLF ++ "$3" ++ CRLF ++ "DEL" ++ CRLF
   ++ "$" ++ Itoa (len key) ++ CRLF ++ key ++ CRLF)%string.

Record Client : Type := {
  pool : list Connection;
  address : string;
  poolSize : Z;
  auth : string;
  dialer : Dialer
}.

Definition set_pool (client : Client) (p : list Connection) : Client :=
  {| pool := p; address := address client; poolSize := poolSize client;
     auth := auth client; dialer := dialer client |}.

Definition set_dialer (client : Client) (d : Dialer) : Client :=
  {| pool := pool client; address := address client;
     poolSize := poolSize client; auth := auth client; dialer := d |}.

(** The loop of NewRedisClient, [n] turns left; a failed connection is
    logged and skipped. *)
Fixpoint populate (n : nat) (now : Z) (client : Client) : Client * option panic :=
  match n with
  | O => (client, None)
  | S n' =>
      match NewRedisConnection (dialer client) now (address client) (auth client) with
      | (d1, Panic p) => (set_dialer client d1, Some p)
      | (d1, Err _) => populate n' now (set_dialer client d1)
      | (d1, Ok c) =>
          populate n' now (set_pool (set_dialer client d1) (pool client ++ [c]))
      end
  end.

(** NewRedisClient; the dialer made by NewDialer() is the argument [d],
    and it is returned as the calls left it. *)
Definition NewRedisClient (d : Dialer) (now : Z) (address : string)
    (poolSize : Z) (auth : string) : Dialer * result Client :=
  if poolSize <? 0 then (d, Panic MakeChanSizeOutOfRange)
  else
    let client := {| pool := []; address := address; poolSize := poolSize;
                     auth := auth; dialer := d |} in
    match populate (Z.to_nat poolSize) now client with
    | (client', Some p) => (dialer client', Panic p)
    | (client', None) =>
        if Z.of_nat (List.length (pool client')) =? 0
        then (dialer client', Err (ErrorsNew "can't create redis connection"))
        else (dialer client', Ok client')
    end.

Definition GetConnection (now : Z) (client : Client) : Client * result Connection :=
  match pool client with
  | c :: rest => (set_pool client rest, Ok c)
  | [] =>
      let '(d1, r) :=
        NewRedisConnection (dialer client) now (address client) (auth client) in
      (set_dialer client d1, r)
  end.

(** ReleaseConnection; the connection is returned as the call left it. *)
Definition ReleaseConnection (client : Client) (c : Connection)
    : Client * Connection :=
  if poolSize client <=? Z.of_nat (List.length (pool client))
  then (client, fst (Close c))
  else (set_pool client (pool client ++ [c]), c).

(** The task started by Do: one Send, then one Receive. *)
Definition round_trip (ctx : Context) (now : Z) (command : string)
    (c : Connection) : Connection * result string :=
  match Send ctx now command c with
  | (c1, Some err) => (c1, Err err)
  | (c1, None) => Receive ctx now c1
  end.

(** Do. [done_first] is the outcome of the select: [Some err] when
    ctx.Done() is taken first, [err] being ctx.Err() at that moment, and
    [None] when the task's reply or error is taken.  The task is run to
    its end before the deferred release; a panic in it ends the process. *)
Definition Do (ctx : Context) (now : Z) (done_first : option error)
    (command : string) (client : Client) : Client * result string :=
  match GetConnection now client with
  | (cl1, Panic p) => (cl1, Panic p)
  | (cl1, Err err) => (cl1, Err err)
  | (cl1, Ok c) =>
      let '(c1, r) := round_trip ctx now command c in
      let cl2 := fst (ReleaseConnection cl1 c1) in
      match r, done_first with
      | Panic p, _ => (cl2, Panic p)
      | _, Some err => (cl2, Err err)
      | _, None => (cl2, r)
      end
  end.

(** Set; the name [Set] is taken by the sort. *)
Definition Set_ (ctx : Context) (now : Z) (done_first : option error)
    (key value : string) (client : Client) : Client * result unit :=
  match Do ctx now done_first (SendCmd key value) client with
  | (cl, Panic p) => (cl, Panic p)
  | (cl, Err err) => (cl, Err err)
  | (cl, Ok response) =>
      if String.eqb response "OK" then (cl, Ok tt)
      else (cl, Err (ErrorsNew "unexpected response from server"))
  end.

Definition Expire (ctx : Context) (now : Z) (done_first : option error)
    (key : string) (seconds : Z) (client : Client) : Client * result bool :=
  match Do ctx now done_first (ExpireCmd key seconds) client with
  | (cl, Panic p) => (cl, Panic p)
  | (cl, Err err) => (cl, Err err)
  | (cl, Ok response) =>
      if String.eqb response ":1" then (cl, Ok true)
      else if String.eqb response ":0" then (cl, Ok false)
      else (cl, Err (ErrorsNew "unexpected response from server"))
  end.

Definition SetWithTTL (ctx : Context) (now : Z) (done_first : option error)
    (key value : string) (ttl : Z) (client : Client) : Client * result unit :=
  match Do ctx now done_first (SetWithTTLCmd key value ttl) client with
  | (cl, Panic p) => (cl, Panic p)
  | (cl, Err err) => (cl, Err err)
  | (cl, Ok response) =>
      if String.eqb response "OK" then (cl, Ok tt)
      else (cl, Err (ErrorsNew ("unexpected response from server: " ++ response)))
  end.

Definition Get (ctx : Context) (now : Z) (done_first : option error)
    (key : string) (client : Client) : Client * result string :=
  match Do ctx now done_first (GetCmd key) client with
  | (cl, Panic p) => (cl, Panic p)
  | (cl, Err err) => (cl, Err err)
  | (cl, Ok response) => (cl, Ok response)
  end.

Definition Delete (ctx : Context) (now : Z) (done_first : option error)
    (key : string) (client : Client) : Client * result unit :=
  match Do ctx now done_first (DeleteCmd key) client with
  | (cl, Panic p) => (cl, Panic p)
  | (cl, Err err) => (cl, Err err)
  | (cl, Ok response) =>
      if negb (String.eqb response ":1") && negb (String.eqb response ":0")
      then (cl, Err (ErrorsNew "unexpected response from server"))
      else (cl, Ok tt)
  end.

End resp.

(** ** Package crossover_cache (plugin.go, recorder.go) *)

Module crossover_cache.

Definition DefaultRedisPoolSize : Z := 10.
Definition DefaultCacheExpiry : Z := 15.

(** http.Header, a map[string][]string: the keys in the order a [range]
    visits them.  Keys are taken in canonical form. *)
Definition Header : Type := list (string * list string).

Fixpoint Header_Add (key value : string) (h : Header) : Header :=
  match h with
  | [] => [(key, [value])]
  | (k, vs) :: t =>
      if String.eqb k key then (k, vs ++ [value]) :: t
      else (k, vs) :: Header_Add key value t
  end.

Record CachedResponse : Type := {
  StatusCode : Z;
  Headers : Header;
  Body : string
}.

Record Config : Type := {
  RedisAddress : string;
  RedisAuth : string;
  RedisPoolSize : Z;
  CacheExpiry : Z
}.

Record Request : Type := {
  URL_Path : string;
  req_Context : Context
}.

(** *** http.ResponseWriter

    The interface, with [Header()] read and mutated through
    [w_Header]/[w_setHeader]. *)
Class IResponseWriter (W : Type) : Type := {
  w_Header : W -> Header;
  w_setHeader : Header -> W -> W;
  w_Write : string -> W -> W;
  w_WriteHeader : Z -> W -> W
}.

(** The writer the server hands to the middleware: it keeps its header
    map and the calls made on it, in order. *)
Inductive RWCall : Type :=
| CallWriteHeader (statusCode : Z)
| CallWrite (b : string).

Record ResponseWriter : Type := {
  rw_header : Header;
  rw_calls : list RWCall
}.

#[export] Instance ResponseWriter_impl : IResponseWriter ResponseWriter := {
  w_Header := rw_header;
  w_setHeader := fun h w => {| rw_header := h; rw_calls := rw_calls w |};
  w_Write := fun b w =>
    {| rw_header := rw_header w; rw_calls := rw_calls w ++ [CallWrite b] |};
  w_WriteHeader := fun code w =>
    {| rw_header := rw_header w; rw_calls := rw_calls w ++ [CallWriteHeader code] |}
}.

(** All body bytes a writer was given, and the status codes. *)
Fixpoint written (calls : list RWCall) : string :=
  match calls with
  | [] => EmptyString
  | CallWrite b :: t => (b ++ written t)%string
  | CallWriteHeader _ :: t => written t
  end.

(** *** responseRecorder (recorder.go) *)

Record responseRecorder : Type := {
  rw : ResponseWriter;
  status : Z;
  body : string
}.

Definition responseRecorder_Header (r : responseRecorder) : Header :=
  w_Header (rw r).

Definition responseRecorder_Write (b : string) (r : responseRecorder)
    : responseRecorder :=
  {| rw := w_Write b (rw r); status := status r; body := (body r ++ b)%string |}.

Definition responseRecorder_WriteHeader (statusCode : Z) (r : responseRecorder)
    : responseRecorder :=
  {| rw := w_WriteHeader statusCode (rw r); status := statusCode; body := body r |}.

#[export] Instance responseRecorder_impl : IResponseWriter responseRecorder := {
  w_Header := responseRecorder_Header;
  w_setHeader := fun h r =>
    {| rw := w_setHeader h (rw r); status := status r; body := body r |};
  w_Write := responseRecorder_Write;
  w_WriteHeader := responseRecorder_WriteHeader
}.

(** *** The downstream handler

    http.Handler is an interface; a handler is what it does to the
    writer it is given: the calls it makes, in order. *)
Inductive HandlerCall : Type :=
| HHeader (f : Header -> Header)     (* w.Header() mutated in place *)
| HWriteHeader (statusCode : Z)
| HWrite (b : string).

Definition Handler : Type := Request -> list HandlerCall.

Definition handler_step {W} `{IResponseWriter W} (w : W) (call : HandlerCall) : W :=
  match call with
  | HHeader f => w_setHeader (f (w_Header w)) w
  | HWriteHeader code => w_WriteHeader code w
  | HWrite b => w_Write b w
  end.

Definition Handler_ServeHTTP {W} `{IResponseWriter W} (h : Handler) (w : W)
    (req : Request) : W :=
  fold_left handler_step (h req) w.

(** *** resp.IClient, as far as the middleware calls it *)
Class IClient (S : Type) : Type := {
  client_Get : Context -> string -> S -> S * result string;
  client_Delete : Context -> string -> S -> S * result unit;
  client_SetWithTTL : Context -> string -> string -> Z -> S -> S * result unit
}.

(** encoding/gob on CachedResponse: the encoder gives the bytes put in
    the buffer and its error, the decoder a value or an error. *)
Class Gob : Type := {
  gob_Encode : CachedResponse -> string * option error;
  gob_Decode : string -> CachedResponse + error
}.

Section Plugin.
Context {S : Type} `{IClient S} `{Gob}.

Record Cache : Type := {
  next : Handler;
  name : string;
  resp : S;
  redisAuth : string;
  redisAddress : string;
  redisPoolSize : Z;
  cacheExpiry : Z
}.

Definition set_resp (c : Cache) (s : S) : Cache :=
  {| next := next c; name := name c; resp := s; redisAuth := redisAuth c;
     redisAddress := redisAddress c; redisPoolSize := redisPoolSize c;
     cacheExpiry := cacheExpiry c |}.

(** for key, values := range Headers { for _, value := range values {
      rw.Header().Add(key, value) } } *)
Definition add_headers (hs : Header) (h : Header) : Header :=
  fold_left
    (fun acc kv => fold_left (fun acc' v => Header_Add (fst kv) v acc') (snd kv) acc)
    hs h.

(** ServeHTTP from "Cache miss - record the response" to its end. *)
Definition serveMiss (c : Cache) (rw0 : ResponseWriter) (req : Request)
    : Cache * ResponseWriter * option panic :=
  let cacheKey := URL_Path req in
  let recorder := {| rw := rw0; status := 0; body := EmptyString |} in
  let recorder := Handler_ServeHTTP (next c) recorder req in
  let cachedResponse :=
    {| StatusCode := status recorder;
       Headers := responseRecorder_Header recorder;     (* .Clone() *)
       Body := body recorder |} in
  let '(buffer, _) := gob_Encode cachedResponse in
  match client_SetWithTTL (req_Context req) cacheKey buffer (cacheExpiry c) (resp c) with
  | (s1, Panic p) => (set_resp c s1, rw recorder, Some p)
  | (s1, _) =>
      let rw1 := w_WriteHeader (status recorder) (rw recorder) in
      let rw2 := w_Write (body recorder) rw1 in
      (set_resp c s1, rw2, None)
  end.

Definition ServeHTTP (c : Cache) (rw0 : ResponseWriter) (req : Request)
    : Cache * ResponseWriter * option panic :=
  let cacheKey := URL_Path req in
  match client_Get (req_Context req) cacheKey (resp c) with
  | (s1, Panic p) => (set_resp c s1, rw0, Some p)
  | (s1, Err _) => serveMiss (set_resp c s1) rw0 req
  | (s1, Ok cachedData) =>
      if negb (String.eqb cachedData "") then
        match gob_Decode cachedData with
        | inl cachedResponse =>
            let rw1 := w_setHeader
                         (add_headers (Headers cachedResponse) (w_Header rw0)) rw0 in
            let rw2 := w_WriteHeader (StatusCode cachedResponse) rw1 in
            let rw3 := w_Write (Body cachedResponse) rw2 in
            (set_resp c s1, rw3, None)
        | inr _ =>
            match client_Delete (req_Context req) cacheKey s1 with
            | (s2, Panic p) => (set_resp c s2, rw0, Some p)
            | (s2, _) => serveMiss (set_resp c s2) rw0 req
            end
        end
      else serveMiss (set_resp c s1) rw0 req
  end.

End Plugin.

Arguments Cache S : clear implicits.

(** *** Clients behind the interface *)

(** The pooled client of package resp; the clock and the outcomes of the
    selects of its successive calls are part of its state. *)
Record ClientWorld : Type := {
  cw_client : resp.Client;
  cw_now : Z;
  cw_selects : list (option error)
}.

Definition next_select (w : ClientWorld) : option error * list (option error) :=
  match cw_selects w with
  | [] => (None, [])
  | o :: rest => (o, rest)
  end.

Definition with_client {A} (w : ClientWorld)
    (call : Z -> option error -> resp.Client -> resp.Client * result A)
    : ClientWorld * result A :=
  let '(o, rest) := next_select w in
  let '(cl, r) := call (cw_now w) o (cw_client w) in
  ({| cw_client := cl; cw_now := cw_now w; cw_selects := rest |}, r).

#[export] Instance Client_impl : IClient ClientWorld := {
  client_Get := fun ctx key w =>
    with_client w (fun now o => resp.Get ctx now o key);
  client_Delete := fun ctx key w =>
    with_client w (fun now o => resp.Delete ctx now o key);
  client_SetWithTTL := fun ctx key value ttl w =>
    with_client w (fun now o => resp.SetWithTTL ctx now o key value ttl)
}.

(** New: the defaults, then the client; [d] stands for the dialer the
    client makes, [selects] for the selects of the calls to come. *)
Definition New (d : resp.Dialer) (now : Z) (selects : list (option error))
    (next : Handler) (config : Config) (name : string)
    : resp.Dialer * result (Cache ClientWorld) :=
  let poolSize :=
    if RedisPoolSize config =? 0 then DefaultRedisPoolSize
    else RedisPoolSize config in
  let expiry :=
    if CacheExpiry config =? 0 then DefaultCacheExpiry else CacheExpiry config in
  match resp.NewRedisClient d now (RedisAddress config) poolSize (RedisAuth config) with
  | (d1, Panic p) => (d1, Panic p)
  | (d1, Err _) => (d1, Err (Errorf "can't create redis client"))
  | (d1, Ok respClient) =>
      (d1, Ok {| next := next; name := name;
                 resp := {| cw_client := respClient; cw_now := now;
                            cw_selects := selects |};
                 redisAuth := RedisAuth config;
                 redisAddress := RedisAddress config;
                 redisPoolSize := poolSize; cacheExpiry := expiry |})
  end.

(** Any client, with the calls made on it written down. *)
Inductive ClientCall : Type :=
| CallGet (key : string)
| CallDelete (key : string)
| CallSetWithTTL (key value : string) (ttl : Z).

Definition logged {S A} (call : ClientCall) (f : S -> S * result A)
    (sl : S * list ClientCall) : (S * list ClientCall) * result A :=
  let '(s', r) := f (fst sl) in ((s', snd sl ++ [call]), r).

#[export] Instance Logged_impl {S} `{IClient S} : IClient (S * list ClientCall) := {
  client_Get := fun ctx key => logged (CallGet key) (client_Get ctx key);
  client_Delete := fun ctx key => logged (CallDelete key) (client_Delete ctx key);
  client_SetWithTTL := fun ctx key value ttl =>
    logged (CallSetWithTTL key value ttl) (client_SetWithTTL ctx key value ttl)
}.

End crossover_cache.

(** ** Vocabulary of the statements *)

Import resp.

(** A socket as the dialer hands it over, with the peer's script. *)
Definition socket (n : nat) (evs : list ReadEvent) : NetConn :=
  {| fd := n; incoming := evs; outgoing := EmptyString; closed := false;
     write_fault := None; read_deadline := None; write_deadline := None |}.

Definition empty_reader : Reader := {| rd_buf := EmptyString; rd_err := None |}.
Definition empty_writer : Writer := {| wr_buf := EmptyString; wr_err := None |}.

Fixpoint replicate (n : nat) (a : ascii) : string :=
  match n with
  | O => EmptyString
  | S n' => String a (replicate n' a)
  end.

(** A connection between two exchanges: open, no write fault, nothing
    buffered either way. *)
Definition idle (rc : Connection) : Prop :=
  closed (conn rc) = false /\ write_fault (conn rc) = None
  /\ rd rc = empty_reader /\ wr rc = empty_writer.

(** The same connection when the peer's next reads are [evs]. *)
Definition serving (rc : Connection) (evs : list ReadEvent) : Connection :=
  {| conn := set_incoming (conn rc) evs; rd := rd rc; wr := wr rc |}.

Definition set_outgoing (c : NetConn) (o : string) : NetConn :=
  {| fd := fd c; incoming := incoming c; outgoing := o;
     closed := closed c; write_fault := write_fault c;
     read_deadline := read_deadline c;
     write_deadline := write_deadline c |}.

Definition set_read_deadline (c : NetConn) (t : Z) : NetConn :=
  {| fd := fd c; incoming := incoming c; outgoing := outgoing c;
     closed := closed c; write_fault := write_fault c;
     read_deadline := Some t;
     write_deadline := write_deadline c |}.

Definition set_write_deadline (c : NetConn) (t : Z) : NetConn :=
  {| fd := fd c; incoming := incoming c; outgoing := outgoing c;
     closed := closed c; write_fault := write_fault c;
     read_deadline := read_deadline c;
     write_deadline := Some t |}.

(** The calls of concurrent callers on the pool. GetConnection and
    ReleaseConnection hold the client's mutex from entry to return, so a
    concurrent run is some sequence of whole calls. *)
Inductive pool_op : Type :=
| Acquire (now : Z)
| Release (c : Connection).

Definition pool_step (client : Client) (op : pool_op) : Client :=
  match op with
  | Acquire now => fst (GetConnection now client)
  | Release c => fst (ReleaseConnection client c)
  end.

Definition run_ops (client : Client) (ops : list pool_op) : Client :=
  fold_left pool_step ops client.

(** The results of [n] successive calls of NewRedisConnection. *)
Fixpoint connection_attempts (n : nat) (d : Dialer) (now : Z)
    (address auth : string) : list (result Connection) :=
  match n with
  | O => []
  | S n' =>
      let '(d1, r) := NewRedisConnection d now address auth in
      r :: connection_attempts n' d1 now address auth
  end.

(** The connections among the results. *)
Fixpoint established (rs : list (result Connection)) : list Connection :=
  match rs with
  | [] => []
  | Ok c :: t => c :: established t
  | _ :: t => established t
  end.

Import crossover_cache.

(** What a downstream handler's calls amount to: the body bytes it
    wrote, the status it set last ([init] when it set none), and the
    calls that reach the writer under the recorder. *)
Fixpoint handler_body (calls : list HandlerCall) : string :=
  match calls with
  | [] => EmptyString
  | HWrite b :: t => (b ++ handler_body t)%string
  | _ :: t => handler_body t
  end.

Fixpoint handler_status (calls : list HandlerCall) (init : Z) : Z :=
  match calls with
  | [] => init
  | HWriteHeader code :: t => handler_status t code
  | _ :: t => handler_status t init
  end.

Fixpoint passed_through (calls : list HandlerCall) : list RWCall :=
  match calls with
  | [] => []
  | HWrite b :: t => CallWrite b :: passed_through t
  | HWriteHeader code :: t => CallWriteHeader code :: passed_through t
  | HHeader _ :: t => passed_through t
  end.

(** A request is a cache miss when Get fails, or returns the empty
    string, or returns a blob that does not decode. *)
Definition cache_miss {S} `{IClient S} `{Gob} (c : Cache S) (req : Request) : bool :=
  match client_Get (req_Context req) (URL_Path req) (resp c) with
  | (_, Panic _) => false
  | (_, Err _) => true
  | (_, Ok cachedData) =>
      String.eqb cachedData ""
      || match gob_Decode cachedData with inl _ => false | inr _ => true end
  end.

(** Stand-ins for examples: a store kept in memory behind IClient, and a
    codec that takes the body as the blob and refuses one blob. *)
Definition Store : Type := list (string * string).

Fixpoint store_get (key : string) (st : Store) : string :=
  match st with
  | [] => EmptyString
  | (k, v) :: t => if String.eqb k key then v else store_get key t
  end.

Fixpoint store_del (key : string) (st : Store) : Store :=
  match st with
  | [] => []
  | (k, v) :: t => if String.eqb k key then store_del key t else (k, v) :: store_del key t
  end.

#[export] Instance Store_impl : IClient Store := {
  client_Get := fun _ key st => (st, Ok (store_get key st));
  client_Delete := fun _ key st => (store_del key st, Ok tt);
  client_SetWithTTL := fun _ key value _ st => ((key, value) :: store_del key st, Ok tt)
}.

Definition body_codec : Gob := {|
  gob_Encode := fun cr => (Body cr, None);
  gob_Decode := fun blob =>
    if String.eqb blob "corrupt" then inr (ErrorsNew "gob: bad blob")
    else inl {| StatusCode := 200; Headers := []; Body := blob |}
|}.

(** What is left for ReadString to do: the script not yet read, an
    error not yet returned, a full buffer not yet put aside. *)
Definition read_measure (b : Reader) (c : NetConn) : nat :=
  (3 * script_weight (incoming c)
   + match rd_err b with None => 2 | Some _ => 0 end
   + if (bufSize <=? String.length (rd_buf b))%nat then 1 else 0)%nat.

Arguments bufSize : simpl never.

(** The number a decimal numeral stands for, read as [digits_value]
    reads its text. *)
Fixpoint uint_value (acc : Z) (d : Decimal.uint) : Z :=
  match d with
  | Decimal.Nil => acc
  | Decimal.D0 l => uint_value (acc * 10 + 0) l
  | Decimal.D1 l => uint_value (acc * 10 + 1) l
  | Decimal.D2 l => uint_value (acc * 10 + 2) l
  | Decimal.D3 l => uint_value (acc * 10 + 3) l
  | Decimal.D4 l => uint_value (acc * 10 + 4) l
  | Decimal.D5 l => uint_value (acc * 10 + 5) l
  | Decimal.D6 l => uint_value (acc * 10 + 6) l
  | Decimal.D7 l => uint_value (acc * 10 + 7) l
  | Decimal.D8 l => uint_value (acc * 10 + 8) l
  | Decimal.D9 l => uint_value (acc * 10 + 9) l
  end.

(** What Receive makes of a one-line reply [first :: text ++ "\r\n"]
    whose first byte is not [$]. *)
Definition line_reply (first : ascii) (text : string) : result string :=
  if Ascii.eqb first "-" then Err (Errorf text)
  else if Ascii.eqb first "+" then Ok text
  else Ok (String first text).

(** The socket after one exchange: [sent] written, the script down to
    [more], both deadlines set to [t]. *)
Definition exchanged (c : NetConn) (t : Z) (sent : string)
    (more : list ReadEvent) : NetConn :=
  {| fd := fd c; incoming := more; outgoing := (outgoing c ++ sent)%string;
     closed := closed c; write_fault := write_fault c;
     read_deadline := Some t; write_deadline := Some t |}.

(** The response the miss path records from the downstream handler. *)
Definition recorded_response (h : Handler) (rw0 : ResponseWriter) (req : Request)
    : CachedResponse :=
  let recorder :=
    Handler_ServeHTTP h {| rw := rw0; status := 0; body := EmptyString |} req in
  {| StatusCode := status recorder;
     Headers := responseRecorder_Header recorder;
     Body := body recorder |}.

Definition set_next {S} (c : Cache S) (h : Handler) : Cache S :=
  {| next := h; name := name c; resp := resp c; redisAuth := redisAuth c;
     redisAddress := redisAddress c; redisPoolSize := redisPoolSize c;
     cacheExpiry := cacheExpiry c |}.

(** A handler call that sets the status. *)
Definition sets_status (call : HandlerCall) : bool :=
  match call with HWriteHeader _ => true | _ => false end.

(** *** Client.Close and the closed channel

    Close closes the channel [client.pool] and then closes every
    connection it drains from it. A closed channel is a state of its
    own: a receive on it, once drained, returns nil at once; a send on
    it and a second close panic. The client together with that state: *)
Inductive chan_panic : Type :=
| SendOnClosedChannel           (* send on closed channel *)
| CloseOfClosedChannel.         (* close of closed channel *)

Record ShutClient : Type := {
  sc_client : Client;
  sc_closed : bool              (* close(client.pool) has run *)
}.

(** Close: the client afterwards, and the drained connections as their
    Close left them. *)
Definition Client_Close (st : ShutClient)
    : (ShutClient * list Connection) + chan_panic :=
  if sc_closed st then inr CloseOfClosedChannel
  else inl ({| sc_client := set_pool (sc_client st) []; sc_closed := true |},
            map (fun c => fst (Close c)) (pool (sc_client st))).

(** GetConnection; [None] is the nil connection that the receive on the
    closed, drained channel returns, with a nil error. *)
Definition GetConnection_shut (now : Z) (st : ShutClient)
    : ShutClient * result (option Connection) :=
  match pool (sc_client st) with
  | c :: rest =>
      ({| sc_client := set_pool (sc_client st) rest; sc_closed := sc_closed st |},
       Ok (Some c))
  | [] =>
      if sc_closed st then (st, Ok None)
      else
        match GetConnection now (sc_client st) with
        | (cl, Ok c) => ({| sc_client := cl; sc_closed := false |}, Ok (Some c))
        | (cl, Err e) => ({| sc_client := cl; sc_closed := false |}, Err e)
        | (cl, Panic p) => ({| sc_client := cl; sc_closed := false |}, Panic p)
        end
  end.

(** ReleaseConnection; the send on the closed channel panics. *)
Definition ReleaseConnection_shut (st : ShutClient) (c : Connection)
    : ShutClient * Connection * option chan_panic :=
  if poolSize (sc_client st) <=? Z.of_nat (List.length (pool (sc_client st)))
  then (st, fst (Close c), None)
  else if sc_closed st then (st, c, Some SendOnClosedChannel)
  else ({| sc_client := set_pool (sc_client st) (pool (sc_client st) ++ [c]);
           sc_closed := false |}, c, None).

(** ** The vendored client (vendor/github.com/kotalco/resp/client.go)

    The client with one connection and no pool. Its connection is an
    IConnection made by NewRedisConnection; it is taken here to be the
    Connection of package resp above. *)

Module resp_vendor.

Definition PingCmd : string := ("PING" ++ String LF EmptyString)%string.

Record Client : Type := {
  conn : Connection;
  address : string;
  auth : string;
  dialer : Dialer
}.

Definition set_conn (client : Client) (c : Connection) : Client :=
  {| conn := c; address := address client; auth := auth client;
     dialer := dialer client |}.

(** NewRedisClient; the dialer made by NewDialer() is the argument [d]. *)
Definition NewRedisClient (d : Dialer) (now : Z) (address auth : string)
    : Dialer * result Client :=
  match NewRedisConnection d now address auth with
  | (d1, Panic p) => (d1, Panic p)
  | (d1, Err _) => (d1, Err (ErrorsNew "can't create redis connection"))
  | (d1, Ok c) =>
      (d1, Ok {| conn := c; address := address; auth := auth; dialer := d1 |})
  end.

(** Do, on the client's one connection; [done_first] as for the pooled
    client. *)
Definition Do (ctx : Context) (now : Z) (done_first : option error)
    (command : string) (client : Client) : Client * result string :=
  let '(c1, r) := round_trip ctx now command (conn client) in
  match r, done_first with
  | Panic p, _ => (set_conn client c1, Panic p)
  | _, Some err => (set_conn client c1, Err err)
  | _, None => (set_conn client c1, r)
  end.

Definition Ping (ctx : Context) (now : Z) (done_first : option error)
    (client : Client) : Client * result string :=
  match Do ctx now done_first PingCmd client with
  | (cl, Panic p) => (cl, Panic p)
  | (cl, Err err) => (cl, Err err)
  | (cl, Ok response) =>
      if String.eqb response "PONG" then (cl, Ok response)
      else (cl, Err (ErrorsNew "unexpected response from server"))
  end.

(** Set; the name [Set] is taken by the sort. The error of
    [fmt.Errorf("... %s", response)] is the text with the response in
    the place of the verb. *)
Definition Set_ (ctx : Context) (now : Z) (done_first : option error)
    (key value : string) (client : Client) : Client * result unit :=
  match Do ctx now done_first (SendCmd key value) client with
  | (cl, Panic p) => (cl, Panic p)
  | (cl, Err err) => (cl, Err err)
  | (cl, Ok response) =>
      if String.eqb response "OK" then (cl, Ok tt)
      else (cl, Err (ErrorsNew ("set: unexpected response from server " ++ response)))
  end.

Definition Get (ctx : Context) (now : Z) (done_first : option error)
    (key : string) (client : Client) : Client * result string :=
  match Do ctx now done_first (GetCmd key) client with
  | (cl, Panic p) => (cl, Panic p)
  | (cl, Err err) => (cl, Err err)
  | (cl, Ok response) => (cl, Ok response)
  end.

Definition Close (client : Client) : Client * option error :=
  let '(c1, err) := resp.Close (conn client) in (set_conn client c1, err).

End resp_vendor.

(** ** The middleware with a recorder that only buffers

    The version of ServeHTTP that makes a client for every request and
    records the downstream response in a recorder that keeps header,
    status and body to itself (the responseRecorder with a [header]
    field). *)

Module crossover_cache_buffered.

Record responseRecorder : Type := {
  rw : ResponseWriter;
  status : Z;
  body : string;
  header : Header
}.

Definition responseRecorder_Header (r : responseRecorder) : Header := header r.

(** Just buffer the body, don't write to rw. *)
Definition responseRecorder_Write (b : string) (r : responseRecorder)
    : responseRecorder :=
  {| rw := rw r; status := status r; body := (body r ++ b)%string;
     header := header r |}.

Definition responseRecorder_WriteHeader (statusCode : Z) (r : responseRecorder)
    : responseRecorder :=
  {| rw := rw r; status := statusCode; body := body r; header := header r |}.

#[global] Instance responseRecorder_impl : IResponseWriter responseRecorder := {
  w_Header := responseRecorder_Header;
  w_setHeader := fun h r =>
    {| rw := rw r; status := status r; body := body r; header := h |};
  w_Write := responseRecorder_Write;
  w_WriteHeader := responseRecorder_WriteHeader
}.

Definition StatusInternalServerError : Z := 500.

(** respClient.Close() *)
Class ICloser (S : Type) : Type := {
  client_Close : S -> S
}.

Section Plugin.
Context {S : Type} `{IClient S} `{ICloser S} `{Gob}.

(** http.Error of the standard library, as what it does to the writer;
    the header fields it sets differ between Go releases. *)
Variable http_Error : ResponseWriter -> string -> Z -> ResponseWriter.

Record Cache : Type := {
  next : Handler;
  name : string;
  redisAuth : string;
  redisAddress : string;
  cacheExpiry : Z
}.

(** ServeHTTP; [connect] is what resp.NewRedisClient returned for this
    request. The result holds the client after the deferred Close, which
    also runs when a call on the client panics. *)
Definition ServeHTTP (connect : result S) (c : Cache) (rw0 : ResponseWriter)
    (req : Request) : option S * ResponseWriter * option panic :=
  match connect with
  | Panic p => (None, rw0, Some p)
  | Err _ =>
      let rw1 := w_WriteHeader StatusInternalServerError rw0 in
      (None, w_Write "something went wrong" rw1, None)
  | Ok respClient =>
      let cacheKey := URL_Path req in
      let record (s : S) :=
        let recorder :=
          Handler_ServeHTTP (next c)
            {| rw := rw0; status := 0; body := EmptyString;
               header := w_Header rw0 |} req in
        let cachedResponse :=
          {| StatusCode := status recorder;
             Headers := responseRecorder_Header recorder;
             Body := body recorder |} in
        match gob_Encode cachedResponse with
        | (_, Some _) =>
            (Some (client_Close s),
             http_Error rw0 "Internal Server Error" StatusInternalServerError,
             None)
        | (buffer, None) =>
            match client_SetWithTTL (req_Context req) cacheKey buffer
                    (cacheExpiry c) s with
            | (s1, Panic p) => (Some (client_Close s1), rw0, Some p)
            | (s1, _) => (Some (client_Close s1), w_Write (body recorder) rw0, None)
            end
        end in
      match client_Get (req_Context req) cacheKey respClient with
      | (s1, Panic p) => (Some (client_Close s1), rw0, Some p)
      | (s1, Err _) => record s1
      | (s1, Ok cachedData) =>
          if negb (String.eqb cachedData "") then
            match gob_Decode cachedData with
            | inl cachedResponse =>
                let rw1 := w_setHeader
                             (crossover_cache.add_headers (Headers cachedResponse)
                                (w_Header rw0)) rw0 in
                let rw2 := w_WriteHeader (StatusCode cachedResponse) rw1 in
                let rw3 := w_Write (Body cachedResponse) rw2 in
                (Some (client_Close s1), rw3, None)
            | inr _ =>
                match client_Delete (req_Context req) cacheKey s1 with
                | (s2, Panic p) => (Some (client_Close s2), rw0, Some p)
                | (s2, _) => record s2
                end
            end
          else record s1
      end
  end.

End Plugin.

End crossover_cache_buffered.

(** * Theorems *)

(** ** Byte strings *)

Section Strings.

Lemma length_app (a b : string) :
  String.length (a ++ b) = (String.length a + String.length b)%nat.
Proof. induction a as [|c a IH]; simpl; [reflexivity | now rewrite IH]. Qed.

Lemma app_empty_r (a : string) : (a ++ "")%string = a.
Proof. induction a as [|c a IH]; simpl; [reflexivity | now rewrite IH]. Qed.

Lemma app_assoc_s (a b c : string) : ((a ++ b) ++ c)%string = (a ++ (b ++ c))%string.
Proof. induction a as [|x a IH]; simpl; [reflexivity | now rewrite IH]. Qed.

Lemma take_app (a b : string) : take (String.length a) (a ++ b) = a.
Proof. induction a as [|c a IH]; simpl; [now destruct b | now rewrite IH]. Qed.

Lemma drop_app (a b : string) : drop (String.length a) (a ++ b) = b.
Proof. induction a as [|c a IH]; simpl; [reflexivity | exact IH]. Qed.

Lemma take_all (n : nat) (a : string) :
  (String.length a <= n)%nat -> take n a = a.
Proof.
  revert n; induction a as [|c a IH]; intros [|n] Hn; simpl in *;
    try reflexivity; try lia.
  rewrite IH by lia; reflexivity.
Qed.

Lemma drop_all (n : nat) (a : string) :
  (String.length a <= n)%nat -> drop n a = EmptyString.
Proof.
  revert n; induction a as [|c a IH]; intros [|n] Hn; simpl in *;
    try reflexivity; try lia.
  apply IH; lia.
Qed.

Lemma IndexByte_app (a b : string) (c : ascii) :
  IndexByte a c = None ->
  IndexByte (a ++ String c b) c = Some (String.length a).
Proof.
  induction a as [|x a IH]; simpl.
  - now rewrite Ascii.eqb_refl.
  - destruct (Ascii.eqb x c); [discriminate|].
    destruct (IndexByte a c); [discriminate|].
    intros _. now rewrite IH.
Qed.

Lemma HasSuffix_app (a suffix : string) : HasSuffix (a ++ suffix) suffix = true.
Proof.
  unfold HasSuffix. rewrite length_app.
  replace (String.length a + String.length suffix - String.length suffix)%nat
    with (String.length a) by lia.
  rewrite drop_app, String.eqb_refl, andb_true_r.
  apply Nat.leb_le; lia.
Qed.

Lemma TrimSuffix_app (a suffix : string) : TrimSuffix (a ++ suffix) suffix = a.
Proof.
  unfold TrimSuffix. rewrite HasSuffix_app, length_app.
  replace (String.length a + String.length suffix - String.length suffix)%nat
    with (String.length a) by lia.
  apply take_app.
Qed.

End Strings.

(** ** The socket and its buffers *)

Section Buffers.

Lemma fill_data (b : Reader) (c : NetConn) (bytes : string) (more : list ReadEvent) :
  closed c = false ->
  incoming c = Data bytes :: more ->
  bytes <> EmptyString ->
  (String.length bytes <= bufSize - String.length (rd_buf b))%nat ->
  fill b c = ({| rd_buf := (rd_buf b ++ bytes)%string; rd_err := None |},
              set_incoming c more).
Proof.
  intros Hc Hin Hne Hfit.
  unfold fill, maxConsecutiveEmptyReads.
  cbv beta iota delta [fill_loop]; fold fill_loop.
  unfold conn_Read. rewrite Hc, Hin.
  apply Nat.leb_le in Hfit. rewrite Hfit.
  destruct bytes; [contradiction | reflexivity].
Qed.

(** One line and what follows it, delivered by one read into an empty
    reader. *)
Lemma ReadString_line (c : NetConn) (line rest : string) (more : list ReadEvent) :
  closed c = false ->
  incoming c = Data (line ++ String LF rest) :: more ->
  IndexByte line LF = None ->
  (String.length (line ++ String LF rest) <= bufSize)%nat ->
  ReadString LF empty_reader c
  = ({| rd_buf := rest; rd_err := None |}, set_incoming c more,
     ((line ++ String LF EmptyString)%string, None)).
Proof.
  intros Hc Hin Hline Hfit.
  unfold ReadString, ReadString_fuel.
  replace (3 * script_weight (incoming c) + 4)%nat
    with (S (3 * script_weight (incoming c) + 3)) by lia.
  cbv beta iota delta [ReadString_loop]; fold ReadString_loop.
  change (IndexByte (rd_buf empty_reader) LF) with (@None nat).
  change (rd_err empty_reader) with (@None error).
  change (bufSize <=? String.length (rd_buf empty_reader))%nat with false.
  cbv iota.
  rewrite (fill_data empty_reader c (line ++ String LF rest) more Hc Hin).
  - destruct (3 * script_weight (incoming c) + 3)%nat;
      cbv beta iota delta [ReadString_loop]; fold ReadString_loop;
      cbn [rd_buf rd_err empty_reader append];
      rewrite (IndexByte_app line rest LF Hline);
      replace (S (String.length line))
        with (String.length (line ++ String LF EmptyString))
        by (rewrite length_app; simpl; lia);
      replace (line ++ String LF rest)%string
        with ((line ++ String LF EmptyString) ++ rest)%string
        by (rewrite app_assoc_s; reflexivity);
      rewrite take_app, drop_app; reflexivity.
  - destruct line; discriminate.
  - cbn [rd_buf empty_reader String.length]. lia.
Qed.

Lemma length_take (n : nat) (a : string) :
  String.length (take n a) = Nat.min n (String.length a).
Proof.
  revert n; induction a as [|c a IH]; intros [|n]; simpl; try reflexivity.
  now rewrite IH.
Qed.

Lemma length_drop (n : nat) (a : string) :
  String.length (drop n a) = (String.length a - n)%nat.
Proof.
  revert n; induction a as [|c a IH]; intros [|n]; simpl; try reflexivity.
  apply IH.
Qed.

Lemma bufSize_pos : (0 < bufSize)%nat.
Proof. unfold bufSize. apply Nat.ltb_lt. reflexivity. Qed.

(** A fill of a buffer with room, no error pending, makes progress. *)
Lemma fill_loop_measure (i : nat) : forall (b : Reader) (c : NetConn),
  rd_err b = None ->
  (String.length (rd_buf b) < bufSize)%nat ->
  (read_measure (fst (fill_loop i b c)) (snd (fill_loop i b c))
   < read_measure b c)%nat.
Proof.
  induction i as [|i IH]; intros b c Herr Hroom.
  - cbn [fill_loop fst snd]. unfold read_measure. cbn [rd_err rd_buf].
    rewrite Herr.
    destruct (Nat.leb_spec bufSize (String.length (rd_buf b))); lia.
  - cbn [fill_loop]. unfold conn_Read.
    assert (Hnf : (bufSize <=? String.length (rd_buf b))%nat = false)
      by (apply Nat.leb_gt; exact Hroom).
    destruct (closed c).
    { cbn [fst snd]. unfold read_measure. cbn [rd_err rd_buf].
      rewrite app_empty_r, Herr, Hnf. lia. }
    destruct (incoming c) as [|[bytes|e] rest] eqn:Hin.
    + cbn [fst snd]. unfold read_measure. cbn [rd_err rd_buf].
      rewrite app_empty_r, Herr, Hnf, Hin. lia.
    + destruct (Nat.leb_spec (String.length bytes)
                  (bufSize - String.length (rd_buf b))) as [Hfit|Hbig].
      * destruct bytes as [|x bytes].
        -- eapply Nat.lt_trans.
           ++ apply IH; cbn [rd_err rd_buf]; [reflexivity|].
              rewrite app_empty_r. exact Hroom.
           ++ unfold read_measure.
              cbn [rd_err rd_buf incoming set_incoming].
              rewrite app_empty_r, Herr, Hnf, Hin.
              cbn [script_weight String.length]. lia.
        -- cbn [fst snd]. unfold read_measure.
           cbn [rd_err rd_buf incoming set_incoming].
           rewrite Herr, Hnf, Hin. cbn [script_weight].
           match goal with
           | |- context [if ?t then 1%nat else 0%nat] => destruct t
           end; cbn [String.length]; lia.
      * assert (Hne : take (bufSize - String.length (rd_buf b)) bytes <> EmptyString).
        { destruct bytes as [|x bytes]; [cbn in Hbig; lia|].
          destruct (bufSize - String.length (rd_buf b))%nat eqn:Hcap; [lia|].
          discriminate. }
        destruct (take (bufSize - String.length (rd_buf b)) bytes) as [|x tk] eqn:Htk;
          [contradiction|].
        cbn [fst snd]. unfold read_measure.
        cbn [rd_err rd_buf incoming set_incoming].
        rewrite Herr, Hnf, Hin. cbn [script_weight].
        rewrite length_drop.
        match goal with
        | |- context [if ?t then 1%nat else 0%nat] => destruct t
        end; lia.
    + cbn [fst snd]. unfold read_measure.
      cbn [rd_err rd_buf incoming set_incoming].
      rewrite app_empty_r, Herr, Hnf, Hin. cbn [script_weight]. lia.
Qed.

(** ReadString always returns: with as many turns as [read_measure]
    counts, the loop never runs out of turns, and more turns change
    nothing. *)
Lemma ReadString_loop_enough (delim : ascii) (fuel : nat) :
  forall (fuel' : nat) (acc : string) (b : Reader) (c : NetConn),
  (read_measure b c <= fuel)%nat -> (read_measure b c <= fuel')%nat ->
  ReadString_loop fuel acc delim b c = ReadString_loop fuel' acc delim b c.
Proof.
  induction fuel as [|fuel IH]; intros fuel' acc b c Hm Hm'.
  - destruct fuel'; cbn [ReadString_loop];
      destruct (IndexByte (rd_buf b) delim); try reflexivity;
      destruct (rd_err b) eqn:Herr; try reflexivity;
      unfold read_measure in Hm; rewrite Herr in Hm; lia.
  - destruct fuel' as [|fuel'].
    { cbn [ReadString_loop].
      destruct (IndexByte (rd_buf b) delim); try reflexivity.
      destruct (rd_err b) eqn:Herr; try reflexivity.
      unfold read_measure in Hm'; rewrite Herr in Hm'; lia. }
    cbn [ReadString_loop].
    destruct (IndexByte (rd_buf b) delim); [reflexivity|].
    destruct (rd_err b) eqn:Herr; [reflexivity|].
    pose proof bufSize_pos as Hpos.
    destruct (Nat.leb_spec bufSize (String.length (rd_buf b))) as [Hfull|Hroom].
    + apply IH; unfold read_measure in *; cbn [rd_err rd_buf String.length];
        rewrite Herr in *;
        apply Nat.leb_le in Hfull; rewrite Hfull in *;
        destruct (Nat.leb_spec bufSize 0); lia.
    + pose proof (fill_loop_measure maxConsecutiveEmptyReads b c Herr Hroom) as Hlt.
      unfold fill. destruct (fill_loop maxConsecutiveEmptyReads b c) as [b' c'].
      cbn [fst snd] in Hlt. apply IH; lia.
Qed.

Lemma ReadString_total (delim : ascii) (b : Reader) (c : NetConn) (extra : nat) :
  ReadString_loop (ReadString_fuel c + extra) EmptyString delim b c
  = ReadString delim b c.
Proof.
  unfold ReadString. apply ReadString_loop_enough;
    unfold read_measure, ReadString_fuel;
    destruct (rd_err b); destruct (bufSize <=? _)%nat; lia.
Qed.

(** Reading [n] bytes when at least one byte is buffered: only the
    buffer is touched. *)
Lemma Reader_Read_buffered (n : nat) (b : Reader) (c : NetConn) :
  n <> O -> rd_buf b <> EmptyString ->
  Reader_Read n b c
  = ({| rd_buf := drop n (rd_buf b); rd_err := rd_err b |}, c,
     (take n (rd_buf b), None)).
Proof.
  intros Hn Hb. unfold Reader_Read.
  destruct n; [contradiction|].
  destruct (rd_buf b); [contradiction | reflexivity].
Qed.

Lemma SetWriteDeadline_open (c : NetConn) (t : Z) :
  closed c = false -> SetWriteDeadline c t = (set_write_deadline c t, None).
Proof.
  unfold SetWriteDeadline, set_write_deadline.
  destruct (closed c); [discriminate | reflexivity].
Qed.

Lemma SetReadDeadline_open (c : NetConn) (t : Z) :
  closed c = false -> SetReadDeadline c t = (set_read_deadline c t, None).
Proof.
  unfold SetReadDeadline, set_read_deadline.
  destruct (closed c); [discriminate | reflexivity].
Qed.

Lemma WriteString_cons (a : ascii) (t : string) (w : Writer) (c : NetConn) :
  WriteString (String a t) w c
  = match wr_err w with
    | Some e => (w, c, Some e)
    | None =>
        if (bufSize <=? String.length (wr_buf w))%nat
        then
          match Flush w c with
          | (w', c', Some e) => (w', c', Some e)
          | (w', c', None) =>
              WriteString t
                {| wr_buf := (wr_buf w' ++ String a EmptyString)%string;
                   wr_err := None |} c'
          end
        else
          WriteString t
            {| wr_buf := (wr_buf w ++ String a EmptyString)%string;
               wr_err := None |} c
    end.
Proof. reflexivity. Qed.

Lemma Flush_ok (w : Writer) (c : NetConn) :
  wr_err w = None -> closed c = false -> write_fault c = None ->
  Flush w c = (empty_writer, set_outgoing c (outgoing c ++ wr_buf w), None).
Proof.
  intros Hw Hc Hf. destruct w as [wb we], c; simpl in *; subst.
  unfold Flush, conn_Write, set_outgoing; simpl.
  destruct wb; [rewrite app_empty_r|]; reflexivity.
Qed.

(** A write on a sound socket succeeds, and the socket and the buffer
    together hold what they held before, then [s]. *)
Lemma WriteString_ok (s : string) : forall (w : Writer) (c : NetConn),
  wr_err w = None -> closed c = false -> write_fault c = None ->
  exists w' o',
    WriteString s w c = (w', set_outgoing c o', None)
    /\ wr_err w' = None
    /\ (o' ++ wr_buf w')%string = (outgoing c ++ wr_buf w ++ s)%string.
Proof.
  induction s as [|a t IH]; intros w c Hw Hc Hf.
  - exists w, (outgoing c). simpl. rewrite Hw.
    destruct c; simpl in *. repeat split; try assumption.
    now rewrite app_empty_r.
  - rewrite WriteString_cons, Hw.
    destruct (bufSize <=? String.length (wr_buf w))%nat.
    + rewrite (Flush_ok w c Hw Hc Hf).
      destruct (IH {| wr_buf := (wr_buf empty_writer ++ String a ""); wr_err := None |}
                   (set_outgoing c (outgoing c ++ wr_buf w)))
        as (w' & o' & HW & He & Ho); try assumption; try reflexivity.
      exists w', o'. rewrite HW. split; [reflexivity|]. split; [assumption|].
      rewrite Ho. cbn [outgoing set_outgoing wr_buf empty_writer append].
      rewrite app_assoc_s. reflexivity.
    + destruct (IH {| wr_buf := (wr_buf w ++ String a ""); wr_err := None |} c)
        as (w' & o' & HW & He & Ho); try assumption; try reflexivity.
      exists w', o'. rewrite HW. split; [reflexivity|]. split; [assumption|].
      rewrite Ho. cbn [wr_buf]. rewrite app_assoc_s. reflexivity.
Qed.

End Buffers.

(** ** Send and Receive on an idle connection *)

Section Exchange.

Lemma idle_serving (rc : Connection) (evs : list ReadEvent) :
  idle rc -> idle (serving rc evs).
Proof. intros (Hc & Hf & Hr & Hw). repeat split; assumption. Qed.

Lemma Send_idle (ctx : Context) (now : Z) (command : string) (rc : Connection) :
  Context_Err ctx now = None -> idle rc ->
  Send ctx now command rc
  = ({| conn := set_outgoing (set_write_deadline (conn rc) (deadline_of ctx now))
                  (outgoing (conn rc) ++ command ++ CRLF);
        rd := rd rc; wr := empty_writer |}, None).
Proof.
  intros Hctx (Hc & Hf & Hr & Hw).
  unfold Send. rewrite Hctx, (SetWriteDeadline_open _ _ Hc), Hw.
  destruct (WriteString_ok (command ++ CRLF) empty_writer
              (set_write_deadline (conn rc) (deadline_of ctx now)))
    as (w' & o' & HW & He & Ho); try assumption; try reflexivity.
  rewrite HW,
    (Flush_ok w' (set_outgoing (set_write_deadline (conn rc) (deadline_of ctx now)) o')
       He Hc Hf).
  cbn [outgoing set_outgoing]. rewrite Ho.
  reflexivity.
Qed.

(** What Receive returns for a one-line reply, by the first byte of the
    line: [decode_line first rest] for the line [first :: rest ++ "\r\n"].
    Bulk replies ([$]) are not one-line replies. *)
Lemma Receive_one_line (ctx : Context) (now : Z) (rc : Connection)
    (first : ascii) (text after : string) (more : list ReadEvent) :
  Context_Err ctx now = None ->
  closed (conn rc) = false -> rd rc = empty_reader ->
  incoming (conn rc)
    = Data (String first text ++ CRLF ++ after) :: more ->
  IndexByte (String first text) LF = None ->
  (String.length (String first text ++ CRLF ++ after) <= bufSize)%nat ->
  Ascii.eqb first "$" = false ->
  Receive ctx now rc
  = ({| conn := set_incoming (set_read_deadline (conn rc) (deadline_of ctx now)) more;
        rd := {| rd_buf := after; rd_err := None |}; wr := wr rc |},
     if Ascii.eqb first "-" then Err (Errorf text)
     else if Ascii.eqb first "+" then Ok text
     else Ok (String first text)).
Proof.
  intros Hctx Hc Hr Hin Hline Hfit Hbulk.
  assert (Hsplit : (String first text ++ CRLF ++ after)%string
                   = ((String first text ++ String CR "") ++ String LF after)%string).
  { rewrite app_assoc_s. reflexivity. }
  rewrite Hsplit in Hin, Hfit.
  assert (Hline' : IndexByte (String first text ++ String CR "") LF = None).
  { clear - Hline. revert Hline. generalize (String first text) as s.
    induction s as [|x s IH]; simpl; [reflexivity|].
    destruct (Ascii.eqb x LF); [discriminate|].
    destruct (IndexByte s LF); [discriminate|].
    intros _. now rewrite IH. }
  unfold Receive. rewrite Hctx, (SetReadDeadline_open _ _ Hc), Hr.
  rewrite (ReadString_line (set_read_deadline (conn rc) (deadline_of ctx now))
             _ _ more Hc Hin Hline' Hfit).
  assert (Hl : ((String first text ++ String CR "") ++ String LF "")%string
               = String first (text ++ CRLF)).
  { rewrite app_assoc_s. reflexivity. }
  rewrite Hl.
  replace (String first (text ++ CRLF)) with (String first text ++ CRLF)%string
    by reflexivity.
  cbv iota beta. rewrite Hbulk.
  rewrite !TrimSuffix_app.
  destruct (Ascii.eqb first "-"); [reflexivity|].
  destruct (Ascii.eqb first "+"); reflexivity.
Qed.

(** Receive on a bulk header: the header line is read and the rest of
    the code runs on its declared length. *)
Lemma Receive_bulk_header (ctx : Context) (now : Z) (rc : Connection)
    (text after : string) (more : list ReadEvent) :
  Context_Err ctx now = None ->
  closed (conn rc) = false -> rd rc = empty_reader ->
  incoming (conn rc) = Data ("$" ++ text ++ CRLF ++ after) :: more ->
  IndexByte text LF = None ->
  (String.length ("$" ++ text ++ CRLF ++ after) <= bufSize)%nat ->
  Receive ctx now rc
  = let c2 := set_incoming (set_read_deadline (conn rc) (deadline_of ctx now)) more in
    let b2 := {| rd_buf := after; rd_err := None |} in
    let rc2 := {| conn := c2; rd := b2; wr := wr rc |} in
    let length := fst (Atoi text) in
    if length =? -1 then (rc2, Ok EmptyString)
    else
      let n := wrap64 (length + 2) in
      if (n <? 0) || (maxAlloc <? n)
      then (rc2, Panic MakeSliceLenOutOfRange)
      else
        let '(b3, c3, (bytes, err3)) := Reader_Read (Z.to_nat n) b2 c2 in
        let rc3 := {| conn := c3; rd := b3; wr := wr rc |} in
        let buf := copy_into (Z.to_nat n) bytes in
        match err3 with
        | Some e => (rc3, Err e)
        | None =>
            if (length <? 0) || (n <? length)
            then (rc3, Panic SliceBoundsOutOfRange)
            else (rc3, Ok (take (Z.to_nat length) buf))
        end.
Proof.
  intros Hctx Hc Hr Hin Hline Hfit.
  assert (Hsplit : ("$" ++ text ++ CRLF ++ after)%string
                   = ((String "$" text ++ String CR "") ++ String LF after)%string).
  { rewrite app_assoc_s. reflexivity. }
  rewrite Hsplit in Hin, Hfit.
  assert (Hline' : IndexByte (String "$" text ++ String CR "") LF = None).
  { change (String "$" text ++ String CR "")%string
      with (String "$" (text ++ String CR "")).
    cbn [IndexByte]. change (Ascii.eqb "$" LF) with false. cbv iota.
    clear - Hline. revert Hline.
    induction text as [|x s IH]; simpl; [reflexivity|].
    destruct (Ascii.eqb x LF); [discriminate|].
    destruct (IndexByte s LF); [discriminate|].
    intros _. now rewrite IH. }
  unfold Receive. rewrite Hctx, (SetReadDeadline_open _ _ Hc), Hr.
  rewrite (ReadString_line (set_read_deadline (conn rc) (deadline_of ctx now))
             _ _ more Hc Hin Hline' Hfit).
  assert (Hl : ((String "$" text ++ String CR "") ++ String LF "")%string
               = String "$" (text ++ CRLF)).
  { rewrite app_assoc_s. reflexivity. }
  rewrite Hl. cbv iota beta.
  change (Ascii.eqb "$" "-") with false.
  change (Ascii.eqb "$" "$") with true.
  cbv iota. rewrite TrimSuffix_app. reflexivity.
Qed.

End Exchange.

(** ** The decoder *)

Section Decoder.

Lemma wrap64_small (z : Z) : MinInt64 <= z <= MaxInt64 -> wrap64 z = z.
Proof.
  unfold MinInt64, MaxInt64, wrap64. intros Hz.
  rewrite Z.mod_small; lia.
Qed.

Lemma wrap64_range (z : Z) : MinInt64 <= wrap64 z <= MaxInt64.
Proof.
  unfold MinInt64, MaxInt64, wrap64.
  pose proof (Z.mod_pos_bound (z + 9223372036854775808) 18446744073709551616).
  lia.
Qed.

Lemma is_digit_value (c : ascii) :
  is_digit c = true -> 0 <= Z.of_nat (nat_of_ascii c) - 48 <= 9.
Proof.
  unfold is_digit. intros H. apply andb_true_iff in H as [Hlo Hhi].
  apply Nat.leb_le in Hlo. apply Nat.leb_le in Hhi. lia.
Qed.

(** The digits summed by the fast path of Atoi: with [k] digits the sum
    is below (acc+1) * 10^k and not below [acc]. *)
Lemma digits_value_bound (s : string) : forall acc v,
  0 <= acc -> digits_value acc s = Some v ->
  acc <= v < (acc + 1) * 10 ^ Z.of_nat (String.length s).
Proof.
  induction s as [|c t IH]; intros acc v Hacc; cbn [digits_value String.length].
  - intros [= <-]. change (10 ^ Z.of_nat 0) with 1. lia.
  - destruct (is_digit c) eqn:Hd; [|discriminate].
    pose proof (is_digit_value c Hd) as Hc.
    intros Hv. apply IH in Hv; [|lia].
    rewrite Nat2Z.inj_succ, Z.pow_succ_r by lia.
    assert (0 < 10 ^ Z.of_nat (String.length t)) by (apply Z.pow_pos_nonneg; lia).
    nia.
Qed.

(** Where the digits stay within 64 bits, the loop of ParseUint reads
    what the plain sum of the digits gives. *)
Lemma ParseUint_loop_digits (s : string) : forall n v,
  0 <= n -> digits_value n s = Some v -> v <= maxUint64 ->
  ParseUint_loop n s = (v, None).
Proof.
  induction s as [|c t IH]; intros n v Hn; cbn [digits_value ParseUint_loop].
  - intros [= <-] _. reflexivity.
  - destruct (is_digit c) eqn:Hd; [|discriminate].
    pose proof (is_digit_value c Hd) as Hc.
    intros Hv Hmax.
    assert (Hn1 : 0 <= n * 10 + (Z.of_nat (nat_of_ascii c) - 48)) by lia.
    pose proof (digits_value_bound t _ v Hn1 Hv) as [Hge _].
    cbv zeta. unfold maxUint64 in *.
    change (18446744073709551615 / 10 + 1) with 1844674407370955162.
    destruct (Z.leb_spec 1844674407370955162 n); [lia|].
    destruct (Z.ltb_spec 18446744073709551615
                (n * 10 + (Z.of_nat (nat_of_ascii c) - 48))); [lia|].
    apply IH; [lia | exact Hv | exact Hmax].
Qed.

Lemma ParseUint_loop_syntax (s : string) : forall n,
  snd (ParseUint_loop n s) = Some ErrSyntax -> fst (ParseUint_loop n s) = 0.
Proof.
  induction s as [|c t IH]; intros n; cbn [ParseUint_loop].
  - discriminate.
  - destruct (is_digit c); [|reflexivity]. cbv zeta.
    destruct (_ <=? n); [discriminate|].
    destruct (maxUint64 <? _); [discriminate|]. apply IH.
Qed.

Lemma ParseInt_range (s : string) : MinInt64 <= fst (ParseInt s) <= MaxInt64.
Proof.
  unfold ParseInt.
  destruct s as [|c t]; [unfold MinInt64, MaxInt64; simpl; lia|].
  cbv zeta.
  destruct (ParseUint _) as [un [e|]];
    [destruct e; try (unfold MinInt64, MaxInt64; simpl; lia)|];
    (destruct (negb _ && _); [unfold MinInt64, MaxInt64; simpl; lia|];
     destruct (Ascii.eqb c "-" && _); [unfold MinInt64, MaxInt64; simpl; lia|];
     cbn [fst]; destruct (Ascii.eqb c "-"); apply wrap64_range).
Qed.

Lemma ParseInt_syntax (s : string) :
  snd (ParseInt s) = Some ErrSyntax -> fst (ParseInt s) = 0.
Proof.
  unfold ParseInt.
  destruct s as [|c t]; [reflexivity|].
  cbv zeta.
  destruct (ParseUint _) as [un [e|]];
    [destruct e; try reflexivity|];
    (destruct (negb _ && _); [discriminate|];
     destruct (Ascii.eqb c "-" && _); discriminate).
Qed.

Lemma ParseInt_overflow (s : string) :
  snd (ParseInt s) = Some ErrRange ->
  fst (ParseInt s) = MaxInt64 \/ fst (ParseInt s) = MinInt64.
Proof.
  unfold ParseInt.
  destruct s as [|c t]; [discriminate|].
  cbv zeta.
  destruct (ParseUint _) as [un [e|]];
    [destruct e; try discriminate|];
    (destruct (negb _ && _); [left; reflexivity|];
     destruct (Ascii.eqb c "-" && _); [right; reflexivity | discriminate]).
Qed.

Lemma Atoi_range (s : string) : MinInt64 <= fst (Atoi s) <= MaxInt64.
Proof.
  unfold Atoi. cbv zeta.
  destruct ((0 <? String.length s)%nat && (String.length s <? 19)%nat) eqn:Hfast;
    [|apply ParseInt_range].
  apply andb_true_iff in Hfast as [_ Hlen]. apply Nat.ltb_lt in Hlen.
  destruct s as [|c t]; [unfold MinInt64, MaxInt64; simpl; lia|].
  destruct (_ && (_ <? 1)%nat); [unfold MinInt64, MaxInt64; simpl; lia|].
  destruct (digits_value 0 _) as [v|] eqn:Hv;
    [|unfold MinInt64, MaxInt64; simpl; lia].
  apply digits_value_bound in Hv; [|lia].
  assert (Hpow : 10 ^ Z.of_nat (String.length
                   (if Ascii.eqb c "-" || Ascii.eqb c "+" then t else String c t))
                 <= 10 ^ 18).
  { apply Z.pow_le_mono_r; [lia|].
    destruct (_ || _); cbn [String.length] in *; lia. }
  change (10 ^ 18) with 1000000000000000000 in Hpow.
  cbn [fst]. unfold MinInt64, MaxInt64.
  destruct (Ascii.eqb c "-"); lia.
Qed.

Lemma Atoi_syntax (s : string) : snd (Atoi s) = Some ErrSyntax -> fst (Atoi s) = 0.
Proof.
  unfold Atoi. cbv zeta.
  destruct ((0 <? String.length s)%nat && (String.length s <? 19)%nat);
    [|apply ParseInt_syntax].
  destruct s as [|c t]; [reflexivity|].
  destruct (_ && (_ <? 1)%nat); [reflexivity|].
  destruct (digits_value 0 _) as [v|]; [discriminate | reflexivity].
Qed.

(** A range error of Atoi comes with one of the two bounds of [int]. *)
Lemma Atoi_overflow (s : string) :
  snd (Atoi s) = Some ErrRange ->
  fst (Atoi s) = MaxInt64 \/ fst (Atoi s) = MinInt64.
Proof.
  unfold Atoi. cbv zeta.
  destruct ((0 <? String.length s)%nat && (String.length s <? 19)%nat);
    [|apply ParseInt_overflow].
  destruct s as [|c t]; [discriminate|].
  destruct (_ && (_ <? 1)%nat); [discriminate|].
  destruct (digits_value 0 _) as [v|]; discriminate.
Qed.

(** Digits that overflow 64 bits end the parse where they do: a byte
    that is no digit after them is not reached, and the result is the
    bound with ErrRange, not a syntax error. *)
Lemma Atoi_overflow_before_syntax :
  Atoi "99999999999999999999x" = (MaxInt64, Some ErrRange)
  /\ Atoi "-99999999999999999999x" = (MinInt64, Some ErrRange)
  /\ Atoi "9223372036854775808" = (MaxInt64, Some ErrRange)
  /\ Atoi "-9223372036854775808" = (MinInt64, None)
  /\ Atoi "9223372036854775807" = (MaxInt64, None)
  /\ Atoi "12x" = (0, Some ErrSyntax)
  /\ Atoi "-" = (0, Some ErrSyntax)
  /\ Atoi "" = (0, Some ErrSyntax).
Proof. repeat split; vm_compute; reflexivity. Qed.

End Decoder.

(** ** Claims on Receive *)

(** C3 (as amended). Receive returns strings, not typed values. On an
    idle connection whose next read delivers the reply, [+OK\r\n] gives
    the string [OK]; [:5\r\n] gives the string [:5], the prefix kept and
    no integer parsed; [$3\r\nabc\r\n] gives [abc]; [$-1\r\n] gives the
    empty string and no error; [-ERR bad\r\n] gives the error whose text
    is [ERR bad]; and a [:] line with any payload, numeric or not, is
    returned as it is, without an error. *)
Theorem Receive_decodes_literal_replies (ctx : Context) (now : Z)
    (rc : Connection) (more : list ReadEvent) :
  Context_Err ctx now = None -> idle rc ->
  snd (Receive ctx now (serving rc (Data ("+OK" ++ CRLF) :: more))) = Ok "OK"%string
  /\ snd (Receive ctx now (serving rc (Data (":5" ++ CRLF) :: more))) = Ok ":5"%string
  /\ snd (Receive ctx now (serving rc (Data ("$3" ++ CRLF ++ "abc" ++ CRLF) :: more)))
     = Ok "abc"%string
  /\ snd (Receive ctx now (serving rc (Data ("$-1" ++ CRLF) :: more))) = Ok ""%string
  /\ snd (Receive ctx now (serving rc (Data ("-ERR bad" ++ CRLF) :: more)))
     = Err (Errorf "ERR bad")
  /\ error_text (Errorf "ERR bad") = Some "ERR bad"%string
  /\ forall payload : string,
       IndexByte payload LF = None ->
       (String.length payload + 3 <= bufSize)%nat ->
       snd (Receive ctx now (serving rc (Data (":" ++ payload ++ CRLF) :: more)))
       = Ok (":" ++ payload)%string.
Proof.
  intros Hctx (Hc & Hf & Hr & Hw).
  assert (Hone : forall first text,
             IndexByte (String first text) LF = None ->
             (String.length (String first text ++ CRLF ++ "") <= bufSize)%nat ->
             Ascii.eqb first "$" = false ->
             snd (Receive ctx now (serving rc (Data (String first text ++ CRLF) :: more)))
             = if Ascii.eqb first "-" then Err (Errorf text)
               else if Ascii.eqb first "+" then Ok text
               else Ok (String first text)).
  { intros first text Hl Hfit Hb.
    change (String first text ++ CRLF)%string
      with (String first text ++ CRLF ++ "")%string.
    rewrite (Receive_one_line ctx now
               (serving rc (Data (String first text ++ CRLF ++ "") :: more))
               first text "" more Hctx Hc Hr eq_refl Hl Hfit Hb).
    reflexivity. }
  assert (Hbulk := fun text after =>
             Receive_bulk_header ctx now
               (serving rc (Data ("$" ++ text ++ CRLF ++ after) :: more))
               text after more Hctx Hc Hr eq_refl).
  repeat split.
  - apply (Hone "+"%char "OK"%string); [reflexivity | vm_compute; lia | reflexivity].
  - apply (Hone ":"%char "5"%string); [reflexivity | vm_compute; lia | reflexivity].
  - change ("$3" ++ CRLF ++ "abc" ++ CRLF)%string
      with ("$" ++ "3" ++ CRLF ++ ("abc" ++ CRLF))%string.
    rewrite Hbulk; [reflexivity | reflexivity | vm_compute; lia].
  - change ("$-1" ++ CRLF)%string with ("$" ++ "-1" ++ CRLF ++ "")%string.
    rewrite Hbulk; [reflexivity | reflexivity | vm_compute; lia].
  - apply (Hone "-"%char "ERR bad"%string); [reflexivity | vm_compute; lia | reflexivity].
  - intros payload Hl Hfit.
    apply (Hone ":"%char payload).
    + cbn [IndexByte]. change (Ascii.eqb ":" LF) with false. cbv iota.
      now rewrite Hl.
    + cbn [append String.length]. rewrite !length_app. cbn [String.length CRLF]. lia.
    + reflexivity.
Qed.

Lemma Receive_decodes_literal_replies_witness :
  Context_Err Background 0 = None
  /\ idle (wrap (socket 3 []))
  /\ snd (Receive Background 0
            (serving (wrap (socket 3 [])) [Data ("+OK" ++ CRLF)])) = Ok "OK"%string.
Proof.
  split; [reflexivity|]. split; [repeat split|].
  apply (Receive_decodes_literal_replies Background 0 (wrap (socket 3 [])) []);
    [reflexivity | repeat split].
Defined.

(** C3 as stated fails: the integer reply [:5\r\n] comes back as the
    string [:5], and the non-numeric [:abc\r\n] comes back as the string
    [:abc] with no error. *)
Lemma Receive_integer_reply_counterexample :
  snd (Receive Background 0 (wrap (socket 3 [Data (":abc" ++ CRLF)])))
  = Ok ":abc"%string
  /\ is_Err (snd (Receive Background 0 (wrap (socket 3 [Data (":abc" ++ CRLF)])))) = false
  /\ snd (Receive Background 0 (wrap (socket 3 [Data (":5" ++ CRLF)]))) = Ok ":5"%string.
Proof. repeat split; vm_compute; reflexivity. Qed.

(** C9 (as amended). After a bulk header [$<text>\r\n], Receive handles
    one negative length only, -1, which gives the empty string.  Every
    length below -1 panics: below -2 in the allocation, whose size
    length+2 is negative; at -2 the size is 0, the allocation succeeds
    and the panic is the slice [buf[:length]].  A length that does not
    parse counts as 0, the error of Atoi being dropped: with the CRLF of
    an empty payload next in the buffer the reply is the empty string.
    That is the syntax error of Atoi.  Its range error is dropped too:
    digits that overflow 64 bits count as the nearest bound of [int],
    whatever follows them, and the allocation panics. *)
Theorem Receive_bulk_length_below_zero (ctx : Context) (now : Z)
    (rc : Connection) (text after : string) (more : list ReadEvent) :
  Context_Err ctx now = None -> idle rc ->
  IndexByte text LF = None ->
  (String.length ("$" ++ text ++ CRLF ++ after) <= bufSize)%nat ->
  let reply := snd (Receive ctx now
                      (serving rc (Data ("$" ++ text ++ CRLF ++ after) :: more))) in
  (fst (Atoi text) = -1 -> reply = Ok ""%string)
  /\ (fst (Atoi text) = -2 -> reply = Panic SliceBoundsOutOfRange)
  /\ (fst (Atoi text) < -2 -> reply = Panic MakeSliceLenOutOfRange)
  /\ (snd (Atoi text) = Some ErrSyntax ->
      fst (Atoi text) = 0
      /\ forall after', after = (CRLF ++ after')%string -> reply = Ok ""%string)
  /\ (snd (Atoi text) = Some ErrRange -> reply = Panic MakeSliceLenOutOfRange).
Proof.
  intros Hctx (Hc & Hf & Hr & Hw) Hl Hfit reply. subst reply.
  rewrite (Receive_bulk_header ctx now
             (serving rc (Data ("$" ++ text ++ CRLF ++ after) :: more))
             text after more Hctx Hc Hr eq_refl Hl Hfit).
  cbv zeta. repeat split.
  - intros ->. reflexivity.
  - intros ->. change (wrap64 (-2 + 2)) with 0.
    change (-2 =? -1) with false. cbv iota.
    change ((0 <? 0) || (maxAlloc <? 0)) with false. cbv iota.
    change (Z.to_nat 0) with O.
    unfold Reader_Read. cbn [rd_buf rd_err].
    destruct after; reflexivity.
  - intros Hlt.
    pose proof (Atoi_range text) as Hrange.
    destruct (Z.eqb_spec (fst (Atoi text)) (-1)); [lia|].
    rewrite wrap64_small by (unfold MinInt64, MaxInt64 in *; lia).
    destruct (Z.ltb_spec (fst (Atoi text) + 2) 0); [reflexivity | lia].
  - now apply Atoi_syntax.
  - intros after' ->. rewrite (Atoi_syntax text H).
    change (0 =? -1) with false. change (wrap64 (0 + 2)) with 2.
    cbv iota.
    change ((2 <? 0) || (maxAlloc <? 2)) with false. cbv iota.
    reflexivity.
  - intros Hrange.
    destruct (Atoi_overflow text Hrange) as [-> | ->]; reflexivity.
Qed.

Lemma Receive_bulk_length_below_zero_witness :
  Context_Err Background 0 = None
  /\ idle (wrap (socket 3 []))
  /\ IndexByte "-3" LF = None
  /\ (String.length ("$" ++ "-3" ++ CRLF ++ "") <= bufSize)%nat
  /\ snd (Receive Background 0
            (serving (wrap (socket 3 [])) [Data ("$" ++ "-3" ++ CRLF ++ "")]))
     = Panic MakeSliceLenOutOfRange.
Proof.
  assert (Hfit : (String.length ("$" ++ "-3" ++ CRLF ++ "") <= bufSize)%nat)
    by (vm_compute; lia).
  split; [reflexivity|]. split; [repeat split|]. split; [reflexivity|].
  split; [exact Hfit|].
  refine (proj1 (proj2 (proj2
            (Receive_bulk_length_below_zero Background 0 (wrap (socket 3 [])) "-3" "" []
               _ _ _ Hfit))) _);
    [reflexivity | repeat split | reflexivity | vm_compute; reflexivity].
Defined.

(** C9 as stated fails at its own example: for the header [$-2\r\n] the
    size asked of the allocation, length+2, is 0, not negative, and the
    panic is the slice bound, not the allocation. *)
Lemma Receive_minus_two_counterexample :
  wrap64 (fst (Atoi "-2") + 2) = 0
  /\ snd (Receive Background 0 (wrap (socket 3 [Data ("$-2" ++ CRLF)])))
     = Panic SliceBoundsOutOfRange
  /\ snd (Receive Background 0 (wrap (socket 3 [Data ("$-2" ++ CRLF)])))
     <> Panic MakeSliceLenOutOfRange.
Proof. repeat split; try (vm_compute; reflexivity). vm_compute. discriminate. Qed.

(** Digits that overflow 64 bits in a bulk header, here with a byte that
    is no digit after them: the length counts as the largest [int], the
    size length+2 wraps below zero and the allocation panics, also with
    the CRLF of an empty payload next in the buffer. *)
Lemma Receive_bulk_overflowing_length :
  snd (Receive Background 0
         (wrap (socket 3 [Data ("$99999999999999999999x" ++ CRLF ++ CRLF)])))
  = Panic MakeSliceLenOutOfRange
  /\ snd (Receive Background 0
            (wrap (socket 3 [Data ("$99999999999999999999" ++ CRLF ++ CRLF)])))
     = Panic MakeSliceLenOutOfRange
  /\ snd (Receive Background 0 (wrap (socket 3 [Data ("$abc" ++ CRLF ++ CRLF)])))
     = Ok ""%string.
Proof. repeat split; vm_compute; reflexivity. Qed.

(** ** Claims on Send, Receive and the context *)

(** C6. When the context handed to Send or Receive is already cancelled,
    or its deadline has already passed, at entry, the call returns the
    context's error (the recorded one, or DeadlineExceeded) and the
    connection is returned exactly as it was: nothing was written to or
    read from the socket, and no deadline was set on it. *)
Theorem Send_Receive_fail_fast (ctx : Context) (now : Z) (command : string)
    (rc : Connection) :
  (ctx_done ctx <> None \/ exists d, ctx_Deadline ctx = Some d /\ d <= now) ->
  exists err,
    Context_Err ctx now = Some err
    /\ (err = DeadlineExceeded \/ ctx_done ctx = Some err)
    /\ Send ctx now command rc = (rc, Some err)
    /\ Receive ctx now rc = (rc, Err err).
Proof.
  intros Hexp.
  assert (Herr : exists err, Context_Err ctx now = Some err
                             /\ (err = DeadlineExceeded \/ ctx_done ctx = Some err)).
  { unfold Context_Err. destruct (ctx_done ctx) as [e|] eqn:Hd.
    - exists e. split; [reflexivity | now right].
    - destruct Hexp as [Hn | (d & Hdl & Hle)]; [congruence|].
      rewrite Hdl. apply Z.leb_le in Hle. rewrite Hle.
      exists DeadlineExceeded. split; [reflexivity | now left]. }
  destruct Herr as (err & Herr & Hkind).
  exists err. unfold Send, Receive. rewrite Herr. auto.
Qed.

Lemma Send_Receive_fail_fast_witness :
  (ctx_done {| ctx_done := None; ctx_Deadline := Some 5 |} <> None
   \/ exists d, ctx_Deadline {| ctx_done := None; ctx_Deadline := Some 5 |} = Some d
                /\ d <= 10)
  /\ exists err,
       Send {| ctx_done := None; ctx_Deadline := Some 5 |} 10 (GetCmd "k")
         (wrap (socket 3 [Data ("$-1" ++ CRLF)]))
       = (wrap (socket 3 [Data ("$-1" ++ CRLF)]), Some err).
Proof.
  assert (Hexp : ctx_done {| ctx_done := None; ctx_Deadline := Some 5 |} <> None
                 \/ exists d,
                      ctx_Deadline {| ctx_done := None; ctx_Deadline := Some 5 |} = Some d
                      /\ d <= 10).
  { right. exists 5. split; [reflexivity | lia]. }
  split; [exact Hexp|].
  destruct (Send_Receive_fail_fast {| ctx_done := None; ctx_Deadline := Some 5 |} 10
              (GetCmd "k") (wrap (socket 3 [Data ("$-1" ++ CRLF)])) Hexp)
    as (err & _ & _ & Hs & _).
  exists err. exact Hs.
Defined.

Section Wire.

Lemma conn_Read_outgoing (c : NetConn) (n : nat) :
  outgoing (fst (conn_Read c n)) = outgoing c.
Proof.
  unfold conn_Read. destruct (closed c); [reflexivity|].
  destruct (incoming c) as [|[bytes|e] rest]; try reflexivity.
  destruct (String.length bytes <=? n)%nat; reflexivity.
Qed.

Lemma fill_loop_outgoing (i : nat) : forall (b : Reader) (c : NetConn),
  outgoing (snd (fill_loop i b c)) = outgoing c.
Proof.
  induction i as [|i IH]; intros b c; [reflexivity|].
  cbn [fill_loop].
  pose proof (conn_Read_outgoing c (bufSize - String.length (rd_buf b))) as Ho.
  destruct (conn_Read c (bufSize - String.length (rd_buf b))) as [c' [bytes err]].
  cbn [fst] in Ho.
  destruct err; [exact Ho|].
  destruct bytes; [|exact Ho].
  rewrite IH. exact Ho.
Qed.

Lemma ReadString_loop_outgoing (fuel : nat) :
  forall (acc : string) (b : Reader) (c : NetConn),
  outgoing (snd (fst (ReadString_loop fuel acc LF b c))) = outgoing c.
Proof.
  induction fuel as [|fuel IH]; intros acc b c; cbn [ReadString_loop];
    destruct (IndexByte (rd_buf b) LF); try reflexivity;
    destruct (rd_err b); try reflexivity.
  destruct (bufSize <=? String.length (rd_buf b))%nat; [apply IH|].
  pose proof (fill_loop_outgoing maxConsecutiveEmptyReads b c) as Ho.
  unfold fill. destruct (fill_loop maxConsecutiveEmptyReads b c) as [b' c'].
  rewrite IH. exact Ho.
Qed.

Lemma Reader_Read_outgoing (n : nat) (b : Reader) (c : NetConn) :
  outgoing (snd (fst (Reader_Read n b c))) = outgoing c.
Proof.
  unfold Reader_Read.
  destruct n; [destruct (rd_buf b); reflexivity|].
  destruct (rd_buf b); [|reflexivity].
  destruct (rd_err b); [reflexivity|].
  destruct (bufSize <=? S n)%nat.
  - pose proof (conn_Read_outgoing c (S n)) as Ho.
    destruct (conn_Read c (S n)) as [c' [bytes err]]. exact Ho.
  - pose proof (conn_Read_outgoing c bufSize) as Ho.
    destruct (conn_Read c bufSize) as [c' [bytes err]].
    destruct bytes; exact Ho.
Qed.

(** Receive writes nothing. *)
Lemma Receive_outgoing (ctx : Context) (now : Z) (rc : Connection) :
  outgoing (conn (fst (Receive ctx now rc))) = outgoing (conn rc).
Proof.
  unfold Receive.
  destruct (Context_Err ctx now); [reflexivity|].
  unfold SetReadDeadline.
  destruct (closed (conn rc)) eqn:Hc; [reflexivity|].
  set (c1 := {| fd := fd (conn rc); incoming := incoming (conn rc);
                outgoing := outgoing (conn rc); closed := false;
                write_fault := write_fault (conn rc);
                read_deadline := Some (deadline_of ctx now);
                write_deadline := write_deadline (conn rc) |}).
  pose proof (ReadString_loop_outgoing (ReadString_fuel c1) "" (rd rc) c1) as Ho.
  unfold ReadString.
  destruct (ReadString_loop (ReadString_fuel c1) "" LF (rd rc) c1)
    as [[b2 c2] [line err]].
  cbn [fst snd] in Ho. change (outgoing c1) with (outgoing (conn rc)) in Ho.
  destruct err; [exact Ho|].
  destruct line as [|first rest]; [exact Ho|].
  destruct (Ascii.eqb first "-"); [exact Ho|].
  destruct (Ascii.eqb first "$"); [|destruct (Ascii.eqb first "+"); exact Ho].
  destruct (_ =? -1); [exact Ho|].
  destruct ((_ <? 0) || _); [exact Ho|].
  pose proof (Reader_Read_outgoing
                (Z.to_nat (wrap64 (fst (Atoi (TrimSuffix rest CRLF)) + 2))) b2 c2) as Ho3.
  destruct (Reader_Read _ b2 c2) as [[b3 c3] [bytes err3]].
  cbn [fst snd] in Ho3. rewrite Ho in Ho3.
  destruct err3; [exact Ho3|].
  destruct ((_ <? 0) || _); exact Ho3.
Qed.

End Wire.

(** C8 (as amended). For every non-empty credential the constructor
    sends AUTH as the bare line [AUTH <password>\r\n] (the text of
    [fmt.Sprintf("AUTH %s", password)] and the line end Send adds), not
    as a protocol array: these are the only bytes Auth writes on the
    socket the dialer returned, whatever the peer answers, and the only
    bytes written on a connection the constructor returns. *)
Theorem NewRedisConnection_sends_AUTH_inline (now : Z) (address auth : string)
    (n : nat) (evs : list ReadEvent) (rest : list (NetConn + error)) (k : nat) :
  auth <> ""%string ->
  outgoing (conn (fst (Auth (WithTimeout now (5 * Second)) now auth
                         (wrap (socket n evs)))))
  = ("AUTH " ++ auth ++ CRLF)%string
  /\ forall rc,
       snd (NewRedisConnection {| script := inl (socket n evs) :: rest; attempts := k |}
              now address auth) = Ok rc ->
       outgoing (conn rc) = ("AUTH " ++ auth ++ CRLF)%string.
Proof.
  intros Hauth.
  assert (Hctx : Context_Err (WithTimeout now (5 * Second)) now = None).
  { unfold Context_Err, WithTimeout, Second; cbn [ctx_done ctx_Deadline].
    destruct (Z.leb_spec (now + 5 * 1000000000) now); [lia | reflexivity]. }
  assert (Hidle : idle (wrap (socket n evs))) by (repeat split).
  assert (HA : outgoing (conn (fst (Auth (WithTimeout now (5 * Second)) now auth
                                      (wrap (socket n evs)))))
               = ("AUTH " ++ auth ++ CRLF)%string).
  { unfold Auth. rewrite Hctx, (Send_idle _ _ _ _ Hctx Hidle).
    match goal with
    | |- context [Receive ?c ?t ?r] =>
        pose proof (Receive_outgoing c t r) as Ho;
        destruct (Receive c t r) as [rc2 [reply|e|p]]
    end; cbn [fst] in Ho;
      [destruct (String.eqb reply "OK")| |]; cbn [fst]; rewrite Ho; reflexivity. }
  split; [exact HA|].
  intros rc. unfold NewRedisConnection, Dial. cbn [script].
  destruct (String.eqb_spec auth ""); [contradiction|].
  destruct (Auth (WithTimeout now (5 * Second)) now auth (wrap (socket n evs)))
    as [rc1 [u|e|p]]; cbn [snd]; try discriminate.
  intros [= <-]. exact HA.
Qed.

Lemma NewRedisConnection_sends_AUTH_inline_witness :
  "pw"%string <> ""%string
  /\ exists rc,
       snd (NewRedisConnection
              {| script := [inl (socket 3 [Data ("+OK" ++ CRLF)])]; attempts := 0 |}
              0 "127.0.0.1:6379" "pw") = Ok rc
       /\ outgoing (conn rc) = ("AUTH " ++ "pw" ++ CRLF)%string.
Proof.
  split; [discriminate|].
  eexists. split; [vm_compute; reflexivity|].
  apply (proj2 (NewRedisConnection_sends_AUTH_inline 0 "127.0.0.1:6379" "pw" 3
                  [Data ("+OK" ++ CRLF)] [] 0 ltac:(discriminate))).
  vm_compute; reflexivity.
Defined.

(** C8 as stated fails: with the password [pw] the bytes on the wire
    are [AUTH pw\r\n], not the array [*2\r\n$4\r\nAUTH\r\n$2\r\npw\r\n]. *)
Lemma AUTH_not_an_array_counterexample :
  exists rc,
    snd (NewRedisConnection
           {| script := [inl (socket 3 [Data ("+OK" ++ CRLF)])]; attempts := 0 |}
           0 "127.0.0.1:6379" "pw") = Ok rc
    /\ outgoing (conn rc) = ("AUTH pw" ++ CRLF)%string
    /\ outgoing (conn rc)
       <> ("*2" ++ CRLF ++ "$4" ++ CRLF ++ "AUTH" ++ CRLF
           ++ "$2" ++ CRLF ++ "pw" ++ CRLF)%string.
Proof.
  eexists. split; [vm_compute; reflexivity|].
  split; [vm_compute; reflexivity | vm_compute; discriminate].
Qed.

(** ** Claims on Get *)

Section GetReplies.

Lemma Do_pooled (ctx : Context) (now : Z) (command : string)
    (client : Client) (c : Connection) (rest : list Connection) :
  snd (Do ctx now None command (set_pool client (c :: rest)))
  = snd (round_trip ctx now command c).
Proof.
  unfold Do, GetConnection. cbn [pool set_pool].
  destruct (round_trip ctx now command c) as [c1 [reply|e|p]]; reflexivity.
Qed.

Lemma Get_Do (ctx : Context) (now : Z) (o : option error) (key : string)
    (client : Client) :
  snd (Get ctx now o key client) = snd (Do ctx now o (GetCmd key) client).
Proof.
  unfold Get. destruct (Do ctx now o (GetCmd key) client) as [cl [r|e|p]]; reflexivity.
Qed.

End GetReplies.

(** C1 (as amended). Get does not tell absence from an empty stored
    value: for every key, on an idle pooled connection, a get answered
    with Nil ([$-1\r\n]) and a get answered with the empty bulk string
    ([$0\r\n\r\n]) both return the empty string with no error. *)
Theorem Get_nil_and_empty_alike (ctx : Context) (now : Z) (key : string)
    (client : Client) (rc : Connection) (rest : list Connection)
    (more : list ReadEvent) :
  Context_Err ctx now = None -> idle rc ->
  snd (Get ctx now None key
         (set_pool client (serving rc (Data ("$-1" ++ CRLF) :: more) :: rest)))
  = Ok ""%string
  /\ snd (Get ctx now None key
            (set_pool client (serving rc (Data ("$0" ++ CRLF ++ CRLF) :: more) :: rest)))
     = Ok ""%string.
Proof.
  intros Hctx Hidle.
  pose proof Hidle as (Hc & Hf & Hr & Hw).
  split; rewrite Get_Do, Do_pooled; unfold round_trip;
    rewrite (Send_idle ctx now _ _ Hctx (idle_serving rc _ Hidle)).
  - change ("$-1" ++ CRLF)%string with ("$" ++ "-1" ++ CRLF ++ "")%string.
    match goal with
    | |- context [Receive ctx now ?r] =>
        rewrite (Receive_bulk_header ctx now r "-1" "" more Hctx Hc Hr eq_refl eq_refl)
    end; [reflexivity | vm_compute; lia].
  - change ("$0" ++ CRLF ++ CRLF)%string with ("$" ++ "0" ++ CRLF ++ CRLF)%string.
    match goal with
    | |- context [Receive ctx now ?r] =>
        rewrite (Receive_bulk_header ctx now r "0" CRLF more Hctx Hc Hr eq_refl eq_refl)
    end; [reflexivity | vm_compute; lia].
Qed.

Lemma Get_nil_and_empty_alike_witness :
  Context_Err Background 0 = None
  /\ idle (wrap (socket 3 []))
  /\ snd (Get Background 0 None "k"
            (set_pool {| pool := []; address := "127.0.0.1:6379"; poolSize := 1;
                         auth := ""; dialer := {| script := []; attempts := 1 |} |}
               [serving (wrap (socket 3 [])) [Data ("$-1" ++ CRLF)]]))
     = Ok ""%string.
Proof.
  split; [reflexivity|]. split; [repeat split|].
  apply (Get_nil_and_empty_alike Background 0 "k"); [reflexivity | repeat split].
Defined.

(** C1 as stated fails: for the key [k], the get answered with Nil and
    the get answered with the stored empty string return the same
    result. *)
Lemma Get_nil_vs_empty_counterexample :
  let client (reply : string) :=
    {| pool := [wrap (socket 3 [Data reply])]; address := "127.0.0.1:6379";
       poolSize := 1; auth := "";
       dialer := {| script := []; attempts := 1 |} |} in
  snd (Get Background 0 None "k" (client ("$-1" ++ CRLF)%string))
  = snd (Get Background 0 None "k" (client ("$0" ++ CRLF ++ CRLF)%string)).
Proof. vm_compute. reflexivity. Qed.

(** ** Claims on bulk replies *)

Section Bulk.

(** Where the code does what C2 says: header, payload and trailing CRLF
    all delivered by one read.  Receive returns the payload and the
    reader is left at the first byte after the CRLF. *)
Lemma Receive_bulk_buffered (ctx : Context) (now : Z) (rc : Connection)
    (text payload next : string) (more : list ReadEvent) :
  Context_Err ctx now = None ->
  closed (conn rc) = false -> rd rc = empty_reader ->
  incoming (conn rc) = Data ("$" ++ text ++ CRLF ++ payload ++ CRLF ++ next) :: more ->
  IndexByte text LF = None ->
  (String.length ("$" ++ text ++ CRLF ++ payload ++ CRLF ++ next) <= bufSize)%nat ->
  fst (Atoi text) = len payload ->
  Receive ctx now rc
  = ({| conn := set_incoming (set_read_deadline (conn rc) (deadline_of ctx now)) more;
        rd := {| rd_buf := next; rd_err := None |}; wr := wr rc |},
     Ok payload).
Proof.
  intros Hctx Hc Hr Hin Hl Hfit Hlen.
  rewrite (Receive_bulk_header ctx now rc text (payload ++ CRLF ++ next) more
             Hctx Hc Hr Hin Hl Hfit).
  cbv zeta. rewrite Hlen. unfold len.
  assert (Hsmall : Z.of_nat (String.length payload) <= 4096).
  { change 4096 with (Z.of_nat bufSize).
    cbn [append String.length] in Hfit. rewrite !length_app in Hfit. lia. }
  destruct (Z.eqb_spec (Z.of_nat (String.length payload)) (-1)); [lia|].
  rewrite wrap64_small by (unfold MinInt64, MaxInt64; lia).
  destruct (Z.ltb_spec (Z.of_nat (String.length payload) + 2) 0); [lia|].
  destruct (Z.ltb_spec maxAlloc (Z.of_nat (String.length payload) + 2));
    [unfold maxAlloc in *; lia|].
  cbn [orb].
  replace (Z.to_nat (Z.of_nat (String.length payload) + 2))
    with (String.length (payload ++ CRLF))
    by (rewrite length_app; change (String.length CRLF) with 2%nat; lia).
  rewrite Reader_Read_buffered.
  - cbn [rd_buf rd_err].
    rewrite <- app_assoc_s, take_app, drop_app.
    destruct (Z.ltb_spec (Z.of_nat (String.length payload)) 0); [lia|].
    destruct (Z.ltb_spec (Z.of_nat (String.length payload) + 2)
                (Z.of_nat (String.length payload))); [lia|].
    cbn [orb]. unfold copy_into.
    rewrite Nat.sub_diag,
      (take_all (String.length (payload ++ CRLF)) (payload ++ CRLF)) by lia.
    cbn [zeros].
    rewrite app_empty_r, Nat2Z.id, take_app. reflexivity.
  - rewrite length_app. change (String.length CRLF) with 2%nat. lia.
  - cbn [rd_buf]. destruct payload; discriminate.
Qed.

(** A reply longer than the reader's buffer, even when the socket has
    all of it at hand: the read for the header fills the 4096-byte buffer,
    and the one Read for the payload returns what is left in it. *)
Lemma Receive_bulk_longer_than_buffer :
  let payload := replicate 5000 "a" in
  let rc := wrap (socket 3 [Data ("$5000" ++ CRLF ++ payload ++ CRLF)]) in
  match snd (Receive Background 0 rc) with
  | Ok s => String.eqb s payload
  | _ => true
  end = false
  /\ incoming (conn (fst (Receive Background 0 rc)))
     = [Data (replicate 911 "a" ++ CRLF)].
Proof. split; vm_compute; reflexivity. Qed.

End Bulk.

(** C2, at an input where the code breaks it.  The reply [$3\r\nabc\r\n]
    arrives in two reads, [$3\r\nab] then [c\r\n], followed by the reply
    [+OK\r\n].  The one Read that Receive makes for the payload returns
    the two buffered bytes only: Receive returns [ab] and a zero byte
    instead of [abc], consumes 2 of the 5 bytes it was to consume, and
    the next Receive returns [c], the tail of the payload, instead of
    [OK]. *)
Theorem Receive_bulk_short_read :
  let rc := wrap (socket 3 [Data ("$3" ++ CRLF ++ "ab"); Data ("c" ++ CRLF);
                            Data ("+OK" ++ CRLF)]) in
  snd (Receive Background 0 rc) = Ok (String "a" (String "b" (String NUL "")))
  /\ snd (Receive Background 0 rc) <> Ok "abc"%string
  /\ rd_buf (rd (fst (Receive Background 0 rc))) = ""%string
  /\ incoming (conn (fst (Receive Background 0 rc)))
     = [Data ("c" ++ CRLF); Data ("+OK" ++ CRLF)]
  /\ snd (Receive Background 0 (fst (Receive Background 0 rc))) = Ok "c"%string.
Proof.
  repeat split; try (vm_compute; reflexivity). vm_compute. discriminate.
Qed.

(** ** Claims on the pool *)

Section Pool.

Lemma NewRedisConnection_attempts (d : Dialer) (now : Z) (address auth : string) :
  attempts (fst (NewRedisConnection d now address auth)) = S (attempts d).
Proof.
  unfold NewRedisConnection, Dial.
  destruct (script d) as [|[c|e] rest]; cbn [fst]; try reflexivity.
  destruct (String.eqb auth ""); [reflexivity|].
  destruct (Auth _ now auth (wrap c)) as [rc1 [u|e|p]]; reflexivity.
Qed.

(** The loop of the constructor, when no attempt panics: it makes [n]
    attempts and appends the connections established, in order. *)
Lemma populate_spec (n : nat) : forall (now : Z) (client : Client),
  forallb (fun r => negb (is_Panic r))
    (connection_attempts n (dialer client) now (address client) (auth client)) = true ->
  populate n now client
  = ({| pool := pool client
                ++ established (connection_attempts n (dialer client) now
                                  (address client) (auth client));
        address := address client; poolSize := poolSize client;
        auth := auth client;
        dialer := dialer (fst (populate n now client)) |}, None)
  /\ attempts (dialer (fst (populate n now client)))
     = (attempts (dialer client) + n)%nat.
Proof.
  induction n as [|n IH]; intros now client Hnp.
  - cbn. rewrite app_nil_r, Nat.add_0_r. destruct client; auto.
  - cbn [connection_attempts populate] in *.
    pose proof (NewRedisConnection_attempts (dialer client) now (address client)
                  (auth client)) as Hatt.
    destruct (NewRedisConnection (dialer client) now (address client) (auth client))
      as [d1 [c|e|p]]; cbn [fst] in Hatt; cbn [forallb is_Panic negb andb] in Hnp.
    + destruct (IH now (set_pool (set_dialer client d1) (pool client ++ [c])) Hnp)
        as [Hp Ha].
      rewrite Hp at 1. cbn [established pool set_pool set_dialer address poolSize
                              auth dialer] in *.
      rewrite <- app_assoc. cbn [app fst].
      split; [reflexivity | rewrite Ha, Hatt; lia].
    + destruct (IH now (set_dialer client d1) Hnp) as [Hp Ha].
      rewrite Hp at 1. cbn [established pool set_pool set_dialer address poolSize
                              auth dialer fst] in *.
      split; [reflexivity | rewrite Ha, Hatt; lia].
    + discriminate.
Qed.

Lemma established_length (rs : list (result Connection)) :
  (List.length (established rs) <= List.length rs)%nat.
Proof.
  induction rs as [|[c|e|p] t IH]; cbn [established List.length]; lia.
Qed.

Lemma established_nil (rs : list (result Connection)) :
  forallb (fun r => negb (is_Panic r)) rs = true ->
  (established rs = [] <-> forallb is_Err rs = true).
Proof.
  induction rs as [|[c|e|p] t IH]; cbn; intros Hnp; try discriminate.
  - tauto.
  - split; discriminate.
  - exact (IH Hnp).
Qed.

Lemma connection_attempts_length (n : nat) : forall d now addr pw,
  List.length (connection_attempts n d now addr pw) = n.
Proof.
  induction n as [|n IH]; intros d now addr pw; cbn [connection_attempts];
    [reflexivity|].
  destruct (NewRedisConnection d now addr pw) as [d1 r].
  cbn [List.length]. now rewrite IH.
Qed.

Lemma populate_bound (n : nat) : forall (now : Z) (client : Client),
  (List.length (pool (fst (populate n now client)))
   <= List.length (pool client) + n)%nat
  /\ poolSize (fst (populate n now client)) = poolSize client.
Proof.
  induction n as [|n IH]; intros now client; cbn [populate].
  - cbn [fst]. lia.
  - destruct (NewRedisConnection (dialer client) now (address client) (auth client))
      as [d1 [c|e|p]].
    + destruct (IH now (set_pool (set_dialer client d1) (pool client ++ [c])))
        as [Hl Hp].
      cbn [pool set_pool] in Hl. rewrite List.length_app in Hl. cbn [List.length] in Hl.
      split; [lia | exact Hp].
    + destruct (IH now (set_dialer client d1)) as [Hl Hp].
      cbn [pool set_dialer] in Hl. split; [lia | exact Hp].
    + cbn [fst set_dialer pool poolSize]. lia.
Qed.

Lemma NewRedisClient_inv (d : Dialer) (now : Z) (addr : string) (size : Z)
    (pw : string) (client : Client) :
  snd (NewRedisClient d now addr size pw) = Ok client ->
  1 <= Z.of_nat (List.length (pool client)) <= poolSize client
  /\ poolSize client = size.
Proof.
  unfold NewRedisClient.
  destruct (Z.ltb_spec size 0) as [Hneg|Hpos]; [discriminate|].
  set (client0 := {| pool := []; address := addr; poolSize := size;
                     auth := pw; dialer := d |}).
  destruct (populate_bound (Z.to_nat size) now client0) as [Hl Hp].
  destruct (populate (Z.to_nat size) now client0) as [client' [p|]];
    [discriminate|].
  cbn [fst] in Hl, Hp.
  destruct (Z.eqb_spec (Z.of_nat (List.length (pool client'))) 0);
    [discriminate|].
  intros [= <-]. cbn [pool client0 List.length poolSize] in *.
  rewrite Hp. lia.
Qed.

Lemma pool_step_inv (client : Client) (op : pool_op) :
  Z.of_nat (List.length (pool client)) <= poolSize client ->
  Z.of_nat (List.length (pool (pool_step client op))) <= poolSize (pool_step client op)
  /\ poolSize (pool_step client op) = poolSize client.
Proof.
  intros Hinv. destruct op as [now|c]; cbn [pool_step].
  - unfold GetConnection. destruct (pool client) as [|c rest] eqn:Hp.
    + destruct (NewRedisConnection (dialer client) now (address client) (auth client))
        as [d1 r].
      cbn [fst set_dialer pool poolSize]. rewrite Hp. cbn [List.length] in *. lia.
    + cbn [fst set_pool pool poolSize List.length] in *. lia.
  - unfold ReleaseConnection.
    destruct (Z.leb_spec (poolSize client) (Z.of_nat (List.length (pool client)))).
    + cbn [fst]. lia.
    + cbn [fst set_pool pool poolSize]. rewrite List.length_app. cbn [List.length]. lia.
Qed.

Lemma run_ops_inv (ops : list pool_op) : forall client : Client,
  Z.of_nat (List.length (pool client)) <= poolSize client ->
  Z.of_nat (List.length (pool (run_ops client ops))) <= poolSize (run_ops client ops)
  /\ poolSize (run_ops client ops) = poolSize client.
Proof.
  induction ops as [|op ops IH]; intros client Hinv; cbn [run_ops fold_left].
  - lia.
  - destruct (pool_step_inv client op Hinv) as [H1 H2].
    destruct (IH (pool_step client op) H1) as [H3 H4].
    unfold run_ops in *. rewrite H4, H2 in *. lia.
Qed.

End Pool.

(** C4. From the client the constructor returns, after any sequence of
    acquires and releases the idle connections held are never more than
    the capacity; a release on a full pool closes the connection and
    leaves the pool as it was; a release on a pool with room appends the
    connection to the idle connections, open as it came. *)
Theorem pool_never_exceeds_capacity (d : Dialer) (now : Z) (addr : string)
    (size : Z) (pw : string) (client : Client) :
  snd (NewRedisClient d now addr size pw) = Ok client ->
  forall (ops : list pool_op) (c : Connection),
    let client' := run_ops client ops in
    Z.of_nat (List.length (pool client')) <= size
    /\ poolSize client' = size
    /\ (size <= Z.of_nat (List.length (pool client')) ->
        ReleaseConnection client' c = (client', fst (Close c))
        /\ closed (conn (fst (Close c))) = true
        /\ pool (fst (ReleaseConnection client' c)) = pool client')
    /\ (Z.of_nat (List.length (pool client')) < size ->
        ReleaseConnection client' c = (set_pool client' (pool client' ++ [c]), c)
        /\ pool (fst (ReleaseConnection client' c)) = pool client' ++ [c]).
Proof.
  intros Hnew ops c client'.
  destruct (NewRedisClient_inv d now addr size pw client Hnew) as [Hlen Hsize].
  destruct (run_ops_inv ops client (proj2 Hlen)) as [Hinv Hp].
  fold client' in Hinv, Hp. rewrite Hsize in Hp. rewrite Hp in Hinv.
  split; [exact Hinv|]. split; [exact Hp|].
  unfold ReleaseConnection. rewrite Hp. split; intros Hfull.
  - apply Z.leb_le in Hfull. rewrite Hfull. cbn [fst].
    repeat split. unfold Close, conn_Close.
    destruct (closed (conn c)) eqn:Hc; cbn [fst conn closed]; [exact Hc | reflexivity].
  - apply Z.leb_gt in Hfull. rewrite Hfull. split; reflexivity.
Qed.

Lemma pool_never_exceeds_capacity_witness :
  let d := {| script := [inl (socket 3 []); inl (socket 4 [])]; attempts := 0 |} in
  exists client,
    snd (NewRedisClient d 0 "127.0.0.1:6379" 2 "") = Ok client
    /\ Z.of_nat (List.length
                   (pool (run_ops client
                            [Acquire 1; Release (wrap (socket 3 []));
                             Release (wrap (socket 5 []));
                             Release (wrap (socket 6 []))]))) <= 2.
Proof.
  intros d. eexists. split; [vm_compute; reflexivity|].
  apply (pool_never_exceeds_capacity d 0 "127.0.0.1:6379" 2 "" _ eq_refl
           [Acquire 1; Release (wrap (socket 3 [])); Release (wrap (socket 5 []));
            Release (wrap (socket 6 []))]
           (wrap (socket 7 []))).
Defined.

(** C7. With a capacity of at least zero, and no connection attempt
    ending in a panic, the constructor makes exactly [poolSize] dials;
    it returns an error exactly when every attempt failed; and when at
    least one succeeded it returns a client, with no error, whose pool
    holds the connections established, in order: at least one and at
    most [poolSize]. *)
Theorem NewRedisClient_dials_poolSize (d : Dialer) (now : Z) (addr : string)
    (size : Z) (pw : string) :
  0 <= size ->
  let outcomes := connection_attempts (Z.to_nat size) d now addr pw in
  forallb (fun r => negb (is_Panic r)) outcomes = true ->
  let R := NewRedisClient d now addr size pw in
  attempts (fst R) = (attempts d + Z.to_nat size)%nat
  /\ (is_Err (snd R) = true <-> forallb is_Err outcomes = true)
  /\ (forallb is_Err outcomes = true ->
      snd R = Err (ErrorsNew "can't create redis connection"))
  /\ (forallb is_Err outcomes = false ->
      exists client,
        snd R = Ok client
        /\ pool client = established outcomes
        /\ poolSize client = size
        /\ (1 <= List.length (pool client) <= Z.to_nat size)%nat).
Proof.
  intros Hsize outcomes Hnp R. subst R. unfold NewRedisClient.
  destruct (Z.ltb_spec size 0) as [Hneg|_]; [lia|].
  set (client0 := {| pool := []; address := addr; poolSize := size;
                     auth := pw; dialer := d |}).
  destruct (populate_spec (Z.to_nat size) now client0 Hnp) as [Hpop Hatt].
  change (address client0) with addr in Hpop.
  change (auth client0) with pw in Hpop.
  change (poolSize client0) with size in Hpop.
  change (pool client0) with (@nil Connection) in Hpop.
  change (dialer client0) with d in Hpop, Hatt.
  fold outcomes in Hpop. cbn [app] in Hpop.
  rewrite Hpop. cbn [pool dialer].
  pose proof (established_nil outcomes Hnp) as Hnil.
  pose proof (established_length outcomes) as Hlen.
  unfold outcomes in Hlen at 2. rewrite connection_attempts_length in Hlen.
  destruct (established outcomes) as [|c0 cs] eqn:Hest.
  - cbn [List.length Z.of_nat Z.eqb fst snd is_Err].
    split; [exact Hatt|]. split; [tauto|]. split; [reflexivity|].
    intros Hall. destruct Hnil as [Hnil _]. rewrite (Hnil eq_refl) in Hall.
    discriminate.
  - change (Z.of_nat (List.length (c0 :: cs)) =? 0) with false.
    cbn [fst snd is_Err]. split; [exact Hatt|].
    split.
    { split; [discriminate|]. intros Hall. apply Hnil in Hall. discriminate. }
    split.
    { intros Hall. apply Hnil in Hall. discriminate. }
    intros _. eexists. split; [reflexivity|].
    cbn [pool poolSize List.length] in *. repeat split; lia.
Qed.

Lemma NewRedisClient_dials_poolSize_witness :
  let d := {| script := [inr ErrTimeout; inl (socket 3 []); inr ErrTimeout];
              attempts := 0 |} in
  0 <= 3
  /\ forallb (fun r => negb (is_Panic r))
       (connection_attempts (Z.to_nat 3) d 0 "127.0.0.1:6379" "") = true
  /\ attempts (fst (NewRedisClient d 0 "127.0.0.1:6379" 3 "")) = 3%nat
  /\ is_Ok (snd (NewRedisClient d 0 "127.0.0.1:6379" 3 "")) = true.
Proof.
  intros d.
  split; [lia|]. split; [vm_compute; reflexivity|].
  split; [|vm_compute; reflexivity].
  apply (NewRedisClient_dials_poolSize d 0 "127.0.0.1:6379" 3 "");
    [lia | vm_compute; reflexivity].
Defined.

(** ** Claims on the middleware *)

Section Middleware.
Context {S : Type} `{IClient S} `{Gob}.

Lemma written_app (a b : list RWCall) :
  written (a ++ b) = (written a ++ written b)%string.
Proof.
  induction a as [|[code|x] a IH]; cbn [written app]; [reflexivity | exact IH |].
  rewrite IH, app_assoc_s. reflexivity.
Qed.

(** The recorder during the downstream handler: every call goes through
    to the writer under it, and the body and the status are kept. *)
Lemma recorder_run (calls : list HandlerCall) : forall r : responseRecorder,
  let r' := fold_left handler_step calls r in
  rw_calls (rw r') = rw_calls (rw r) ++ passed_through calls
  /\ body r' = (body r ++ handler_body calls)%string
  /\ status r' = handler_status calls (status r).
Proof.
  induction calls as [|call calls IH]; intros r; cbn [fold_left].
  - cbn. rewrite app_nil_r, app_empty_r. auto.
  - destruct (IH (handler_step r call)) as (Hc & Hb & Hs).
    cbv zeta in *. rewrite Hc, Hb, Hs.
    destruct call as [f|code|b];
      cbn [handler_step passed_through handler_body handler_status
           w_setHeader w_WriteHeader w_Write w_Header
           responseRecorder_impl ResponseWriter_impl
           responseRecorder_Write responseRecorder_WriteHeader
           rw status body rw_calls].
    + auto.
    + rewrite <- app_assoc. auto.
    + rewrite <- app_assoc, app_assoc_s. auto.
Qed.

(** The miss path, when the caching attempt does not panic: the writer
    has received the handler's calls, then the status and the whole
    body once more. *)
Lemma serveMiss_writes (c : Cache S) (rw0 : ResponseWriter) (req : Request) :
  snd (serveMiss c rw0 req) = None ->
  rw_calls (snd (fst (serveMiss c rw0 req)))
  = rw_calls rw0 ++ passed_through (next c req)
    ++ [CallWriteHeader (handler_status (next c req) 0);
        CallWrite (handler_body (next c req))].
Proof.
  unfold serveMiss, Handler_ServeHTTP.
  destruct (recorder_run (next c req)
              {| rw := rw0; status := 0; body := EmptyString |}) as (Hc & Hb & Hs).
  cbv zeta in Hc, Hb, Hs. cbn [rw status body append] in Hc, Hb, Hs.
  destruct (gob_Encode _) as [buffer encErr].
  destruct (client_SetWithTTL _ _ _ _ _) as [s1 [u|e|p]]; cbn [snd fst];
    try discriminate; intros _;
    cbn [w_WriteHeader w_Write ResponseWriter_impl rw_calls];
    rewrite Hc, Hb, Hs, <- !app_assoc; reflexivity.
Qed.

End Middleware.

(** C10. On every cache miss that ServeHTTP gets through without a
    panic of the client, the writer is given the downstream response
    twice: first every Write and WriteHeader of the downstream handler,
    passed through by the recorder as they are made, and then, after
    the caching attempt, WriteHeader(recorder.status) and one Write of
    the whole recorded body.  The body bytes written are the body
    twice. *)
Theorem ServeHTTP_miss_writes_twice {S : Type} `{IClient S} `{Gob}
    (c : Cache S) (rw0 : ResponseWriter) (req : Request) :
  cache_miss c req = true ->
  snd (ServeHTTP c rw0 req) = None ->
  rw_calls (snd (fst (ServeHTTP c rw0 req)))
  = rw_calls rw0 ++ passed_through (next c req)
    ++ [CallWriteHeader (handler_status (next c req) 0);
        CallWrite (handler_body (next c req))]
  /\ written (rw_calls (snd (fst (ServeHTTP c rw0 req))))
     = (written (rw_calls rw0)
        ++ handler_body (next c req) ++ handler_body (next c req))%string.
Proof.
  intros Hmiss Hnp.
  assert (Hcalls : rw_calls (snd (fst (ServeHTTP c rw0 req)))
                   = rw_calls rw0 ++ passed_through (next c req)
                     ++ [CallWriteHeader (handler_status (next c req) 0);
                         CallWrite (handler_body (next c req))]).
  { revert Hmiss Hnp. unfold cache_miss, ServeHTTP.
    destruct (client_Get _ _ _) as [s1 [cachedData|e|p]]; try discriminate.
    - destruct (String.eqb cachedData "") eqn:He; cbn [negb orb].
      + intros _. apply (serveMiss_writes (set_resp c s1)).
      + destruct (gob_Decode cachedData) as [cr|e]; [discriminate|].
        intros _.
        destruct (client_Delete _ _ _) as [s2 [u|e'|p]];
          try apply (serveMiss_writes (set_resp c s2)).
        discriminate.
    - intros _. apply (serveMiss_writes (set_resp c s1)). }
  split; [exact Hcalls|].
  rewrite Hcalls, !written_app. cbn [written].
  rewrite app_empty_r. f_equal. f_equal.
  clear. induction (next c req) as [|[f|code|b] t IH];
    cbn [passed_through written handler_body]; try assumption; try reflexivity.
  now rewrite IH.
Qed.

Lemma ServeHTTP_miss_writes_twice_witness :
  let c := {| next := fun _ => [HWriteHeader 200; HWrite "hello"];
              name := "cache"; resp := @nil (string * string);
              redisAuth := ""; redisAddress := "127.0.0.1:6379";
              redisPoolSize := 10; cacheExpiry := 15 |} in
  let rw0 := {| rw_header := []; rw_calls := [] |} in
  let req := {| URL_Path := "/a"; req_Context := Background |} in
  cache_miss (H0 := body_codec) c req = true
  /\ snd (ServeHTTP (H0 := body_codec) c rw0 req) = None
  /\ rw_calls (snd (fst (ServeHTTP (H0 := body_codec) c rw0 req)))
     = [CallWriteHeader 200; CallWrite "hello"; CallWriteHeader 200; CallWrite "hello"].
Proof.
  intros c rw0 req.
  split; [reflexivity|]. split; [reflexivity|].
  apply (ServeHTTP_miss_writes_twice (H0 := body_codec) c rw0 req); reflexivity.
Defined.



(** * Further properties of the code *)

(** ** Itoa and Atoi *)

Section Numerals.

Lemma digits_of_uint (d : Decimal.uint) : forall acc : Z,
  digits_value acc (NilEmpty.string_of_uint d) = Some (uint_value acc d).
Proof.
  induction d; intros acc; cbn [NilEmpty.string_of_uint digits_value uint_value];
    try reflexivity;
    match goal with
    | |- context [is_digit ?c] => change (is_digit c) with true
    end; cbv iota; rewrite IHd; reflexivity.
Qed.

Lemma uint_value_acc (d : Decimal.uint) : forall p : positive,
  Z.pos (Pos.of_uint_acc d p) = uint_value (Z.pos p) d.
Proof.
  induction d; intros p; cbn [Pos.of_uint_acc uint_value];
    try reflexivity; rewrite IHd; f_equal; lia.
Qed.

Lemma uint_value_of_uint (d : Decimal.uint) :
  Z.of_N (Pos.of_uint d) = uint_value 0 d.
Proof.
  induction d; cbn [Pos.of_uint uint_value Z.of_N]; try reflexivity;
    try (rewrite uint_value_acc; reflexivity).
  exact IHd.
Qed.

Lemma LF_free_digits (s : string) : forall acc v,
  digits_value acc s = Some v -> IndexByte s LF = None.
Proof.
  induction s as [|c t IH]; intros acc v; cbn [digits_value IndexByte];
    [reflexivity|].
  destruct (is_digit c) eqn:Hd; [|discriminate].
  intros Hv. rewrite (IH _ _ Hv).
  destruct (Ascii.eqb_spec c LF) as [->|]; [discriminate Hd | reflexivity].
Qed.

Lemma string_of_uint_head (d : Decimal.uint) :
  d <> Decimal.Nil ->
  exists c t, NilEmpty.string_of_uint d = String c t
              /\ Ascii.eqb c "-" = false /\ Ascii.eqb c "+" = false.
Proof.
  destruct d; intros Hd; [contradiction|..];
    cbn [NilEmpty.string_of_uint]; eexists; eexists; repeat split.
Qed.

(** Atoi on digits without a sign, and on digits after a minus sign,
    when the number is within the range of [int]: both of its paths give
    the number. *)
Lemma Atoi_unsigned (c : ascii) (t : string) (v : Z) :
  Ascii.eqb c "-" = false -> Ascii.eqb c "+" = false ->
  digits_value 0 (String c t) = Some v -> v <= MaxInt64 ->
  Atoi (String c t) = (v, None).
Proof.
  intros Hm Hp Hdig Hmax.
  pose proof (digits_value_bound _ 0 v ltac:(reflexivity) Hdig) as [Hge _].
  unfold Atoi. cbv zeta.
  destruct ((0 <? String.length (String c t))%nat
            && (String.length (String c t) <? 19)%nat).
  - rewrite Hm, Hp. cbn [orb andb]. rewrite Hdig. reflexivity.
  - unfold ParseInt. rewrite Hm, Hp. unfold ParseUint.
    rewrite (ParseUint_loop_digits (String c t) 0 v);
      [|lia | exact Hdig | unfold MaxInt64, maxUint64 in *; lia].
    cbv zeta. cbn [negb andb].
    unfold MaxInt64 in Hmax.
    destruct (Z.leb_spec 9223372036854775808 v); [lia|].
    rewrite wrap64_small by (unfold MinInt64, MaxInt64; lia). reflexivity.
Qed.

Lemma Atoi_negative (c : ascii) (t : string) (v : Z) :
  digits_value 0 (String c t) = Some v -> v <= - MinInt64 ->
  Atoi (String "-" (String c t)) = (- v, None).
Proof.
  intros Hdig Hmax.
  pose proof (digits_value_bound _ 0 v ltac:(reflexivity) Hdig) as [Hge _].
  unfold Atoi. cbv zeta.
  destruct ((0 <? String.length (String "-" (String c t)))%nat
            && (String.length (String "-" (String c t)) <? 19)%nat).
  - change (Ascii.eqb "-" "-") with true. cbn [orb andb String.length Nat.ltb Nat.leb].
    rewrite Hdig. reflexivity.
  - unfold ParseInt.
    change (Ascii.eqb "-" "+") with false. change (Ascii.eqb "-" "-") with true.
    cbv iota. unfold ParseUint.
    rewrite (ParseUint_loop_digits (String c t) 0 v);
      [|lia | exact Hdig | unfold MinInt64, maxUint64 in *; lia].
    cbv zeta. cbn [negb andb].
    unfold MinInt64 in Hmax.
    destruct (Z.ltb_spec 9223372036854775808 v); [lia|].
    f_equal.
    destruct (Z.eq_dec v 9223372036854775808) as [->|Hne]; [reflexivity|].
    rewrite (wrap64_small v) by (unfold MinInt64, MaxInt64; lia).
    apply wrap64_small. unfold MinInt64, MaxInt64. lia.
Qed.

(** The text Itoa gives for a 64-bit integer is read back by Atoi as
    that integer, with no error. *)
Lemma Atoi_Itoa (z : Z) :
  MinInt64 <= z <= MaxInt64 -> Atoi (Itoa z) = (z, None).
Proof.
  intros Hz. unfold Itoa.
  pose proof (DecimalZ.of_to z) as Hback.
  destruct z as [|p|p]; cbn [Z.to_int] in *.
  - reflexivity.
  - cbn [Z.of_int] in Hback. unfold Z.of_uint in Hback.
    rewrite uint_value_of_uint in Hback.
    cbn [NilZero.string_of_int]. unfold NilZero.string_of_uint.
    pose proof (DecimalPos.Unsigned.to_uint_nonnil p) as Hnn.
    destruct (string_of_uint_head (Pos.to_uint p) Hnn) as (c & t & Hs & Hm & Hp).
    pose proof (digits_of_uint (Pos.to_uint p) 0) as Hdig.
    destruct (Pos.to_uint p) eqn:Hu; [contradiction|..];
      rewrite Hs in *; rewrite Hback in Hdig;
      apply (Atoi_unsigned c t (Z.pos p) Hm Hp Hdig); lia.
  - cbn [Z.of_int] in Hback. unfold Z.of_uint in Hback.
    rewrite uint_value_of_uint in Hback.
    cbn [NilZero.string_of_int]. unfold NilZero.string_of_uint.
    pose proof (DecimalPos.Unsigned.to_uint_nonnil p) as Hnn.
    destruct (string_of_uint_head (Pos.to_uint p) Hnn) as (c & t & Hs & Hm & Hp).
    pose proof (digits_of_uint (Pos.to_uint p) 0) as Hdig.
    destruct (Pos.to_uint p) eqn:Hu; [contradiction|..];
      rewrite Hs in *;
      replace (uint_value 0 _) with (Z.pos p) in Hdig by lia;
      change (Z.neg p) with (- Z.pos p);
      apply (Atoi_negative c t (Z.pos p) Hdig); unfold MinInt64 in *; lia.
Qed.

Lemma Itoa_LF_free (z : Z) : 0 <= z -> IndexByte (Itoa z) LF = None.
Proof.
  intros Hz. unfold Itoa. destruct z as [|p|p]; [reflexivity| |lia].
  cbn [Z.to_int NilZero.string_of_int]. unfold NilZero.string_of_uint.
  pose proof (digits_of_uint (Pos.to_uint p) 0) as Hdig.
  destruct (Pos.to_uint p) eqn:Hu;
    [reflexivity | exact (LF_free_digits _ _ _ Hdig)..].
Qed.

End Numerals.

(** ** More on Send and Receive *)

Section MoreExchange.

Lemma IndexByte_app_none (a b : string) (c : ascii) :
  IndexByte (a ++ b) c = None -> IndexByte a c = None /\ IndexByte b c = None.
Proof.
  induction a as [|x a IH]; cbn [append IndexByte]; [auto|].
  destruct (Ascii.eqb x c); [discriminate|].
  destruct (IndexByte (a ++ b) c) eqn:Hab; [discriminate|].
  intros _. destruct (IH eq_refl) as [Ha Hb]. now rewrite Ha.
Qed.

Lemma IndexByte_none_app (a b : string) (c : ascii) :
  IndexByte a c = None -> IndexByte b c = None -> IndexByte (a ++ b) c = None.
Proof.
  induction a as [|x a IH]; cbn [append IndexByte]; [auto|].
  destruct (Ascii.eqb x c); [discriminate|].
  destruct (IndexByte a c); [discriminate|].
  intros _ Hb. now rewrite (IH eq_refl Hb).
Qed.

(** Receive, once ReadString has returned a line that is not a bulk
    header. *)
Lemma Receive_after_line (ctx : Context) (now : Z) (rc : Connection)
    (b2 : Reader) (c2 : NetConn) (first : ascii) (text : string) :
  Context_Err ctx now = None ->
  closed (conn rc) = false ->
  ReadString LF (rd rc) (set_read_deadline (conn rc) (deadline_of ctx now))
  = (b2, c2, ((String first text ++ CRLF)%string, None)) ->
  Ascii.eqb first "$" = false ->
  Receive ctx now rc
  = ({| conn := c2; rd := b2; wr := wr rc |}, line_reply first text).
Proof.
  intros Hctx Hc Hread Hbulk.
  unfold Receive. rewrite Hctx, (SetReadDeadline_open _ _ Hc), Hread.
  cbn [append]. cbv iota beta. rewrite Hbulk.
  change (String first (text ++ CRLF)) with (String first text ++ CRLF)%string.
  rewrite !TrimSuffix_app. unfold line_reply.
  destruct (Ascii.eqb first "-"); [reflexivity|].
  destruct (Ascii.eqb first "+"); reflexivity.
Qed.

(** A line delivered by two reads of the socket. *)
Lemma ReadString_two_reads (c : NetConn) (a b rest : string)
    (more : list ReadEvent) :
  closed c = false ->
  incoming c = Data a :: Data (b ++ String LF rest) :: more ->
  a <> EmptyString ->
  IndexByte a LF = None -> IndexByte b LF = None ->
  (String.length (a ++ b ++ String LF rest) <= bufSize)%nat ->
  ReadString LF empty_reader c
  = ({| rd_buf := rest; rd_err := None |}, set_incoming c more,
     ((a ++ b ++ String LF EmptyString)%string, None)).
Proof.
  intros Hc Hin Hne Ha Hb Hfit.
  rewrite !length_app in Hfit. cbn [String.length] in Hfit.
  unfold ReadString, ReadString_fuel. rewrite Hin. cbn [script_weight].
  replace (3 * (S (String.length a)
                + (S (String.length (b ++ String LF rest)) + script_weight more)) + 4)%nat
    with (S (S (3 * (String.length a + String.length (b ++ String LF rest)
                     + script_weight more) + 8))) by lia.
  cbv beta iota delta [ReadString_loop]; fold ReadString_loop.
  change (IndexByte (rd_buf empty_reader) LF) with (@None nat).
  change (rd_err empty_reader) with (@None error).
  change (bufSize <=? String.length (rd_buf empty_reader))%nat with false.
  cbv iota.
  rewrite (fill_data empty_reader c a (Data (b ++ String LF rest) :: more) Hc Hin Hne)
    by (cbn [rd_buf empty_reader String.length]; lia).
  cbn [rd_buf rd_err empty_reader append].
  rewrite Ha.
  destruct (Nat.leb_spec bufSize (String.length a)) as [Hfull|_]; [lia|].
  rewrite (fill_data {| rd_buf := a; rd_err := None |}
             (set_incoming c (Data (b ++ String LF rest) :: more))
             (b ++ String LF rest) more Hc eq_refl).
  - cbn [rd_buf rd_err].
    match goal with
    | |- ReadString_loop ?f _ _ _ _ = _ => destruct f
    end;
      cbv beta iota delta [ReadString_loop]; fold ReadString_loop;
      cbn [rd_buf rd_err];
      rewrite <- app_assoc_s,
        (IndexByte_app (a ++ b) rest LF (IndexByte_none_app _ _ _ Ha Hb));
      replace (S (String.length (a ++ b)))
        with (String.length ((a ++ b) ++ String LF EmptyString))
        by (rewrite !length_app; simpl; lia);
      replace ((a ++ b) ++ String LF rest)%string
        with (((a ++ b) ++ String LF EmptyString) ++ rest)%string
        by (rewrite !app_assoc_s; reflexivity);
      rewrite take_app, drop_app, !app_assoc_s; reflexivity.
  - destruct b; discriminate.
  - cbn [rd_buf]. rewrite length_app. cbn [String.length]. lia.
Qed.

(** A failed write sticks to the writer. *)
Lemma WriteString_fault (e : error) (s : string) : forall (w : Writer) (c : NetConn),
  wr_err w = None -> closed c = false -> write_fault c = Some e ->
  exists w',
    (WriteString s w c = (w', c, None) /\ wr_err w' = None
     /\ (s <> EmptyString \/ wr_buf w <> EmptyString -> wr_buf w' <> EmptyString))
    \/ (WriteString s w c = (w', c, Some e) /\ wr_err w' = Some e).
Proof.
  induction s as [|a t IH]; intros w c Hw Hc Hf.
  - exists w. left. cbn [WriteString]. rewrite Hw.
    split; [reflexivity|]. split; [auto|].
    intros [H|H]; [contradiction | exact H].
  - rewrite WriteString_cons, Hw.
    destruct (Nat.leb_spec bufSize (String.length (wr_buf w))) as [Hfull|Hroom].
    + unfold Flush, conn_Write. rewrite Hw, Hc, Hf.
      destruct (wr_buf w) eqn:Hb.
      * pose proof bufSize_pos. cbn [String.length] in Hfull. lia.
      * eexists. right. split; reflexivity.
    + destruct (IH {| wr_buf := (wr_buf w ++ String a ""); wr_err := None |} c
                  eq_refl Hc Hf) as (w' & [(HW & He & Hb) | (HW & He)]).
      * exists w'. left. rewrite HW. split; [reflexivity|]. split; [assumption|].
        intros _. apply Hb. right. cbn [wr_buf].
        destruct (wr_buf w); discriminate.
      * exists w'. right. rewrite HW. split; [reflexivity | assumption].
Qed.

End MoreExchange.

(** X1. On an idle connection, with a live context, Send puts exactly
    the command and one CRLF on the wire, leaves nothing in the writer
    and sets the write deadline to the context's deadline, or to five
    seconds from now when the context has none; the bytes to read are
    not touched. *)
Theorem Send_puts_command_line_on_wire (ctx : Context) (now : Z)
    (command : string) (rc : Connection) :
  Context_Err ctx now = None -> idle rc ->
  let rc1 := fst (Send ctx now command rc) in
  snd (Send ctx now command rc) = None
  /\ outgoing (conn rc1) = (outgoing (conn rc) ++ command ++ CRLF)%string
  /\ wr rc1 = empty_writer
  /\ write_deadline (conn rc1)
     = Some (match ctx_Deadline ctx with Some d => d | None => now + 5 * Second end)
  /\ incoming (conn rc1) = incoming (conn rc) /\ rd rc1 = rd rc
  /\ idle rc1.
Proof.
  intros Hctx Hidle rc1. subst rc1.
  rewrite (Send_idle ctx now command rc Hctx Hidle).
  destruct Hidle as (Hc & Hf & Hr & Hw).
  cbn [fst snd conn outgoing wr rd incoming write_deadline set_outgoing
       set_write_deadline].
  repeat split; assumption.
Qed.

Lemma Send_puts_command_line_on_wire_witness :
  Context_Err Background 7 = None
  /\ idle (wrap (socket 3 []))
  /\ outgoing (conn (fst (Send Background 7 "PING" (wrap (socket 3 [])))))
     = ("PING" ++ CRLF)%string
  /\ write_deadline (conn (fst (Send Background 7 "PING" (wrap (socket 3 [])))))
     = Some 5000000007.
Proof.
  split; [reflexivity|]. split; [repeat split|].
  destruct (Send_puts_command_line_on_wire Background 7 "PING" (wrap (socket 3 []))
              eq_refl) as (_ & Ho & _ & Hd & _); [repeat split|].
  split; [exact Ho | exact Hd].
Defined.

(** A refused write, and the Sends that follow it. *)
Lemma Send_fault (ctx : Context) (now : Z) (command : string)
    (rc : Connection) (e : error) :
  Context_Err ctx now = None ->
  closed (conn rc) = false -> write_fault (conn rc) = Some e ->
  wr rc = empty_writer ->
  let rc1 := fst (Send ctx now command rc) in
  snd (Send ctx now command rc) = Some e
  /\ outgoing (conn rc1) = outgoing (conn rc)
  /\ forall (ctx' : Context) (now' : Z) (command' : string) (c' : NetConn),
       Context_Err ctx' now' = None -> closed c' = false ->
       let rc2 := {| conn := c'; rd := rd rc1; wr := wr rc1 |} in
       snd (Send ctx' now' command' rc2) = Some e
       /\ outgoing (conn (fst (Send ctx' now' command' rc2))) = outgoing c'.
Proof.
  intros Hctx Hc Hf Hw rc1.
  assert (Hsend : snd (Send ctx now command rc) = Some e
                  /\ outgoing (conn rc1) = outgoing (conn rc)
                  /\ wr_err (wr rc1) = Some e).
  { subst rc1. unfold Send. rewrite Hctx, (SetWriteDeadline_open _ _ Hc), Hw.
    destruct (WriteString_fault e (command ++ CRLF) empty_writer
                (set_write_deadline (conn rc) (deadline_of ctx now))
                eq_refl Hc Hf) as (w' & [(HW & He & Hb) | (HW & He)]); rewrite HW.
    - unfold Flush, conn_Write. rewrite He.
      destruct (wr_buf w') eqn:Hbuf.
      + exfalso. apply Hb; [|reflexivity].
        left. destruct command; discriminate.
      + cbn [closed write_fault set_write_deadline]. rewrite Hc, Hf.
        cbn [fst snd conn outgoing wr wr_err set_write_deadline]. auto.
    - cbn [fst snd conn outgoing wr set_write_deadline]. auto. }
  destruct Hsend as (Hs & Ho & Hstick).
  split; [exact Hs|]. split; [exact Ho|].
  intros ctx' now' command' c' Hctx' Hc' rc2. subst rc2.
  unfold Send. rewrite Hctx'. cbn [conn wr].
  rewrite (SetWriteDeadline_open _ _ Hc').
  destruct (command' ++ CRLF)%string eqn:Hcmd;
    cbn [WriteString]; rewrite Hstick; cbn [fst snd conn outgoing set_write_deadline];
    auto.
Qed.

(** X2. A write failure is for good. When the socket refuses a write,
    Send returns the socket's error and nothing reaches the wire; from
    then on every Send on that connection returns the same error
    without writing, even after the socket has recovered. *)
Theorem Send_failure_sticks (ctx : Context) (now : Z) (command : string)
    (rc : Connection) (e : error) :
  Context_Err ctx now = None ->
  closed (conn rc) = false -> write_fault (conn rc) = Some e ->
  wr rc = empty_writer ->
  let rc1 := fst (Send ctx now command rc) in
  snd (Send ctx now command rc) = Some e
  /\ outgoing (conn rc1) = outgoing (conn rc)
  /\ forall (ctx' : Context) (now' : Z) (command' : string) (c' : NetConn),
       Context_Err ctx' now' = None -> closed c' = false ->
       let rc2 := {| conn := c'; rd := rd rc1; wr := wr rc1 |} in
       snd (Send ctx' now' command' rc2) = Some e
       /\ outgoing (conn (fst (Send ctx' now' command' rc2))) = outgoing c'.
Proof. exact (Send_fault ctx now command rc e). Qed.

Lemma Send_failure_sticks_witness :
  let broken := {| fd := 3; incoming := []; outgoing := ""; closed := false;
                   write_fault := Some (NetError "connection reset by peer");
                   read_deadline := None; write_deadline := None |} in
  Context_Err Background 0 = None
  /\ snd (Send Background 0 (GetCmd "k") (wrap broken))
     = Some (NetError "connection reset by peer")
  /\ snd (Send Background 1 (GetCmd "k")
            {| conn := socket 3 [];
               rd := rd (fst (Send Background 0 (GetCmd "k") (wrap broken)));
               wr := wr (fst (Send Background 0 (GetCmd "k") (wrap broken))) |})
     = Some (NetError "connection reset by peer").
Proof.
  intros broken. split; [reflexivity|].
  destruct (Send_failure_sticks Background 0 (GetCmd "k") (wrap broken)
              (NetError "connection reset by peer") eq_refl eq_refl eq_refl eq_refl)
    as (Hs & _ & Hlater).
  split; [exact Hs|].
  exact (proj1 (Hlater Background 1 (GetCmd "k") (socket 3 []) eq_refl eq_refl)).
Defined.

Section MoreReceive.

Lemma fill_fail (b : Reader) (c : NetConn) (e : error) (more : list ReadEvent) :
  closed c = false -> incoming c = Fail e :: more ->
  fill b c = ({| rd_buf := (rd_buf b ++ "")%string; rd_err := Some e |},
              set_incoming c more).
Proof.
  intros Hc Hin. unfold fill, maxConsecutiveEmptyReads.
  cbv beta iota delta [fill_loop]; fold fill_loop.
  unfold conn_Read. rewrite Hc, Hin. reflexivity.
Qed.

Lemma fill_silent (b : Reader) (c : NetConn) :
  closed c = false -> incoming c = [] ->
  fill b c = ({| rd_buf := (rd_buf b ++ "")%string; rd_err := Some ErrTimeout |}, c).
Proof.
  intros Hc Hin. unfold fill, maxConsecutiveEmptyReads.
  cbv beta iota delta [fill_loop]; fold fill_loop.
  unfold conn_Read. rewrite Hc, Hin. reflexivity.
Qed.

(** One Send and one Receive on an idle connection whose next read
    delivers a one-line reply and what follows it. *)
Lemma exchange_one_line (ctx : Context) (now : Z) (command : string)
    (rc : Connection) (first : ascii) (text after : string)
    (more : list ReadEvent) :
  Context_Err ctx now = None -> idle rc ->
  IndexByte (String first text) LF = None ->
  (String.length (String first text ++ CRLF ++ after) <= bufSize)%nat ->
  Ascii.eqb first "$" = false ->
  round_trip ctx now command
    (serving rc (Data (String first text ++ CRLF ++ after) :: more))
  = ({| conn := exchanged (conn rc) (deadline_of ctx now) (command ++ CRLF) more;
        rd := {| rd_buf := after; rd_err := None |}; wr := empty_writer |},
     line_reply first text).
Proof.
  intros Hctx Hidle Hl Hfit Hb. unfold round_trip.
  rewrite (Send_idle ctx now command _ Hctx (idle_serving rc _ Hidle)).
  destruct Hidle as (Hc & Hf & Hr & Hw).
  match goal with
  | |- Receive ctx now ?r = _ =>
      rewrite (Receive_one_line ctx now r first text after more Hctx Hc Hr eq_refl
                 Hl Hfit Hb)
  end.
  reflexivity.
Qed.

End MoreReceive.

(** A bulk reply with the length Itoa prints, delivered whole. *)
Lemma Receive_bulk_whole (ctx : Context) (now : Z) (rc : Connection)
    (payload next : string) (more : list ReadEvent) :
  Context_Err ctx now = None ->
  closed (conn rc) = false -> rd rc = empty_reader ->
  incoming (conn rc)
    = Data ("$" ++ Itoa (len payload) ++ CRLF ++ payload ++ CRLF ++ next) :: more ->
  (String.length ("$" ++ Itoa (len payload) ++ CRLF ++ payload ++ CRLF ++ next)
   <= bufSize)%nat ->
  snd (Receive ctx now rc) = Ok payload
  /\ rd (fst (Receive ctx now rc)) = {| rd_buf := next; rd_err := None |}
  /\ incoming (conn (fst (Receive ctx now rc))) = more.
Proof.
  intros Hctx Hc Hr Hin Hfit.
  assert (Hsmall : Z.of_nat (String.length payload) <= 4096).
  { change 4096 with (Z.of_nat bufSize).
    cbn [append String.length] in Hfit. rewrite !length_app in Hfit. lia. }
  rewrite (Receive_bulk_buffered ctx now rc (Itoa (len payload)) payload next more
             Hctx Hc Hr Hin).
  - repeat split.
  - apply Itoa_LF_free. unfold len. lia.
  - exact Hfit.
  - rewrite Atoi_Itoa; [reflexivity|]. unfold len, MinInt64, MaxInt64. lia.
Qed.

(** X3. Bulk replies are binary safe when they arrive whole. For every
    payload, whatever bytes it holds, the reply [$<length>\r\n<payload>\r\n]
    delivered by one read that fits the reader's buffer makes Receive
    return the payload itself, and the reader is left at the first byte
    after the trailing CRLF. *)
Theorem Receive_bulk_binary_safe (ctx : Context) (now : Z) (rc : Connection)
    (payload next : string) (more : list ReadEvent) :
  Context_Err ctx now = None ->
  closed (conn rc) = false -> rd rc = empty_reader ->
  incoming (conn rc)
    = Data ("$" ++ Itoa (len payload) ++ CRLF ++ payload ++ CRLF ++ next) :: more ->
  (String.length ("$" ++ Itoa (len payload) ++ CRLF ++ payload ++ CRLF ++ next)
   <= bufSize)%nat ->
  snd (Receive ctx now rc) = Ok payload
  /\ rd (fst (Receive ctx now rc)) = {| rd_buf := next; rd_err := None |}
  /\ incoming (conn (fst (Receive ctx now rc))) = more.
Proof. exact (Receive_bulk_whole ctx now rc payload next more). Qed.

Lemma Receive_bulk_binary_safe_witness :
  let payload := ("a" ++ CRLF ++ "$9" ++ CRLF ++ "b")%string in
  let rc := wrap (socket 3 [Data ("$" ++ Itoa (len payload) ++ CRLF ++ payload
                                  ++ CRLF ++ "+OK" ++ CRLF)]) in
  Context_Err Background 0 = None
  /\ snd (Receive Background 0 rc) = Ok payload
  /\ rd (fst (Receive Background 0 rc))
     = {| rd_buf := ("+OK" ++ CRLF)%string; rd_err := None |}.
Proof.
  intros payload rc. split; [reflexivity|].
  destruct (Receive_bulk_binary_safe Background 0 rc payload ("+OK" ++ CRLF) []
              eq_refl eq_refl eq_refl eq_refl) as (Hp & Hrd & _).
  - vm_compute. lia.
  - split; [exact Hp | exact Hrd].
Defined.

(** X4. A one-line reply survives a short read. When the line arrives
    in two reads of the socket, cut anywhere before its line feed,
    Receive returns what it returns for the line delivered whole, and
    leaves the reader after the line. *)
Theorem Receive_line_across_reads (ctx : Context) (now : Z) (rc : Connection)
    (first : ascii) (text a b after : string) (more : list ReadEvent) :
  Context_Err ctx now = None ->
  closed (conn rc) = false -> rd rc = empty_reader ->
  IndexByte (String first text) LF = None ->
  Ascii.eqb first "$" = false ->
  a <> EmptyString ->
  (a ++ b)%string = (String first text ++ String CR "")%string ->
  incoming (conn rc) = Data a :: Data (b ++ String LF after) :: more ->
  (String.length (String first text ++ CRLF ++ after) <= bufSize)%nat ->
  snd (Receive ctx now rc) = line_reply first text
  /\ rd (fst (Receive ctx now rc)) = {| rd_buf := after; rd_err := None |}
  /\ incoming (conn (fst (Receive ctx now rc))) = more.
Proof.
  intros Hctx Hc Hr Hl Hbulk Hne Hcut Hin Hfit.
  assert (Hab : IndexByte (a ++ b) LF = None).
  { rewrite Hcut. apply IndexByte_none_app; [exact Hl | reflexivity]. }
  destruct (IndexByte_app_none a b LF Hab) as [Ha Hb].
  assert (Hread : ReadString LF (rd rc)
                    (set_read_deadline (conn rc) (deadline_of ctx now))
                  = ({| rd_buf := after; rd_err := None |},
                     set_incoming (set_read_deadline (conn rc) (deadline_of ctx now)) more,
                     ((String first text ++ CRLF)%string, None))).
  { rewrite Hr.
    rewrite (ReadString_two_reads
               (set_read_deadline (conn rc) (deadline_of ctx now))
               a b after more Hc Hin Hne Ha Hb).
    - rewrite <- app_assoc_s, Hcut, app_assoc_s. reflexivity.
    - rewrite <- app_assoc_s, Hcut, app_assoc_s. exact Hfit. }
  rewrite (Receive_after_line ctx now rc _ _ first text Hctx Hc Hread Hbulk).
  repeat split.
Qed.

Lemma Receive_line_across_reads_witness :
  let rc := wrap (socket 3 [Data "+O"; Data ("K" ++ CRLF)]) in
  Context_Err Background 0 = None
  /\ snd (Receive Background 0 rc) = Ok "OK"%string.
Proof.
  intros rc. split; [reflexivity|].
  refine (proj1 (Receive_line_across_reads Background 0 rc "+" "OK" "+O"
                   (String "K" (String CR "")) "" [] eq_refl eq_refl eq_refl eq_refl
                   eq_refl _ eq_refl eq_refl _)).
  - discriminate.
  - vm_compute. lia.
Defined.

(** X5. Receive hands on the error of the socket and never a part of a
    line. With nothing buffered: a silent peer gives the timeout of the
    read deadline; a failing read gives its error; and when the read
    fails after the start of a line has arrived, the error is returned
    and the bytes of the unfinished line are dropped. *)
Theorem Receive_socket_error (ctx : Context) (now : Z) (rc : Connection) :
  Context_Err ctx now = None ->
  closed (conn rc) = false -> rd rc = empty_reader ->
  (incoming (conn rc) = [] -> snd (Receive ctx now rc) = Err ErrTimeout)
  /\ (forall e more,
        incoming (conn rc) = Fail e :: more ->
        snd (Receive ctx now rc) = Err e
        /\ incoming (conn (fst (Receive ctx now rc))) = more)
  /\ (forall a e more,
        a <> EmptyString -> IndexByte a LF = None ->
        (String.length a < bufSize)%nat ->
        incoming (conn rc) = Data a :: Fail e :: more ->
        snd (Receive ctx now rc) = Err e
        /\ rd (fst (Receive ctx now rc)) = empty_reader
        /\ incoming (conn (fst (Receive ctx now rc))) = more).
Proof.
  intros Hctx Hc Hr.
  assert (Hstep : forall fuel c,
             ReadString_loop (S fuel) "" LF empty_reader c
             = let '(b', c') := fill empty_reader c in
               ReadString_loop fuel "" LF b' c').
  { intros fuel c. reflexivity. }
  set (c1 := set_read_deadline (conn rc) (deadline_of ctx now)).
  assert (Hc1 : closed c1 = false) by exact Hc.
  split; [|split].
  - intros Hin. unfold Receive.
    rewrite Hctx, (SetReadDeadline_open _ _ Hc), Hr. fold c1.
    assert (Hin1 : incoming c1 = []) by exact Hin.
    unfold ReadString, ReadString_fuel.
    rewrite Hin1. cbn [script_weight Nat.mul Nat.add].
    rewrite Hstep, (fill_silent empty_reader c1 Hc1 Hin1). reflexivity.
  - intros e more Hin. unfold Receive.
    rewrite Hctx, (SetReadDeadline_open _ _ Hc), Hr. fold c1.
    assert (Hin1 : incoming c1 = Fail e :: more) by exact Hin.
    unfold ReadString, ReadString_fuel.
    rewrite Hin1. cbn [script_weight].
    replace (3 * S (script_weight more) + 4)%nat
      with (S (3 * script_weight more + 6)) by lia.
    rewrite Hstep, (fill_fail empty_reader c1 e more Hc1 Hin1).
    replace (3 * script_weight more + 6)%nat
      with (S (3 * script_weight more + 5)) by lia.
    split; reflexivity.
  - intros a e more Hne Ha Hlen Hin. unfold Receive.
    rewrite Hctx, (SetReadDeadline_open _ _ Hc), Hr. fold c1.
    assert (Hin1 : incoming c1 = Data a :: Fail e :: more) by exact Hin.
    unfold ReadString, ReadString_fuel.
    rewrite Hin1. cbn [script_weight].
    replace (3 * (S (String.length a) + S (script_weight more)) + 4)%nat
      with (S (S (S (3 * (String.length a + script_weight more) + 7)))) by lia.
    rewrite Hstep.
    rewrite (fill_data empty_reader c1 a (Fail e :: more) Hc1 Hin1 Hne)
      by (cbn [rd_buf empty_reader String.length]; lia).
    cbv beta iota delta [ReadString_loop]; fold ReadString_loop.
    cbn [rd_buf rd_err empty_reader append]. rewrite Ha.
    destruct (Nat.leb_spec bufSize (String.length a)) as [Hfull|_]; [lia|].
    rewrite (fill_fail {| rd_buf := a; rd_err := None |}
               (set_incoming c1 (Fail e :: more)) e more Hc1 eq_refl).
    cbv beta iota delta [ReadString_loop]; fold ReadString_loop.
    cbn [rd_buf rd_err]. rewrite app_empty_r, Ha.
    repeat split.
Qed.

Lemma Receive_socket_error_witness :
  let rc := wrap (socket 3 [Data "+O"; Fail EOF; Data ("K" ++ CRLF)]) in
  Context_Err Background 0 = None
  /\ snd (Receive Background 0 rc) = Err EOF
  /\ rd (fst (Receive Background 0 rc)) = empty_reader.
Proof.
  intros rc. split; [reflexivity|].
  destruct (Receive_socket_error Background 0 rc eq_refl eq_refl eq_refl)
    as (_ & _ & Hpart).
  destruct (Hpart "+O"%string EOF [Data ("K" ++ CRLF)]) as (He & Hrd & _).
  - discriminate.
  - reflexivity.
  - vm_compute. lia.
  - reflexivity.
  - split; [exact He | exact Hrd].
Defined.

(** X6. A closed connection is of no use. After Close, which succeeds
    once, Send and Receive return the closed-connection error and leave
    the connection as it is, and a second Close returns that error too;
    so it is with the connection ReleaseConnection has closed on a full
    pool. *)
Theorem closed_connection_is_unusable (ctx : Context) (now : Z)
    (command : string) (rc : Connection) (client : Client) :
  Context_Err ctx now = None ->
  closed (conn rc) = false ->
  let rc' := fst (Close rc) in
  snd (Close rc) = None
  /\ Send ctx now command rc' = (rc', Some ErrClosed)
  /\ Receive ctx now rc' = (rc', Err ErrClosed)
  /\ Close rc' = (rc', Some ErrClosed)
  /\ (poolSize client <= Z.of_nat (List.length (pool client)) ->
      snd (ReleaseConnection client rc) = rc').
Proof.
  intros Hctx Hc rc'. subst rc'.
  unfold Close, conn_Close. rewrite Hc. cbn [fst snd].
  unfold Send, Receive, SetWriteDeadline, SetReadDeadline, ReleaseConnection,
    Close, conn_Close.
  rewrite Hctx, Hc. cbn [conn closed rd wr fst snd].
  repeat split.
  intros Hfull. apply Z.leb_le in Hfull. rewrite Hfull. reflexivity.
Qed.

Lemma closed_connection_is_unusable_witness :
  Context_Err Background 0 = None
  /\ closed (conn (wrap (socket 3 []))) = false
  /\ snd (Send Background 0 "PING" (fst (Close (wrap (socket 3 []))))) = Some ErrClosed.
Proof.
  split; [reflexivity|]. split; [reflexivity|].
  destruct (closed_connection_is_unusable Background 0 "PING" (wrap (socket 3 []))
              {| pool := []; address := ""; poolSize := 0; auth := "";
                 dialer := {| script := []; attempts := 0 |} |} eq_refl eq_refl)
    as (_ & Hs & _).
  rewrite Hs. reflexivity.
Defined.

(** X7. Ping writes the bare line [PING\r\n] and judges the peer's
    one-line answer: the text [PONG] is success, any other text is the
    error "did not receive PONG response", and an error reply comes back
    as that error. *)
Theorem Ping_outcomes (ctx : Context) (now : Z) (rc : Connection)
    (first : ascii) (text : string) (more : list ReadEvent) :
  Context_Err ctx now = None -> idle rc ->
  IndexByte (String first text) LF = None ->
  (String.length (String first text ++ CRLF) <= bufSize)%nat ->
  Ascii.eqb first "$" = false ->
  let r := Ping ctx now (serving rc (Data (String first text ++ CRLF) :: more)) in
  outgoing (conn (fst r)) = (outgoing (conn rc) ++ "PING" ++ CRLF)%string
  /\ (line_reply first text = Ok "PONG"%string -> snd r = Ok tt)
  /\ (forall reply, line_reply first text = Ok reply -> reply <> "PONG"%string ->
      snd r = Err (ErrorsNew "did not receive PONG response"))
  /\ (forall e, line_reply first text = Err e -> snd r = Err e).
Proof.
  intros Hctx Hidle Hl Hfit Hb r. subst r.
  assert (Hfit' : (String.length (String first text ++ CRLF ++ "") <= bufSize)%nat)
    by exact Hfit.
  pose proof (exchange_one_line ctx now "PING" rc first text "" more
                Hctx Hidle Hl Hfit' Hb) as Hex.
  change (String first text ++ CRLF ++ "")%string
    with (String first text ++ CRLF)%string in Hex.
  unfold round_trip in Hex.
  unfold Ping. rewrite Hctx.
  rewrite (Send_idle ctx now "PING" _ Hctx (idle_serving rc _ Hidle)) in *.
  rewrite Hex.
  destruct (line_reply first text) as [reply|e|p].
  - destruct (String.eqb_spec reply "PONG") as [->|Hne];
      cbn [fst snd conn outgoing exchanged]; (split; [reflexivity|]);
      (split; [|split]).
    + reflexivity.
    + intros reply' [= <-] Hne. contradiction.
    + discriminate.
    + intros [= ->]. contradiction.
    + reflexivity.
    + discriminate.
  - cbn [fst snd conn outgoing exchanged]. split; [reflexivity|].
    split; [|split]; try discriminate.
    intros e' [= <-]. reflexivity.
  - cbn [fst snd conn outgoing exchanged]. split; [reflexivity|].
    split; [|split]; discriminate.
Qed.

Lemma Ping_outcomes_witness :
  Context_Err Background 0 = None
  /\ idle (wrap (socket 3 []))
  /\ snd (Ping Background 0 (serving (wrap (socket 3 [])) [Data ("+PONG" ++ CRLF)]))
     = Ok tt.
Proof.
  split; [reflexivity|]. split; [repeat split|].
  assert (Hidle : idle (wrap (socket 3 []))) by (repeat split).
  assert (Hfit : (String.length (String "+" "PONG" ++ CRLF) <= bufSize)%nat)
    by (vm_compute; lia).
  destruct (Ping_outcomes Background 0 (wrap (socket 3 [])) "+" "PONG" []
              eq_refl Hidle eq_refl Hfit eq_refl) as (_ & Hok & _).
  apply Hok. reflexivity.
Defined.

(** X8. What NewRedisConnection returns. A failed dial is returned as
    it is. Without a password nothing is written and the connection is
    the dialed socket, idle. With a password, the peer's one-line answer
    to AUTH decides: the text [OK] gives the connection, idle and past
    the answer; any other text gives the error "authentication failed";
    an error reply gives that error. Each call makes one dial. *)
Theorem NewRedisConnection_outcomes (now : Z) (addr pw : string)
    (rest : list (NetConn + error)) (k : nat) :
  (forall e,
     NewRedisConnection {| script := inr e :: rest; attempts := k |} now addr pw
     = ({| script := rest; attempts := S k |}, Err e))
  /\ (forall c,
        snd (NewRedisConnection {| script := inl c :: rest; attempts := k |} now addr "")
        = Ok (wrap c))
  /\ (forall n first text more,
        pw <> ""%string ->
        IndexByte (String first text) LF = None ->
        (String.length (String first text ++ CRLF) <= bufSize)%nat ->
        Ascii.eqb first "$" = false ->
        let r := snd (NewRedisConnection
                        {| script := inl (socket n (Data (String first text ++ CRLF)
                                                    :: more)) :: rest;
                           attempts := k |} now addr pw) in
        (line_reply first text = Ok "OK"%string ->
         exists rc, r = Ok rc /\ idle rc /\ incoming (conn rc) = more)
        /\ (forall reply, line_reply first text = Ok reply -> reply <> "OK"%string ->
            r = Err (ErrorsNew "authentication failed"))
        /\ (forall e, line_reply first text = Err e -> r = Err e)).
Proof.
  split; [|split].
  - intros e. reflexivity.
  - intros c. reflexivity.
  - intros n first text more Hpw Hl Hfit Hb r. subst r.
    assert (Hctx : Context_Err (WithTimeout now (5 * Second)) now = None).
    { unfold Context_Err, WithTimeout, Second; cbn [ctx_done ctx_Deadline].
      destruct (Z.leb_spec (now + 5 * 1000000000) now); [lia | reflexivity]. }
    assert (Hidle : idle (wrap (socket n []))) by (repeat split).
    assert (Hfit' : (String.length (String first text ++ CRLF ++ "") <= bufSize)%nat)
      by exact Hfit.
    pose proof (exchange_one_line (WithTimeout now (5 * Second)) now ("AUTH " ++ pw)
                  (wrap (socket n [])) first text "" more Hctx Hidle Hl Hfit' Hb) as Hex.
    change (String first text ++ CRLF ++ "")%string
      with (String first text ++ CRLF)%string in Hex.
    unfold round_trip in Hex.
    rewrite (Send_idle _ _ _ _ Hctx (idle_serving (wrap (socket n [])) _ Hidle)) in Hex.
    unfold NewRedisConnection, Dial. cbn [script].
    destruct (String.eqb_spec pw ""); [contradiction|].
    unfold Auth. rewrite Hctx.
    change (wrap (socket n (Data (String first text ++ CRLF) :: more)))
      with (serving (wrap (socket n [])) (Data (String first text ++ CRLF) :: more)).
    rewrite (Send_idle _ _ _ _ Hctx (idle_serving (wrap (socket n [])) _ Hidle)).
    rewrite Hex.
    destruct (line_reply first text) as [reply|e|p].
    + destruct (String.eqb_spec reply "OK") as [->|Hne]; cbn [snd].
      * split; [|split].
        -- intros _. eexists. split; [reflexivity|]. repeat split.
        -- intros reply' [= <-] Hne. contradiction.
        -- discriminate.
      * split; [|split].
        -- intros [= ->]. contradiction.
        -- intros reply' _ _. reflexivity.
        -- discriminate.
    + cbn [snd]. split; [|split]; try discriminate.
      intros e' [= <-]. reflexivity.
    + cbn [snd]. split; [|split]; discriminate.
Qed.

Lemma NewRedisConnection_outcomes_witness :
  "pw"%string <> ""%string
  /\ snd (NewRedisConnection
            {| script := [inl (socket 3 [Data ("-ERR invalid password" ++ CRLF)])];
               attempts := 0 |} 0 "127.0.0.1:6379" "pw")
     = Err (Errorf "ERR invalid password").
Proof.
  split; [discriminate|].
  destruct (NewRedisConnection_outcomes 0 "127.0.0.1:6379" "pw" [] 0) as (_ & _ & Hauth).
  assert (Hfit : (String.length (String "-" "ERR invalid password" ++ CRLF)
                  <= bufSize)%nat) by (vm_compute; lia).
  destruct (Hauth 3%nat "-"%char "ERR invalid password"%string []
              ltac:(discriminate) eq_refl Hfit eq_refl) as (_ & _ & Herr).
  apply Herr. reflexivity.
Defined.

(** ** More on the client *)

Section MoreClient.

(** Do on a pool that holds a connection and is within its capacity. *)
Lemma Do_head (ctx : Context) (now : Z) (o : option error) (command : string)
    (client : Client) (c : Connection) (rest : list Connection) :
  pool client = c :: rest ->
  Z.of_nat (List.length (pool client)) <= poolSize client ->
  Do ctx now o command client
  = (set_pool client (rest ++ [fst (round_trip ctx now command c)]),
     match snd (round_trip ctx now command c), o with
     | Panic p, _ => Panic p
     | _, Some err => Err err
     | r, None => r
     end).
Proof.
  intros Hp Hcap. unfold Do, GetConnection. rewrite Hp in *.
  destruct (round_trip ctx now command c) as [c1 r].
  unfold ReleaseConnection. cbn [set_pool pool poolSize fst snd].
  cbn [List.length] in Hcap.
  destruct (Z.leb_spec (poolSize client) (Z.of_nat (List.length rest))); [lia|].
  cbn [fst set_pool pool address poolSize auth dialer].
  destruct r, o; reflexivity.
Qed.

Lemma Do_one_line (ctx : Context) (now : Z) (command : string)
    (client : Client) (rc : Connection) (rest : list Connection)
    (first : ascii) (text : string) (more : list ReadEvent) :
  Context_Err ctx now = None -> idle rc ->
  IndexByte (String first text) LF = None ->
  (String.length (String first text ++ CRLF) <= bufSize)%nat ->
  Ascii.eqb first "$" = false ->
  snd (Do ctx now None command
         (set_pool client (serving rc (Data (String first text ++ CRLF) :: more) :: rest)))
  = line_reply first text.
Proof.
  intros Hctx Hidle Hl Hfit Hb. rewrite Do_pooled.
  assert (Hfit' : (String.length (String first text ++ CRLF ++ "") <= bufSize)%nat)
    by exact Hfit.
  pose proof (exchange_one_line ctx now command rc first text "" more
                Hctx Hidle Hl Hfit' Hb) as Hex.
  change (String first text ++ CRLF ++ "")%string
    with (String first text ++ CRLF)%string in Hex.
  rewrite Hex. reflexivity.
Qed.

End MoreClient.

(** X9. Do gives its connection back whatever happened. On a pool that
    holds a connection and is within its capacity, Do takes the oldest
    connection and, if the exchange did not panic, puts it back at the
    end of the pool in the state the exchange left it: also when Send or
    Receive failed, and also when the context was done first. The pool
    keeps its size and no dial is made. *)
Theorem Do_returns_connection_to_pool (ctx : Context) (now : Z)
    (o : option error) (command : string) (client : Client)
    (c : Connection) (rest : list Connection) :
  pool client = c :: rest ->
  Z.of_nat (List.length (pool client)) <= poolSize client ->
  let client' := fst (Do ctx now o command client) in
  pool client' = rest ++ [fst (round_trip ctx now command c)]
  /\ List.length (pool client') = List.length (pool client)
  /\ dialer client' = dialer client
  /\ (forall err, o = Some err ->
      is_Panic (snd (round_trip ctx now command c)) = false ->
      snd (Do ctx now o command client) = Err err)
  /\ (o = None -> snd (Do ctx now o command client)
                  = snd (round_trip ctx now command c)).
Proof.
  intros Hp Hcap client'. subst client'.
  rewrite (Do_head ctx now o command client c rest Hp Hcap).
  cbn [fst snd pool set_pool dialer]. rewrite Hp, List.length_app.
  cbn [List.length]. split; [reflexivity|]. split; [lia|]. split; [reflexivity|].
  split.
  - intros err ->. destruct (snd (round_trip ctx now command c));
      [reflexivity | reflexivity | discriminate].
  - intros ->. destruct (snd (round_trip ctx now command c)); reflexivity.
Qed.

Lemma Do_returns_connection_to_pool_witness :
  let client := {| pool := [wrap (socket 3 [Fail EOF]); wrap (socket 4 [])];
                   address := "127.0.0.1:6379"; poolSize := 2; auth := "";
                   dialer := {| script := []; attempts := 2 |} |} in
  Z.of_nat (List.length (pool client)) <= poolSize client
  /\ snd (Do Background 0 None (GetCmd "k") client) = Err EOF
  /\ List.length (pool (fst (Do Background 0 None (GetCmd "k") client))) = 2%nat.
Proof.
  intros client.
  assert (Hcap : Z.of_nat (List.length (pool client)) <= poolSize client)
    by (vm_compute; discriminate).
  split; [exact Hcap|]. split; [vm_compute; reflexivity|].
  exact (proj1 (proj2 (Do_returns_connection_to_pool Background 0 None (GetCmd "k")
                         client _ _ eq_refl Hcap))).
Defined.

(** X10. A connection whose write failed stays in the pool and fails
    again. With one pooled connection whose socket refuses a write, Do
    returns the socket's error and the pool still holds that connection;
    the next Do on it returns the same error without writing anything,
    even when the socket takes writes again. *)
Theorem failed_connection_is_reused (ctx : Context) (now : Z) (command : string)
    (client : Client) (rc : Connection) (e : error) :
  Context_Err ctx now = None ->
  closed (conn rc) = false -> write_fault (conn rc) = Some e ->
  wr rc = empty_writer ->
  1 <= poolSize client ->
  let r1 := Do ctx now None command (set_pool client [rc]) in
  snd r1 = Err e
  /\ exists rc1,
       pool (fst r1) = [rc1]
       /\ forall (ctx' : Context) (now' : Z) (command' : string) (c' : NetConn),
            Context_Err ctx' now' = None -> closed c' = false ->
            let r2 := Do ctx' now' None command'
                        (set_pool (fst r1)
                           [{| conn := c'; rd := rd rc1; wr := wr rc1 |}]) in
            snd r2 = Err e
            /\ exists rc2, pool (fst r2) = [rc2]
                           /\ outgoing (conn rc2) = outgoing c'.
Proof.
  intros Hctx Hc Hf Hw Hsize r1. subst r1.
  destruct (Send_fault ctx now command rc e Hctx Hc Hf Hw) as (Hs & _ & Hlater).
  rewrite (Do_head ctx now None command (set_pool client [rc]) rc [] eq_refl)
    by (cbn [pool set_pool List.length poolSize]; lia).
  unfold round_trip at 2.
  destruct (Send ctx now command rc) as [rc1 err] eqn:Hsend.
  cbn [snd] in Hs. subst err. cbn [fst snd app].
  split; [reflexivity|].
  exists (fst (round_trip ctx now command rc)).
  split; [reflexivity|].
  unfold round_trip. rewrite Hsend. cbn [fst] in *.
  intros ctx' now' command' c' Hctx' Hc'.
  destruct (Hlater ctx' now' command' c' Hctx' Hc') as [Hs2 Ho2].
  match goal with
  | |- context [Do ctx' now' None command' ?cl] =>
      rewrite (Do_head ctx' now' None command' cl
                 {| conn := c'; rd := rd rc1; wr := wr rc1 |} [] eq_refl)
        by (cbn [pool set_pool List.length poolSize]; lia)
  end.
  unfold round_trip.
  destruct (Send ctx' now' command' {| conn := c'; rd := rd rc1; wr := wr rc1 |})
    as [rc2 err2].
  cbn [snd fst] in Hs2, Ho2. subst err2. cbn [fst snd app].
  split; [reflexivity|].
  exists rc2. split; [reflexivity | exact Ho2].
Qed.

Lemma failed_connection_is_reused_witness :
  let broken := {| fd := 3; incoming := [Data ("$-1" ++ CRLF)]; outgoing := "";
                   closed := false;
                   write_fault := Some (NetError "broken pipe");
                   read_deadline := None; write_deadline := None |} in
  let client := {| pool := []; address := "127.0.0.1:6379"; poolSize := 1;
                   auth := ""; dialer := {| script := []; attempts := 1 |} |} in
  Context_Err Background 0 = None
  /\ 1 <= poolSize client
  /\ snd (Do Background 0 None (GetCmd "k") (set_pool client [wrap broken]))
     = Err (NetError "broken pipe").
Proof.
  intros broken client.
  split; [reflexivity|]. split; [vm_compute; discriminate|].
  refine (proj1 (failed_connection_is_reused Background 0 (GetCmd "k") client
                   (wrap broken) (NetError "broken pipe")
                   eq_refl eq_refl eq_refl eq_refl _)).
  vm_compute; discriminate.
Defined.

(** X11. Do on an empty pool dials. When the dial fails Do returns the
    dial's error and the pool stays empty; when a connection is made Do
    uses it and then keeps it in the pool if the capacity is at least
    one; either way exactly one dial is made. *)
Theorem Do_on_empty_pool (ctx : Context) (now : Z) (o : option error)
    (command : string) (client : Client) :
  pool client = [] ->
  let made := NewRedisConnection (dialer client) now (address client) (auth client) in
  let r := Do ctx now o command client in
  attempts (dialer (fst r)) = S (attempts (dialer client))
  /\ (forall e, snd made = Err e -> snd r = Err e /\ pool (fst r) = [])
  /\ (forall c, snd made = Ok c -> 1 <= poolSize client ->
      pool (fst r) = [fst (round_trip ctx now command c)]).
Proof.
  intros Hp made r. subst made r.
  pose proof (NewRedisConnection_attempts (dialer client) now (address client)
                (auth client)) as Hatt.
  unfold Do, GetConnection. rewrite Hp.
  destruct (NewRedisConnection (dialer client) now (address client) (auth client))
    as [d1 [c|e|p]]; cbn [fst snd] in *.
  - split; [|split; [intros e; discriminate|]].
    + destruct (round_trip ctx now command c) as [c1 r1].
      unfold ReleaseConnection. cbn [pool set_dialer poolSize]. rewrite Hp.
      cbn [List.length Z.of_nat].
      destruct (poolSize client <=? 0), r1, o; exact Hatt.
    + intros c' [= <-] Hsize.
      destruct (round_trip ctx now command c) as [c1 r1].
      unfold ReleaseConnection. cbn [pool set_dialer poolSize]. rewrite Hp.
      cbn [List.length Z.of_nat].
      destruct (Z.leb_spec (poolSize client) 0); [lia|].
      destruct r1, o; reflexivity.
  - split; [exact Hatt|]. split.
    + intros e' [= <-]. split; [reflexivity | exact Hp].
    + intros c; discriminate.
  - split; [exact Hatt|]. split; [intros e; discriminate | intros c; discriminate].
Qed.

Lemma Do_on_empty_pool_witness :
  let client := {| pool := []; address := "127.0.0.1:6379"; poolSize := 1; auth := "";
                   dialer := {| script := [inr (NetError "connection refused")];
                                attempts := 1 |} |} in
  pool client = []
  /\ snd (Do Background 0 None (GetCmd "k") client)
     = Err (NetError "connection refused")
  /\ attempts (dialer (fst (Do Background 0 None (GetCmd "k") client))) = 2%nat.
Proof.
  intros client. split; [reflexivity|].
  destruct (Do_on_empty_pool Background 0 None (GetCmd "k") client eq_refl)
    as (Hatt & Herr & _).
  split; [|exact Hatt].
  exact (proj1 (Herr (NetError "connection refused") eq_refl)).
Defined.

Section MorePool.

Lemma run_ops_app (client : Client) (ops1 ops2 : list pool_op) :
  run_ops client (ops1 ++ ops2) = run_ops (run_ops client ops1) ops2.
Proof. unfold run_ops. apply fold_left_app. Qed.

(** As many acquires as the pool holds connections empty it, with no
    dial. *)
Lemma acquire_all (ts : list Z) : forall client : Client,
  List.length ts = List.length (pool client) ->
  run_ops client (map Acquire ts) = set_pool client [].
Proof.
  induction ts as [|t ts IH]; intros client Hlen.
  - destruct client as [p a s u d]. cbn in *.
    destruct p; [reflexivity | discriminate].
  - destruct (pool client) as [|c rest] eqn:Hp; [discriminate|].
    cbn [map run_ops fold_left pool_step]. unfold GetConnection. rewrite Hp.
    cbn [fst]. fold (run_ops (set_pool client rest) (map Acquire ts)).
    rewrite IH by (cbn [pool set_pool]; cbn in Hlen; lia).
    reflexivity.
Qed.

(** Releases into a pool with room for all of them queue up in order. *)
Lemma release_all (cs : list Connection) : forall client : Client,
  Z.of_nat (List.length (pool client) + List.length cs) <= poolSize client ->
  run_ops client (map Release cs) = set_pool client (pool client ++ cs).
Proof.
  induction cs as [|c cs IH]; intros client Hroom.
  - cbn. rewrite app_nil_r. destruct client; reflexivity.
  - cbn [map run_ops fold_left pool_step]. unfold ReleaseConnection.
    cbn [List.length] in Hroom.
    destruct (Z.leb_spec (poolSize client) (Z.of_nat (List.length (pool client))));
      [lia|].
    cbn [fst]. fold (run_ops (set_pool client (pool client ++ [c])) (map Release cs)).
    rewrite IH.
    + cbn [pool set_pool]. rewrite <- app_assoc. reflexivity.
    + cbn [pool set_pool poolSize]. rewrite List.length_app. cbn [List.length]. lia.
Qed.

End MorePool.

(** X12. Overflow connections are drained back to the capacity. Take a
    full pool of [n] connections. After [n] acquires the pool is empty,
    and one more acquire does not wait: it makes exactly one dial. When
    the [n+1] connections are then released, the first [n] are queued in
    the order of their release and the last one is closed and not kept:
    the pool holds exactly [n] connections again. *)
Theorem overflow_is_drained_to_capacity (client : Client) (ts : list Z)
    (t : Z) (cs : list Connection) (extra : Connection) :
  Z.of_nat (List.length (pool client)) = poolSize client ->
  List.length ts = List.length (pool client) ->
  List.length cs = List.length (pool client) ->
  let emptied := run_ops client (map Acquire ts) in
  let overflowed := run_ops emptied [Acquire t] in
  let refilled := run_ops overflowed (map Release cs) in
  pool emptied = [] /\ dialer emptied = dialer client
  /\ pool overflowed = []
  /\ attempts (dialer overflowed) = S (attempts (dialer client))
  /\ pool refilled = cs
  /\ ReleaseConnection refilled extra = (refilled, fst (Close extra))
  /\ pool (run_ops client
             (map Acquire ts ++ [Acquire t] ++ map Release (cs ++ [extra]))) = cs.
Proof.
  intros Hfull Hts Hcs emptied overflowed refilled.
  assert (He : emptied = set_pool client []) by (apply acquire_all; exact Hts).
  assert (Ho : pool overflowed = [] /\ poolSize overflowed = poolSize client
               /\ attempts (dialer overflowed) = S (attempts (dialer client))).
  { subst overflowed. rewrite He. cbn [run_ops fold_left pool_step].
    unfold GetConnection. cbn [pool set_pool address auth dialer].
    pose proof (NewRedisConnection_attempts (dialer client) t (address client)
                  (auth client)) as Hatt.
    destruct (NewRedisConnection (dialer client) t (address client) (auth client))
      as [d1 r]. cbn [fst] in *. repeat split. exact Hatt. }
  destruct Ho as (Hop & Hos & Hoa).
  assert (Hr : refilled = set_pool overflowed cs).
  { subst refilled. rewrite release_all; rewrite Hop; [reflexivity|].
    cbn [List.length Nat.add]. rewrite Hos, Hcs. lia. }
  split; [rewrite He; reflexivity|]. split; [rewrite He; reflexivity|].
  split; [exact Hop|]. split; [exact Hoa|].
  split; [rewrite Hr; reflexivity|].
  assert (Hlast : ReleaseConnection refilled extra = (refilled, fst (Close extra))).
  { unfold ReleaseConnection. rewrite Hr. cbn [pool set_pool poolSize].
    rewrite Hos, Hcs.
    destruct (Z.leb_spec (poolSize client) (Z.of_nat (List.length (pool client))));
      [reflexivity | lia]. }
  split; [exact Hlast|].
  rewrite !run_ops_app, map_app, run_ops_app.
  fold emptied. fold overflowed. fold refilled.
  cbn [map run_ops fold_left pool_step]. rewrite Hlast. cbn [fst].
  rewrite Hr. reflexivity.
Qed.

Lemma overflow_is_drained_to_capacity_witness :
  let a := wrap (socket 3 []) in
  let b := wrap (socket 4 []) in
  let x := wrap (socket 5 []) in
  let client := {| pool := [a; b]; address := "127.0.0.1:6379"; poolSize := 2;
                   auth := "";
                   dialer := {| script := [inl (socket 5 [])]; attempts := 2 |} |} in
  Z.of_nat (List.length (pool client)) = poolSize client
  /\ pool (run_ops client
             (map Acquire [1; 2] ++ [Acquire 3] ++ map Release ([b; a] ++ [x])))
     = [b; a].
Proof.
  intros a b x client. split; [reflexivity|].
  exact (proj2 (proj2 (proj2 (proj2 (proj2 (proj2
           (overflow_is_drained_to_capacity client [1; 2] 3 [b; a] x
              eq_refl eq_refl eq_refl))))))).
Defined.

Section MoreCommands.

Lemma Get_fst (ctx : Context) (now : Z) (o : option error) (key : string)
    (client : Client) :
  fst (Get ctx now o key client) = fst (Do ctx now o (GetCmd key) client).
Proof.
  unfold Get. destruct (Do ctx now o (GetCmd key) client) as [cl [r|e|p]]; reflexivity.
Qed.

(** A bulk reply delivered whole to the round trip of Do. *)
Lemma round_trip_bulk_whole (ctx : Context) (now : Z) (command : string)
    (rc : Connection) (payload : string) (more : list ReadEvent) :
  Context_Err ctx now = None -> idle rc ->
  (String.length ("$" ++ Itoa (len payload) ++ CRLF ++ payload ++ CRLF ++ "")
   <= bufSize)%nat ->
  round_trip ctx now command
    (serving rc (Data ("$" ++ Itoa (len payload) ++ CRLF ++ payload ++ CRLF ++ "")
                 :: more))
  = ({| conn := exchanged (conn rc) (deadline_of ctx now) (command ++ CRLF) more;
        rd := empty_reader; wr := empty_writer |}, Ok payload).
Proof.
  intros Hctx Hidle Hfit. unfold round_trip.
  rewrite (Send_idle ctx now command _ Hctx (idle_serving rc _ Hidle)).
  destruct Hidle as (Hc & Hf & Hr & Hw).
  match goal with
  | |- Receive ctx now ?r = _ =>
      destruct (Receive_bulk_whole ctx now r payload "" more Hctx Hc Hr eq_refl Hfit)
        as (Hp & Hrd & Hin);
      pose proof (Receive_outgoing ctx now r) as Hout;
      destruct (Receive ctx now r) as [rc2 res] eqn:HR
  end.
  cbn [fst snd] in *. subst res. f_equal.
  match type of HR with
  | Receive ctx now ?r = _ =>
      rewrite (Receive_bulk_buffered ctx now r (Itoa (len payload)) payload "" more
                 Hctx Hc Hr eq_refl) in HR
  end.
  - injection HR as <-. reflexivity.
  - apply Itoa_LF_free. unfold len. lia.
  - exact Hfit.
  - assert (Hsmall : Z.of_nat (String.length payload) <= 4096).
    { change 4096 with (Z.of_nat bufSize).
      cbn [append String.length] in Hfit. rewrite !length_app in Hfit. lia. }
    rewrite Atoi_Itoa; [reflexivity|]. unfold len, MinInt64, MaxInt64. lia.
Qed.

Lemma idle_exchanged (rc : Connection) (t : Z) (sent : string)
    (more : list ReadEvent) :
  idle rc ->
  idle {| conn := exchanged (conn rc) t sent more;
          rd := empty_reader; wr := empty_writer |}.
Proof. intros (Hc & Hf & Hr & Hw). repeat split; assumption. Qed.

End MoreCommands.

Ltac do_head :=
  match goal with
  | |- context [Do ?ctx ?now ?o ?cmd (set_pool ?client (?c :: ?rest))] =>
      rewrite (Do_head ctx now o cmd (set_pool client (c :: rest)) c rest eq_refl)
        by (cbn [pool set_pool List.length poolSize]; first [assumption | lia])
  end.

(** X13. Set and SetWithTTL take the status [OK] and nothing else. On an
    idle pooled connection answered with a one-line reply: the text [OK]
    makes both succeed; any other text makes Set fail with "unexpected
    response from server" and SetWithTTL with that message followed by
    the text; an error reply makes both return that error. *)
Theorem Set_and_SetWithTTL_judge_the_status (ctx : Context) (now : Z)
    (key value : string) (ttl : Z) (client : Client) (rc : Connection)
    (rest : list Connection) (first : ascii) (text : string)
    (more : list ReadEvent) :
  Context_Err ctx now = None -> idle rc ->
  IndexByte (String first text) LF = None ->
  (String.length (String first text ++ CRLF) <= bufSize)%nat ->
  Ascii.eqb first "$" = false ->
  let cl := set_pool client
              (serving rc (Data (String first text ++ CRLF) :: more) :: rest) in
  (line_reply first text = Ok "OK"%string ->
   snd (Set_ ctx now None key value cl) = Ok tt
   /\ snd (SetWithTTL ctx now None key value ttl cl) = Ok tt)
  /\ (forall reply, line_reply first text = Ok reply -> reply <> "OK"%string ->
      snd (Set_ ctx now None key value cl)
      = Err (ErrorsNew "unexpected response from server")
      /\ snd (SetWithTTL ctx now None key value ttl cl)
         = Err (ErrorsNew ("unexpected response from server: " ++ reply)))
  /\ (forall e, line_reply first text = Err e ->
      snd (Set_ ctx now None key value cl) = Err e
      /\ snd (SetWithTTL ctx now None key value ttl cl) = Err e).
Proof.
  intros Hctx Hidle Hl Hfit Hb cl. subst cl.
  pose proof (Do_one_line ctx now (SendCmd key value) client rc rest first text more
                Hctx Hidle Hl Hfit Hb) as H1.
  pose proof (Do_one_line ctx now (SetWithTTLCmd key value ttl) client rc rest
                first text more Hctx Hidle Hl Hfit Hb) as H2.
  unfold Set_, SetWithTTL.
  destruct (Do ctx now None (SendCmd key value) _) as [cl1 r1].
  destruct (Do ctx now None (SetWithTTLCmd key value ttl) _) as [cl2 r2].
  cbn [snd] in H1, H2. subst r1 r2.
  destruct (line_reply first text) as [reply|e|p].
  - destruct (String.eqb_spec reply "OK") as [->|Hne]; cbn [snd];
      (split; [|split]).
    + auto.
    + intros reply' [= <-] Hne. contradiction.
    + discriminate.
    + intros [= ->]. contradiction.
    + intros reply' [= <-] _. auto.
    + discriminate.
  - cbn [snd]. split; [|split]; try discriminate.
    intros e' [= <-]. auto.
  - cbn [snd]. split; [|split]; discriminate.
Qed.

Lemma Set_and_SetWithTTL_judge_the_status_witness :
  let client := {| pool := []; address := "127.0.0.1:6379"; poolSize := 1; auth := "";
                   dialer := {| script := []; attempts := 1 |} |} in
  Context_Err Background 0 = None
  /\ idle (wrap (socket 3 []))
  /\ snd (SetWithTTL Background 0 None "/a" "blob" 15
            (set_pool client
               [serving (wrap (socket 3 [])) [Data ("+QUEUED" ++ CRLF)]]))
     = Err (ErrorsNew "unexpected response from server: QUEUED").
Proof.
  intros client.
  assert (Hidle : idle (wrap (socket 3 []))) by (repeat split).
  assert (Hfit : (String.length (String "+" "QUEUED" ++ CRLF) <= bufSize)%nat)
    by (vm_compute; lia).
  split; [reflexivity|]. split; [exact Hidle|].
  destruct (Set_and_SetWithTTL_judge_the_status Background 0 "/a" "blob" 15 client
              (wrap (socket 3 [])) [] "+" "QUEUED" [] eq_refl Hidle eq_refl Hfit eq_refl)
    as (_ & Hother & _).
  exact (proj2 (Hother "QUEUED"%string eq_refl ltac:(discriminate))).
Defined.

(** X14. Delete and Expire read the integer reply as text. On an idle
    pooled connection answered with a one-line reply: [:1] makes Delete
    succeed and Expire return true; [:0] makes Delete succeed and Expire
    return false; any other reply text makes both fail with "unexpected
    response from server"; an error reply makes both return that
    error. *)
Theorem Delete_and_Expire_judge_the_integer (ctx : Context) (now : Z)
    (key : string) (seconds : Z) (client : Client) (rc : Connection)
    (rest : list Connection) (first : ascii) (text : string)
    (more : list ReadEvent) :
  Context_Err ctx now = None -> idle rc ->
  IndexByte (String first text) LF = None ->
  (String.length (String first text ++ CRLF) <= bufSize)%nat ->
  Ascii.eqb first "$" = false ->
  let cl := set_pool client
              (serving rc (Data (String first text ++ CRLF) :: more) :: rest) in
  (line_reply first text = Ok ":1"%string ->
   snd (Delete ctx now None key cl) = Ok tt
   /\ snd (Expire ctx now None key seconds cl) = Ok true)
  /\ (line_reply first text = Ok ":0"%string ->
      snd (Delete ctx now None key cl) = Ok tt
      /\ snd (Expire ctx now None key seconds cl) = Ok false)
  /\ (forall reply, line_reply first text = Ok reply ->
      reply <> ":1"%string -> reply <> ":0"%string ->
      snd (Delete ctx now None key cl)
      = Err (ErrorsNew "unexpected response from server")
      /\ snd (Expire ctx now None key seconds cl)
         = Err (ErrorsNew "unexpected response from server"))
  /\ (forall e, line_reply first text = Err e ->
      snd (Delete ctx now None key cl) = Err e
      /\ snd (Expire ctx now None key seconds cl) = Err e).
Proof.
  intros Hctx Hidle Hl Hfit Hb cl. subst cl.
  pose proof (Do_one_line ctx now (DeleteCmd key) client rc rest first text more
                Hctx Hidle Hl Hfit Hb) as H1.
  pose proof (Do_one_line ctx now (ExpireCmd key seconds) client rc rest
                first text more Hctx Hidle Hl Hfit Hb) as H2.
  unfold Delete, Expire.
  destruct (Do ctx now None (DeleteCmd key) _) as [cl1 r1].
  destruct (Do ctx now None (ExpireCmd key seconds) _) as [cl2 r2].
  cbn [snd] in H1, H2. subst r1 r2.
  destruct (line_reply first text) as [reply|e|p].
  - destruct (String.eqb_spec reply ":1") as [->|Hne1];
      [|destruct (String.eqb_spec reply ":0") as [->|Hne0]];
      cbn [snd negb andb]; (split; [|split; [|split]]);
      try discriminate; try (intros; split; reflexivity).
    + intros reply' [= <-] Hn _. contradiction.
    + intros reply' [= <-] _ Hn. contradiction.
    + intros [= ->]. contradiction.
    + intros [= ->]. contradiction.
  - cbn [snd]. split; [|split; [|split]]; try discriminate.
    intros e' [= <-]. auto.
  - cbn [snd]. split; [|split; [|split]]; discriminate.
Qed.

Lemma Delete_and_Expire_judge_the_integer_witness :
  let client := {| pool := []; address := "127.0.0.1:6379"; poolSize := 1; auth := "";
                   dialer := {| script := []; attempts := 1 |} |} in
  Context_Err Background 0 = None
  /\ idle (wrap (socket 3 []))
  /\ snd (Expire Background 0 None "/a" 30
            (set_pool client [serving (wrap (socket 3 [])) [Data (":1" ++ CRLF)]]))
     = Ok true.
Proof.
  intros client.
  assert (Hidle : idle (wrap (socket 3 []))) by (repeat split).
  assert (Hfit : (String.length (String ":" "1" ++ CRLF) <= bufSize)%nat)
    by (vm_compute; lia).
  split; [reflexivity|]. split; [exact Hidle|].
  destruct (Delete_and_Expire_judge_the_integer Background 0 "/a" 30 client
              (wrap (socket 3 [])) [] ":" "1" [] eq_refl Hidle eq_refl Hfit eq_refl)
    as (Hone & _).
  exact (proj2 (Hone eq_refl)).
Defined.

(** X15. Get returns the stored bytes and leaves the connection ready.
    On an idle pooled connection, within the pool's capacity, answered
    with the whole bulk reply of a value, Get returns that value, byte
    for byte. What went on the wire is the GET array for the key and one
    more CRLF, the line end Send adds to every command. The connection
    is back at the end of the pool, idle. *)
Theorem Get_returns_value_and_connection (ctx : Context) (now : Z)
    (key : string) (client : Client) (rc : Connection)
    (rest : list Connection) (payload : string) (more : list ReadEvent) :
  Context_Err ctx now = None -> idle rc ->
  (String.length ("$" ++ Itoa (len payload) ++ CRLF ++ payload ++ CRLF ++ "")
   <= bufSize)%nat ->
  Z.of_nat (S (List.length rest)) <= poolSize client ->
  let reply := ("$" ++ Itoa (len payload) ++ CRLF ++ payload ++ CRLF ++ "")%string in
  let r := Get ctx now None key
             (set_pool client (serving rc (Data reply :: more) :: rest)) in
  snd r = Ok payload
  /\ exists rc',
       pool (fst r) = rest ++ [rc']
       /\ idle rc'
       /\ incoming (conn rc') = more
       /\ outgoing (conn rc')
          = (outgoing (conn rc)
             ++ ("*2" ++ CRLF ++ "$3" ++ CRLF ++ "GET" ++ CRLF
                 ++ "$" ++ Itoa (len key) ++ CRLF ++ key ++ CRLF) ++ CRLF)%string.
Proof.
  intros Hctx Hidle Hfit Hcap reply r. subst reply r.
  rewrite Get_Do, Get_fst.
  do_head.
  rewrite (round_trip_bulk_whole ctx now (GetCmd key) rc payload more Hctx Hidle Hfit).
  cbn [fst snd pool set_pool]. split; [reflexivity|].
  eexists. split; [reflexivity|].
  split; [apply idle_exchanged; exact Hidle|].
  split; reflexivity.
Qed.

Lemma Get_returns_value_and_connection_witness :
  let client := {| pool := []; address := "127.0.0.1:6379"; poolSize := 1; auth := "";
                   dialer := {| script := []; attempts := 1 |} |} in
  let payload := ("line one" ++ CRLF ++ "line two")%string in
  Context_Err Background 0 = None
  /\ idle (wrap (socket 3 []))
  /\ snd (Get Background 0 None "/a"
            (set_pool client
               [serving (wrap (socket 3 []))
                  [Data ("$" ++ Itoa (len payload) ++ CRLF ++ payload ++ CRLF ++ "")]]))
     = Ok payload.
Proof.
  intros client payload.
  assert (Hidle : idle (wrap (socket 3 []))) by (repeat split).
  split; [reflexivity|]. split; [exact Hidle|].
  refine (proj1 (Get_returns_value_and_connection Background 0 "/a" client
                   (wrap (socket 3 [])) [] payload [] eq_refl Hidle _ _)).
  - vm_compute. lia.
  - vm_compute. discriminate.
Defined.

(** X16. Exchanges on one connection follow one another. With a single
    pooled connection, when the peer answers two GETs with two bulk
    replies delivered one per read, the first Get returns the first
    value, the second Get, on the client the first left, returns the
    second, and the wire carries the two commands in that order. *)
Theorem two_Gets_in_a_row (ctx : Context) (now : Z) (key1 key2 : string)
    (client : Client) (rc : Connection) (v1 v2 : string)
    (more : list ReadEvent) :
  Context_Err ctx now = None -> idle rc ->
  (String.length ("$" ++ Itoa (len v1) ++ CRLF ++ v1 ++ CRLF ++ "") <= bufSize)%nat ->
  (String.length ("$" ++ Itoa (len v2) ++ CRLF ++ v2 ++ CRLF ++ "") <= bufSize)%nat ->
  1 <= poolSize client ->
  let reply v := ("$" ++ Itoa (len v) ++ CRLF ++ v ++ CRLF ++ "")%string in
  let first := Get ctx now None key1
                 (set_pool client
                    [serving rc (Data (reply v1) :: Data (reply v2) :: more)]) in
  let second := Get ctx now None key2 (fst first) in
  snd first = Ok v1 /\ snd second = Ok v2
  /\ exists rc', pool (fst second) = [rc']
                 /\ outgoing (conn rc')
                    = (outgoing (conn rc) ++ (GetCmd key1 ++ CRLF)
                       ++ GetCmd key2 ++ CRLF)%string
                 /\ incoming (conn rc') = more.
Proof.
  intros Hctx Hidle Hfit1 Hfit2 Hsize reply first second.
  subst reply first second. cbv beta.
  rewrite !Get_Do, !Get_fst.
  do_head.
  rewrite (round_trip_bulk_whole ctx now (GetCmd key1) rc v1 _ Hctx Hidle Hfit1).
  cbn [fst snd app]. split; [reflexivity|].
  set (rc1 := {| conn := exchanged (conn rc) (deadline_of ctx now)
                           (GetCmd key1 ++ CRLF) [];
                 rd := empty_reader; wr := empty_writer |}).
  assert (Hidle1 : idle rc1) by (apply idle_exchanged; exact Hidle).
  change {| conn := exchanged (conn rc) (deadline_of ctx now) (GetCmd key1 ++ CRLF)
                      (Data ("$" ++ Itoa (len v2) ++ CRLF ++ v2 ++ CRLF ++ "") :: more);
            rd := empty_reader; wr := empty_writer |}
    with (serving rc1 (Data ("$" ++ Itoa (len v2) ++ CRLF ++ v2 ++ CRLF ++ "") :: more)).
  do_head.
  rewrite (round_trip_bulk_whole ctx now (GetCmd key2) rc1 v2 more Hctx Hidle1 Hfit2).
  cbn [fst snd app pool set_pool]. split; [reflexivity|].
  eexists. split; [reflexivity|].
  cbn [conn outgoing incoming exchanged rc1]. split; [|reflexivity].
  rewrite !app_assoc_s. reflexivity.
Qed.

Lemma two_Gets_in_a_row_witness :
  let client := {| pool := []; address := "127.0.0.1:6379"; poolSize := 1; auth := "";
                   dialer := {| script := []; attempts := 1 |} |} in
  let reply v := ("$" ++ Itoa (len v) ++ CRLF ++ v ++ CRLF ++ "")%string in
  let cl := set_pool client
              [serving (wrap (socket 3 []))
                 [Data (reply "one"%string); Data (reply "two"%string)]] in
  Context_Err Background 0 = None
  /\ 1 <= poolSize client
  /\ snd (Get Background 0 None "/a" cl) = Ok "one"%string
  /\ snd (Get Background 0 None "/b" (fst (Get Background 0 None "/a" cl)))
     = Ok "two"%string.
Proof.
  intros client reply cl.
  assert (Hidle : idle (wrap (socket 3 []))) by (repeat split).
  assert (Hsize : 1 <= poolSize client) by (vm_compute; discriminate).
  split; [reflexivity|]. split; [exact Hsize|].
  destruct (two_Gets_in_a_row Background 0 "/a" "/b" client (wrap (socket 3 []))
              "one" "two" [] eq_refl Hidle) as (H1 & H2 & _);
    [vm_compute; lia | vm_compute; lia | exact Hsize |].
  split; [exact H1 | exact H2].
Defined.

(** ** More on the middleware *)

(** X17. A cache hit is served from the store alone. When Get returns a
    non-empty blob that decodes, ServeHTTP adds the cached headers to
    the writer's, calls WriteHeader with the cached status and Write
    with the cached body, once each; the client is left as Get left it
    (no Delete, no SetWithTTL); and the downstream handler has no part
    in it: any other handler in its place gives the same result. *)
Theorem ServeHTTP_hit {S : Type} `{IClient S} `{Gob}
    (c : Cache S) (rw0 : ResponseWriter) (req : Request)
    (s1 : S) (blob : string) (cached : CachedResponse) :
  client_Get (req_Context req) (URL_Path req) (resp c) = (s1, Ok blob) ->
  blob <> ""%string ->
  gob_Decode blob = inl cached ->
  let R := ServeHTTP c rw0 req in
  snd R = None
  /\ resp (fst (fst R)) = s1
  /\ rw_calls (snd (fst R))
     = rw_calls rw0 ++ [CallWriteHeader (StatusCode cached); CallWrite (Body cached)]
  /\ rw_header (snd (fst R)) = add_headers (Headers cached) (rw_header rw0)
  /\ forall h : Handler,
       snd (ServeHTTP (set_next c h) rw0 req) = snd R
       /\ snd (fst (ServeHTTP (set_next c h) rw0 req)) = snd (fst R).
Proof.
  intros Hget Hne Hdec R. subst R.
  assert (Hany : forall c' : Cache S, resp c' = resp c ->
            ServeHTTP c' rw0 req
            = (set_resp c' s1,
               w_Write (Body cached)
                 (w_WriteHeader (StatusCode cached)
                    (w_setHeader (add_headers (Headers cached) (w_Header rw0)) rw0)),
               None)).
  { intros c' Hresp. unfold ServeHTTP. rewrite Hresp, Hget.
    destruct (String.eqb_spec blob ""); [contradiction|]. cbn [negb].
    rewrite Hdec. reflexivity. }
  rewrite (Hany c eq_refl). cbn [fst snd resp set_resp].
  split; [reflexivity|]. split; [reflexivity|].
  split; [cbn; rewrite <- app_assoc; reflexivity|].
  split; [reflexivity|].
  intros h. rewrite (Hany (set_next c h) eq_refl). split; reflexivity.
Qed.

Lemma ServeHTTP_hit_witness :
  let c : Cache (Store * list ClientCall) :=
    {| next := fun _ => [HWriteHeader 500; HWrite "live"];
       name := "cache"; resp := ([("/a"%string, "cached"%string)], []);
       redisAuth := ""; redisAddress := "127.0.0.1:6379";
       redisPoolSize := 10; cacheExpiry := 15 |} in
  let rw0 := {| rw_header := []; rw_calls := [] |} in
  let req := {| URL_Path := "/a"; req_Context := Background |} in
  "cached"%string <> ""%string
  /\ resp (fst (fst (ServeHTTP (H0 := body_codec) c rw0 req)))
     = ([("/a"%string, "cached"%string)], [CallGet "/a"])
  /\ rw_calls (snd (fst (ServeHTTP (H0 := body_codec) c rw0 req)))
     = [CallWriteHeader 200; CallWrite "cached"].
Proof.
  intros c rw0 req. split; [discriminate|].
  destruct (ServeHTTP_hit (H0 := body_codec) c rw0 req
              ([("/a"%string, "cached"%string)], [CallGet "/a"]) "cached"
              {| StatusCode := 200; Headers := []; Body := "cached" |})
    as (_ & Hresp & Hcalls & _);
    [reflexivity | discriminate | reflexivity |].
  split; [exact Hresp | exact Hcalls].
Defined.

Section MoreMiddleware.
Context {S : Type} `{IClient S} `{Gob}.

Lemma handler_status_unset (calls : list HandlerCall) (init : Z) :
  forallb (fun call => negb (sets_status call)) calls = true ->
  handler_status calls init = init.
Proof.
  revert init. induction calls as [|[f|code|b] t IH]; intros init; cbn;
    try discriminate; auto.
Qed.

Lemma recorded_response_fields (h : Handler) (rw0 : ResponseWriter) (req : Request) :
  StatusCode (recorded_response h rw0 req) = handler_status (h req) 0
  /\ Body (recorded_response h rw0 req) = handler_body (h req).
Proof.
  unfold recorded_response, Handler_ServeHTTP.
  destruct (recorder_run (h req) {| rw := rw0; status := 0; body := EmptyString |})
    as (_ & Hb & Hs).
  cbv zeta in Hb, Hs. cbn [StatusCode Body]. rewrite Hb, Hs. split; reflexivity.
Qed.

(** The miss path makes one call of the client: SetWithTTL, for the
    request's path, with what the encoder left in the buffer. *)
Lemma serveMiss_client (c : Cache S) (rw0 : ResponseWriter) (req : Request) :
  resp (fst (fst (serveMiss c rw0 req)))
  = fst (client_SetWithTTL (req_Context req) (URL_Path req)
           (fst (gob_Encode (recorded_response (next c) rw0 req)))
           (cacheExpiry c) (resp c)).
Proof.
  unfold serveMiss, recorded_response.
  destruct (gob_Encode _) as [buffer encErr]. cbn [fst].
  destruct (client_SetWithTTL _ _ _ _ _) as [s1 [u|e|p]]; reflexivity.
Qed.

End MoreMiddleware.

(** X18. What a miss stores. When Get fails or returns the empty string,
    ServeHTTP makes exactly one more call of the client: SetWithTTL with
    the request's path as key, the configured expiry as TTL, and as
    value whatever the encoder left in its buffer for the recorded
    status, headers and body; an error of the encoder is only logged, so
    the value is stored then too. The recorded body is the bytes the handler
    wrote, in order, and the recorded status is the last one it set. *)
Theorem ServeHTTP_miss_stores_the_response {S : Type} `{IClient S} `{Gob}
    (c : Cache S) (rw0 : ResponseWriter) (req : Request)
    (s1 : S) (got : result string) :
  client_Get (req_Context req) (URL_Path req) (resp c) = (s1, got) ->
  (got = Ok ""%string \/ exists e, got = Err e) ->
  let recorded := recorded_response (next c) rw0 req in
  resp (fst (fst (ServeHTTP c rw0 req)))
  = fst (client_SetWithTTL (req_Context req) (URL_Path req)
           (fst (gob_Encode recorded)) (cacheExpiry c) s1)
  /\ StatusCode recorded = handler_status (next c req) 0
  /\ Body recorded = handler_body (next c req).
Proof.
  intros Hget Hmiss recorded. subst recorded.
  split; [|apply recorded_response_fields].
  unfold ServeHTTP. rewrite Hget.
  destruct Hmiss as [-> | [e ->]]; cbn [String.eqb negb];
    rewrite serveMiss_client; reflexivity.
Qed.

Lemma ServeHTTP_miss_stores_the_response_witness :
  let c : Cache (Store * list ClientCall) :=
    {| next := fun _ => [HWriteHeader 404; HWrite "not "; HWrite "here"];
       name := "cache"; resp := ([], []);
       redisAuth := ""; redisAddress := "127.0.0.1:6379";
       redisPoolSize := 10; cacheExpiry := 15 |} in
  let rw0 := {| rw_header := []; rw_calls := [] |} in
  let req := {| URL_Path := "/a"; req_Context := Background |} in
  resp (fst (fst (ServeHTTP (H0 := body_codec) c rw0 req)))
  = ([("/a"%string, "not here"%string)],
     [CallGet "/a"; CallSetWithTTL "/a" "not here" 15]).
Proof.
  intros c rw0 req.
  destruct (ServeHTTP_miss_stores_the_response (H0 := body_codec) c rw0 req
              ([], [CallGet "/a"]) (Ok ""%string)) as (Hstored & _);
    [reflexivity | left; reflexivity |].
  rewrite Hstored. reflexivity.
Defined.

(** X19. A handler that never calls WriteHeader is recorded with status
    0. On a miss whose handler only writes headers and body, the
    response stored has status code 0, and the last WriteHeader the
    writer is given carries 0. *)
Theorem ServeHTTP_status_unset_is_zero {S : Type} `{IClient S} `{Gob}
    (c : Cache S) (rw0 : ResponseWriter) (req : Request) :
  cache_miss c req = true ->
  snd (ServeHTTP c rw0 req) = None ->
  forallb (fun call => negb (sets_status call)) (next c req) = true ->
  StatusCode (recorded_response (next c) rw0 req) = 0
  /\ rw_calls (snd (fst (ServeHTTP c rw0 req)))
     = rw_calls rw0 ++ passed_through (next c req)
       ++ [CallWriteHeader 0; CallWrite (handler_body (next c req))].
Proof.
  intros Hmiss Hnp Hunset.
  pose proof (handler_status_unset (next c req) 0 Hunset) as Hzero.
  split.
  - rewrite (proj1 (recorded_response_fields (next c) rw0 req)). exact Hzero.
  - rewrite <- Hzero at 1.
    revert Hmiss Hnp. unfold cache_miss, ServeHTTP.
    destruct (client_Get _ _ _) as [s1 [cachedData|e|p]]; try discriminate.
    + destruct (String.eqb cachedData "") eqn:He; cbn [negb orb].
      * intros _. apply (serveMiss_writes (set_resp c s1)).
      * destruct (gob_Decode cachedData) as [cr|e]; [discriminate|].
        intros _.
        destruct (client_Delete _ _ _) as [s2 [u|e'|p]];
          try apply (serveMiss_writes (set_resp c s2)).
        discriminate.
    + intros _. apply (serveMiss_writes (set_resp c s1)).
Qed.

Lemma ServeHTTP_status_unset_is_zero_witness :
  let c : Cache Store :=
    {| next := fun _ => [HWrite "hello"];
       name := "cache"; resp := [];
       redisAuth := ""; redisAddress := "127.0.0.1:6379";
       redisPoolSize := 10; cacheExpiry := 15 |} in
  let rw0 := {| rw_header := []; rw_calls := [] |} in
  let req := {| URL_Path := "/a"; req_Context := Background |} in
  cache_miss (H0 := body_codec) c req = true
  /\ rw_calls (snd (fst (ServeHTTP (H0 := body_codec) c rw0 req)))
     = [CallWrite "hello"; CallWriteHeader 0; CallWrite "hello"].
Proof.
  intros c rw0 req. split; [reflexivity|].
  destruct (ServeHTTP_status_unset_is_zero (H0 := body_codec) c rw0 req)
    as (_ & Hcalls); [reflexivity | reflexivity | reflexivity |].
  exact Hcalls.
Defined.

(** X20. A miss followed by a hit replays the recorded response. Let
    the first request miss and its SetWithTTL succeed; let the store
    then return the stored blob for the path, non-empty, and let the
    decoder undo the encoder on it. Then the next request for the path
    is answered without the downstream handler, whatever it is by then:
    the writer gets the recorded status and the recorded body, once. *)
Theorem miss_then_hit_replays {S : Type} `{IClient S} `{Gob}
    (c : Cache S) (rw0 rw1 : ResponseWriter) (req : Request)
    (s1 s2 s3 : S) (got : result string) (h : Handler) :
  client_Get (req_Context req) (URL_Path req) (resp c) = (s1, got) ->
  (got = Ok ""%string \/ exists e, got = Err e) ->
  let recorded := recorded_response (next c) rw0 req in
  let blob := fst (gob_Encode recorded) in
  client_SetWithTTL (req_Context req) (URL_Path req) blob (cacheExpiry c) s1
  = (s2, Ok tt) ->
  client_Get (req_Context req) (URL_Path req) s2 = (s3, Ok blob) ->
  blob <> ""%string ->
  gob_Decode blob = inl recorded ->
  let c1 := fst (fst (ServeHTTP c rw0 req)) in
  resp c1 = s2
  /\ snd (ServeHTTP (set_next c1 h) rw1 req) = None
  /\ rw_calls (snd (fst (ServeHTTP (set_next c1 h) rw1 req)))
     = rw_calls rw1 ++ [CallWriteHeader (handler_status (next c req) 0);
                        CallWrite (handler_body (next c req))].
Proof.
  intros Hget Hmiss recorded blob Hset Hget2 Hne Hdec c1.
  destruct (recorded_response_fields (next c) rw0 req) as [Hst Hbd].
  fold recorded in Hst, Hbd.
  assert (Hc1 : resp c1 = s2).
  { subst c1. unfold ServeHTTP. rewrite Hget.
    destruct Hmiss as [-> | [e ->]]; cbn [String.eqb negb];
      rewrite serveMiss_client; cbn [next cacheExpiry resp set_resp];
      unfold blob, recorded in Hset; rewrite Hset; reflexivity. }
  split; [exact Hc1|].
  unfold ServeHTTP. cbn [resp set_next]. rewrite Hc1, Hget2.
  destruct (String.eqb_spec blob ""); [contradiction|]. cbn [negb].
  rewrite Hdec. cbn [fst snd]. split; [reflexivity|].
  rewrite <- Hst, <- Hbd.
  cbn [w_Write w_WriteHeader w_setHeader w_Header ResponseWriter_impl rw_calls].
  rewrite <- app_assoc. reflexivity.
Qed.

Lemma miss_then_hit_replays_witness :
  let c : Cache Store :=
    {| next := fun _ => [HWriteHeader 200; HWrite "hello"];
       name := "cache"; resp := [];
       redisAuth := ""; redisAddress := "127.0.0.1:6379";
       redisPoolSize := 10; cacheExpiry := 15 |} in
  let rw0 := {| rw_header := []; rw_calls := [] |} in
  let req := {| URL_Path := "/a"; req_Context := Background |} in
  let c1 := fst (fst (ServeHTTP (H0 := body_codec) c rw0 req)) in
  rw_calls (snd (fst (ServeHTTP (H0 := body_codec)
                        (set_next c1 (fun _ => [HWriteHeader 500; HWrite "changed"]))
                        rw0 req)))
  = [CallWriteHeader 200; CallWrite "hello"].
Proof.
  intros c rw0 req c1.
  destruct (miss_then_hit_replays (H0 := body_codec) c rw0 rw0 req
              [] [("/a"%string, "hello"%string)]
              [("/a"%string, "hello"%string)] (Ok ""%string)
              (fun _ => [HWriteHeader 500; HWrite "changed"]))
    as (_ & _ & Hcalls);
    [reflexivity | left; reflexivity | reflexivity | reflexivity
     | discriminate | reflexivity |].
  exact Hcalls.
Defined.

(** X21. What New returns. A negative pool size panics in the
    constructor of the client. Any failure of that constructor comes
    back as the one error "can't create redis client". A cache that New
    returns has a non-zero expiry and a pool size of at least one, 15
    and 10 when the configuration left them at zero, and its client
    holds at least one connection and no more than the pool size. *)
Theorem New_builds_a_usable_cache (d : Dialer) (now : Z)
    (selects : list (option error)) (h : Handler) (config : Config)
    (nm : string) :
  (RedisPoolSize config < 0 ->
   snd (New d now selects h config nm) = Panic MakeChanSizeOutOfRange)
  /\ (forall e, snd (New d now selects h config nm) = Err e ->
      e = Errorf "can't create redis client")
  /\ (forall cache, snd (New d now selects h config nm) = Ok cache ->
      cacheExpiry cache <> 0
      /\ 1 <= redisPoolSize cache
      /\ (RedisPoolSize config = 0 -> redisPoolSize cache = 10)
      /\ (CacheExpiry config = 0 -> cacheExpiry cache = 15)
      /\ poolSize (cw_client (resp cache)) = redisPoolSize cache
      /\ 1 <= Z.of_nat (List.length (pool (cw_client (resp cache))))
         <= redisPoolSize cache).
Proof.
  unfold New.
  set (size := if RedisPoolSize config =? 0 then DefaultRedisPoolSize
               else RedisPoolSize config).
  set (expiry := if CacheExpiry config =? 0 then DefaultCacheExpiry
                 else CacheExpiry config).
  pose proof (NewRedisClient_inv d now (RedisAddress config) size
                (RedisAuth config)) as Hinv.
  split; [|split].
  - intros Hneg. unfold NewRedisClient.
    assert (Hs : (size <? 0) = true).
    { subst size. destruct (Z.eqb_spec (RedisPoolSize config) 0); [lia|].
      apply Z.ltb_lt. exact Hneg. }
    rewrite Hs. reflexivity.
  - intros e.
    destruct (NewRedisClient d now (RedisAddress config) size (RedisAuth config))
      as [d1 [cl|e'|p]]; cbn [snd]; try discriminate.
    intros [= <-]. reflexivity.
  - intros cache.
    destruct (NewRedisClient d now (RedisAddress config) size (RedisAuth config))
      as [d1 [cl|e'|p]]; cbn [snd] in *; try discriminate.
    intros [= <-]. cbn [cacheExpiry redisPoolSize resp cw_client].
    destruct (Hinv cl eq_refl) as [Hlen Hsize].
    unfold DefaultRedisPoolSize, DefaultCacheExpiry in *.
    repeat split.
    + subst expiry. destruct (Z.eqb_spec (CacheExpiry config) 0); lia.
    + lia.
    + intros Hz. subst size. rewrite Hz. reflexivity.
    + intros Hz. subst expiry. rewrite Hz. reflexivity.
    + exact Hsize.
    + lia.
    + lia.
Qed.

Section OnTheWire.

Lemma round_trip_nil (ctx : Context) (now : Z) (command : string)
    (rc : Connection) (more : list ReadEvent) :
  Context_Err ctx now = None -> idle rc ->
  round_trip ctx now command (serving rc (Data ("$-1" ++ CRLF) :: more))
  = ({| conn := exchanged (conn rc) (deadline_of ctx now) (command ++ CRLF) more;
        rd := empty_reader; wr := empty_writer |}, Ok ""%string).
Proof.
  intros Hctx Hidle. unfold round_trip.
  rewrite (Send_idle ctx now command _ Hctx (idle_serving rc _ Hidle)).
  destruct Hidle as (Hc & Hf & Hr & Hw).
  change ("$-1" ++ CRLF)%string with ("$" ++ "-1" ++ CRLF ++ "")%string.
  match goal with
  | |- Receive ctx now ?r = _ =>
      rewrite (Receive_bulk_header ctx now r "-1" "" more Hctx Hc Hr eq_refl eq_refl)
  end; [reflexivity | vm_compute; lia].
Qed.

End OnTheWire.

(** X22. A miss, end to end, on the pooled client. With one idle pooled
    connection, a live context and a peer that answers the GET with Nil
    and the SET with [+OK], ServeHTTP returns without a panic; the bytes
    on the wire are the GET array for the request's path, a CRLF, the
    five-element SET ... EX array carrying the path, the encoded
    response and the expiry, and a CRLF; and the connection is back in
    the pool, idle. *)
Theorem ServeHTTP_miss_on_the_wire `{Gob} (c : Cache ClientWorld)
    (rw0 : ResponseWriter) (req : Request) (client : Client)
    (rc : Connection) (now : Z) (more : list ReadEvent) :
  resp c = {| cw_client :=
                set_pool client
                  [serving rc (Data ("$-1" ++ CRLF) :: Data ("+OK" ++ CRLF) :: more)];
              cw_now := now; cw_selects := [] |} ->
  Context_Err (req_Context req) now = None -> idle rc ->
  1 <= poolSize client ->
  let R := ServeHTTP c rw0 req in
  let blob := fst (gob_Encode (recorded_response (next c) rw0 req)) in
  snd R = None
  /\ exists rc',
       pool (cw_client (resp (fst (fst R)))) = [rc']
       /\ idle rc'
       /\ incoming (conn rc') = more
       /\ outgoing (conn rc')
          = (outgoing (conn rc)
             ++ (GetCmd (URL_Path req) ++ CRLF)
             ++ SetWithTTLCmd (URL_Path req) blob (cacheExpiry c) ++ CRLF)%string.
Proof.
  intros Hresp Hctx Hidle Hsize R blob. subst R.
  unfold ServeHTTP. rewrite Hresp.
  cbn [client_Get Client_impl]. unfold with_client, next_select.
  cbn [cw_selects cw_now cw_client].
  pose proof (Get_Do (req_Context req) now None (URL_Path req)
                (set_pool client
                   [serving rc (Data ("$-1" ++ CRLF) :: Data ("+OK" ++ CRLF) :: more)]))
    as Hsnd.
  pose proof (Get_fst (req_Context req) now None (URL_Path req)
                (set_pool client
                   [serving rc (Data ("$-1" ++ CRLF) :: Data ("+OK" ++ CRLF) :: more)]))
    as Hfst.
  destruct (Get (req_Context req) now None (URL_Path req) _) as [cl1 got].
  cbn [fst snd] in Hsnd, Hfst. subst cl1 got.
  do_head. rewrite (round_trip_nil _ _ _ rc _ Hctx Hidle).
  cbn [fst snd app String.eqb negb].
  unfold serveMiss. fold (recorded_response (next c) rw0 req).
  cbn [next set_resp cacheExpiry resp].
  change (Handler_ServeHTTP (next c) {| rw := rw0; status := 0; body := "" |} req)
    with (Handler_ServeHTTP (next c)
            {| rw := rw0; status := 0; body := EmptyString |} req).
  unfold recorded_response in blob.
  destruct (gob_Encode _) as [buffer encErr] eqn:Henc. cbn [fst] in blob. subst blob.
  cbn [client_SetWithTTL Client_impl]. unfold with_client, next_select.
  cbn [cw_selects cw_now cw_client].
  set (rc1 := {| conn := exchanged (conn rc) (deadline_of (req_Context req) now)
                           (GetCmd (URL_Path req) ++ CRLF) [];
                 rd := empty_reader; wr := empty_writer |}).
  assert (Hidle1 : idle rc1) by (apply idle_exchanged; exact Hidle).
  change {| conn := exchanged (conn rc) (deadline_of (req_Context req) now)
                      (GetCmd (URL_Path req) ++ CRLF) (Data ("+OK" ++ CRLF) :: more);
            rd := empty_reader; wr := empty_writer |}
    with (serving rc1 (Data (String "+" "OK" ++ CRLF) :: more)).
  unfold SetWithTTL.
  do_head.
  assert (Hfit : (String.length (String "+" "OK" ++ CRLF ++ "") <= bufSize)%nat)
    by (vm_compute; lia).
  pose proof (exchange_one_line (req_Context req) now
                (SetWithTTLCmd (URL_Path req) buffer (cacheExpiry c)) rc1
                "+" "OK" "" more Hctx Hidle1 eq_refl Hfit eq_refl) as Hex.
  change (String "+" "OK" ++ CRLF ++ "")%string
    with (String "+" "OK" ++ CRLF)%string in Hex.
  rewrite Hex. cbn [fst snd line_reply String.eqb Ascii.eqb app].
  change (Ascii.eqb "+" "-") with false. change (Ascii.eqb "+" "+") with true.
  cbn [String.eqb Ascii.eqb fst snd resp set_resp cw_client pool set_pool].
  split; [reflexivity|].
  eexists. split; [reflexivity|].
  split; [exact (idle_exchanged rc1 _ _ more Hidle1)|].
  split; [reflexivity|].
  cbn [conn outgoing exchanged rc1]. rewrite !app_assoc_s. reflexivity.
Qed.

Lemma ServeHTTP_miss_on_the_wire_witness :
  let client := {| pool := []; address := "127.0.0.1:6379"; poolSize := 1; auth := "";
                   dialer := {| script := []; attempts := 1 |} |} in
  let c : Cache ClientWorld :=
    {| next := fun _ => [HWriteHeader 200; HWrite "hi"];
       name := "cache";
       resp := {| cw_client :=
                    set_pool client
                      [serving (wrap (socket 3 []))
                         [Data ("$-1" ++ CRLF); Data ("+OK" ++ CRLF)]];
                  cw_now := 0; cw_selects := [] |};
       redisAuth := ""; redisAddress := "127.0.0.1:6379";
       redisPoolSize := 1; cacheExpiry := 15 |} in
  let rw0 := {| rw_header := []; rw_calls := [] |} in
  let req := {| URL_Path := "/a"; req_Context := Background |} in
  1 <= poolSize client
  /\ snd (ServeHTTP (H0 := body_codec) c rw0 req) = None.
Proof.
  intros client c rw0 req.
  assert (Hsize : 1 <= poolSize client) by (vm_compute; discriminate).
  split; [exact Hsize|].
  destruct (ServeHTTP_miss_on_the_wire (H := body_codec) c rw0 req client
              (wrap (socket 3 [])) 0 []) as (Hnp & _);
    [reflexivity | reflexivity | repeat split | exact Hsize |].
  exact Hnp.
Defined.

(** ** Client.Close *)

(** X23. Close and the connections in flight. Close closes every idle
    connection and leaves the pool empty. It does not reach a connection
    that was taken before: for a client from the constructor, a
    connection acquired before Close is still open after it, and giving
    it back afterwards panics with a send on the closed channel; an
    acquire after Close returns the nil connection with no error and
    makes no dial; a second Close panics. *)
Theorem Close_and_connections_in_flight (d : Dialer) (now t : Z)
    (addr : string) (size : Z) (pw : string) (client : Client)
    (c : Connection) (rest : list Connection) :
  snd (NewRedisClient d now addr size pw) = Ok client ->
  pool client = c :: rest ->
  let open := {| sc_client := client; sc_closed := false |} in
  let taken := fst (GetConnection_shut t open) in
  exists shut closed_conns,
    snd (GetConnection_shut t open) = Ok (Some c)
    /\ Client_Close taken = inl (shut, closed_conns)
    /\ pool (sc_client shut) = []
    /\ closed_conns = map (fun c' => fst (Close c')) rest
    /\ Forall (fun c' => closed (conn c') = true) closed_conns
    /\ ReleaseConnection_shut shut c = (shut, c, Some SendOnClosedChannel)
    /\ GetConnection_shut t shut = (shut, Ok None)
    /\ Client_Close shut = inr CloseOfClosedChannel.
Proof.
  intros Hnew Hp open taken.
  destruct (NewRedisClient_inv d now addr size pw client Hnew) as [Hlen Hsize].
  subst taken open. unfold GetConnection_shut. cbn [sc_client sc_closed].
  rewrite Hp. cbn [fst snd].
  eexists. eexists.
  split; [reflexivity|].
  unfold Client_Close. cbn [sc_closed sc_client pool set_pool].
  split; [reflexivity|]. split; [reflexivity|]. split; [reflexivity|].
  split.
  - apply Forall_forall. intros c' Hin. apply in_map_iff in Hin.
    destruct Hin as (c0 & <- & _). unfold Close, conn_Close.
    destruct (closed (conn c0)) eqn:Hc; cbn [fst conn closed]; [exact Hc | reflexivity].
  - unfold ReleaseConnection_shut. cbn [sc_client sc_closed pool set_pool poolSize].
    cbn [List.length Z.of_nat].
    destruct (Z.leb_spec (poolSize client) 0); [lia|].
    repeat split.
Qed.

Lemma Close_and_connections_in_flight_witness :
  let d := {| script := [inl (socket 3 []); inl (socket 4 [])]; attempts := 0 |} in
  exists client shut,
    snd (NewRedisClient d 0 "127.0.0.1:6379" 2 "") = Ok client
    /\ pool client = [wrap (socket 3 []); wrap (socket 4 [])]
    /\ ReleaseConnection_shut shut (wrap (socket 3 []))
       = (shut, wrap (socket 3 []), Some SendOnClosedChannel).
Proof.
  intros d. eexists.
  destruct (Close_and_connections_in_flight d 0 1 "127.0.0.1:6379" 2 "" _
              (wrap (socket 3 [])) [wrap (socket 4 [])] eq_refl eq_refl)
    as (shut & closed_conns & _ & _ & _ & _ & _ & Hrel & _).
  exists shut. split; [reflexivity|]. split; [reflexivity | exact Hrel].
Defined.

(** ** The vendored client *)

(** X24. Ping of the vendored client. Its command is the text [PING]
    and a line feed, and Send adds its CRLF: the wire carries
    [PING\n\r\n]. Of a one-line answer, the text [PONG] is returned as it
    is; any other text is the error "unexpected response from server";
    an error reply is returned as that error. The client keeps its
    connection, idle again. *)
Theorem vendor_Ping_outcomes (ctx : Context) (now : Z)
    (client : resp_vendor.Client) (rc : Connection)
    (first : ascii) (text : string) (more : list ReadEvent) :
  Context_Err ctx now = None -> idle rc ->
  IndexByte (String first text) LF = None ->
  (String.length (String first text ++ CRLF) <= bufSize)%nat ->
  Ascii.eqb first "$" = false ->
  let r := resp_vendor.Ping ctx now None
             (resp_vendor.set_conn client
                (serving rc (Data (String first text ++ CRLF) :: more))) in
  outgoing (conn (resp_vendor.conn (fst r)))
  = (outgoing (conn rc) ++ "PING" ++ String LF "" ++ CRLF)%string
  /\ idle (resp_vendor.conn (fst r))
  /\ (line_reply first text = Ok "PONG"%string -> snd r = Ok "PONG"%string)
  /\ (forall reply, line_reply first text = Ok reply -> reply <> "PONG"%string ->
      snd r = Err (ErrorsNew "unexpected response from server"))
  /\ (forall e, line_reply first text = Err e -> snd r = Err e).
Proof.
  intros Hctx Hidle Hl Hfit Hb r. subst r.
  assert (Hfit' : (String.length (String first text ++ CRLF ++ "") <= bufSize)%nat)
    by exact Hfit.
  pose proof (exchange_one_line ctx now resp_vendor.PingCmd rc first text "" more
                Hctx Hidle Hl Hfit' Hb) as Hex.
  change (String first text ++ CRLF ++ "")%string
    with (String first text ++ CRLF)%string in Hex.
  unfold resp_vendor.Ping, resp_vendor.Do.
  cbn [resp_vendor.conn resp_vendor.set_conn]. rewrite Hex.
  pose proof (idle_exchanged rc (deadline_of ctx now) (resp_vendor.PingCmd ++ CRLF)
                more Hidle) as Hidle'.
  destruct (line_reply first text) as [reply|e|p].
  - destruct (String.eqb_spec reply "PONG") as [->|Hne];
      cbn [fst snd resp_vendor.conn resp_vendor.set_conn conn outgoing exchanged];
      (split; [reflexivity|]); (split; [exact Hidle'|]); (split; [|split]).
    + reflexivity.
    + intros reply' [= <-] Hne. contradiction.
    + discriminate.
    + intros [= ->]. contradiction.
    + reflexivity.
    + discriminate.
  - cbn [fst snd resp_vendor.conn resp_vendor.set_conn conn outgoing exchanged].
    split; [reflexivity|]. split; [exact Hidle'|].
    split; [|split]; try discriminate.
    intros e' [= <-]. reflexivity.
  - cbn [fst snd resp_vendor.conn resp_vendor.set_conn conn outgoing exchanged].
    split; [reflexivity|]. split; [exact Hidle'|].
    split; [|split]; discriminate.
Qed.

Lemma vendor_Ping_outcomes_witness :
  let client := {| resp_vendor.conn := wrap (socket 3 []);
                   resp_vendor.address := "127.0.0.1:6379";
                   resp_vendor.auth := "";
                   resp_vendor.dialer := {| script := []; attempts := 1 |} |} in
  Context_Err Background 0 = None
  /\ idle (wrap (socket 3 []))
  /\ snd (resp_vendor.Ping Background 0 None
            (resp_vendor.set_conn client
               (serving (wrap (socket 3 [])) [Data ("+PONG" ++ CRLF)])))
     = Ok "PONG"%string.
Proof.
  intros client.
  assert (Hidle : idle (wrap (socket 3 []))) by (repeat split).
  assert (Hfit : (String.length (String "+" "PONG" ++ CRLF) <= bufSize)%nat)
    by (vm_compute; lia).
  split; [reflexivity|]. split; [exact Hidle|].
  destruct (vendor_Ping_outcomes Background 0 client (wrap (socket 3 [])) "+" "PONG" []
              eq_refl Hidle eq_refl Hfit eq_refl) as (_ & _ & Hok & _).
  apply Hok. reflexivity.
Defined.

(** ** The middleware with the buffering recorder *)

Section Buffered.
Context {S : Type} `{IClient S} `{crossover_cache_buffered.ICloser S} `{Gob}.

(** The buffering recorder during the downstream handler: the writer
    under it is not touched. *)
Lemma buffered_recorder_run (calls : list HandlerCall) :
  forall r : crossover_cache_buffered.responseRecorder,
  let r' := fold_left handler_step calls r in
  crossover_cache_buffered.rw r' = crossover_cache_buffered.rw r
  /\ crossover_cache_buffered.body r'
     = (crossover_cache_buffered.body r ++ handler_body calls)%string
  /\ crossover_cache_buffered.status r'
     = handler_status calls (crossover_cache_buffered.status r).
Proof.
  induction calls as [|call calls IH]; intros r; cbn [fold_left].
  - cbn. rewrite app_empty_r. auto.
  - destruct (IH (handler_step r call)) as (Hw & Hb & Hs).
    cbv zeta in *. rewrite Hw, Hb, Hs.
    destruct call as [f|code|b]; cbn; auto.
    rewrite app_assoc_s. auto.
Qed.

End Buffered.

(** X25. With the buffering recorder the status and the headers of the
    downstream response never reach the client. On a miss (Get failed
    or returned the empty string) with a successful encoding and no
    panic of the client, the writer is given one call only, a Write of
    the whole downstream body: no WriteHeader, whatever status the
    handler set, and the writer's header map is what it was before the
    handler ran. The client made for the request is closed at the
    end. *)
Theorem buffered_miss_writes_body_only {S : Type} `{IClient S}
    `{crossover_cache_buffered.ICloser S} `{Gob}
    (http_Error : ResponseWriter -> string -> Z -> ResponseWriter)
    (c : crossover_cache_buffered.Cache) (rw0 : ResponseWriter) (req : Request)
    (s0 s1 s2 : S) (got : result string) (stored : result unit)
    (buffer : string) :
  client_Get (req_Context req) (URL_Path req) s0 = (s1, got) ->
  (got = Ok ""%string \/ exists e, got = Err e) ->
  gob_Encode
    {| StatusCode := handler_status (crossover_cache_buffered.next c req) 0;
       Headers := crossover_cache_buffered.header
                    (Handler_ServeHTTP (crossover_cache_buffered.next c)
                       {| crossover_cache_buffered.rw := rw0;
                          crossover_cache_buffered.status := 0;
                          crossover_cache_buffered.body := EmptyString;
                          crossover_cache_buffered.header := rw_header rw0 |} req);
       Body := handler_body (crossover_cache_buffered.next c req) |}
  = (buffer, None) ->
  client_SetWithTTL (req_Context req) (URL_Path req) buffer
    (crossover_cache_buffered.cacheExpiry c) s1 = (s2, stored) ->
  is_Panic stored = false ->
  crossover_cache_buffered.ServeHTTP http_Error (Ok s0) c rw0 req
  = (Some (crossover_cache_buffered.client_Close s2),
     {| rw_header := rw_header rw0;
        rw_calls := rw_calls rw0
                    ++ [CallWrite (handler_body (crossover_cache_buffered.next c req))] |},
     None).
Proof.
  intros Hget Hmiss Henc Hset Hnp.
  unfold crossover_cache_buffered.ServeHTTP. rewrite Hget.
  destruct (buffered_recorder_run (crossover_cache_buffered.next c req)
              {| crossover_cache_buffered.rw := rw0;
                 crossover_cache_buffered.status := 0;
                 crossover_cache_buffered.body := EmptyString;
                 crossover_cache_buffered.header := rw_header rw0 |})
    as (_ & Hb & Hs).
  cbv zeta in Hb, Hs.
  cbn [crossover_cache_buffered.body crossover_cache_buffered.status append] in Hb, Hs.
  assert (Hrec :
    (let recorder :=
       Handler_ServeHTTP (crossover_cache_buffered.next c)
         {| crossover_cache_buffered.rw := rw0;
            crossover_cache_buffered.status := 0;
            crossover_cache_buffered.body := EmptyString;
            crossover_cache_buffered.header := w_Header rw0 |} req in
     match gob_Encode
             {| StatusCode := crossover_cache_buffered.status recorder;
                Headers := crossover_cache_buffered.responseRecorder_Header recorder;
                Body := crossover_cache_buffered.body recorder |} with
     | (_, Some _) =>
         (Some (crossover_cache_buffered.client_Close s1),
          http_Error rw0 "Internal Server Error"%string
            crossover_cache_buffered.StatusInternalServerError, None)
     | (buffer0, None) =>
         match client_SetWithTTL (req_Context req) (URL_Path req) buffer0
                 (crossover_cache_buffered.cacheExpiry c) s1 with
         | (s3, Panic p) => (Some (crossover_cache_buffered.client_Close s3), rw0, Some p)
         | (s3, _) =>
             (Some (crossover_cache_buffered.client_Close s3),
              w_Write (crossover_cache_buffered.body recorder) rw0, None)
         end
     end)
    = (Some (crossover_cache_buffered.client_Close s2),
       {| rw_header := rw_header rw0;
          rw_calls := rw_calls rw0
                      ++ [CallWrite (handler_body (crossover_cache_buffered.next c req))] |},
       None)).
  { cbv zeta. unfold Handler_ServeHTTP in *.
    unfold crossover_cache_buffered.responseRecorder_Header.
    cbn [w_Header ResponseWriter_impl].
    rewrite Hb, Hs, Henc, Hset.
    destruct stored; [reflexivity | reflexivity | discriminate]. }
  destruct Hmiss as [-> | [e ->]]; cbn [String.eqb negb]; exact Hrec.
Qed.

Lemma buffered_miss_writes_body_only_witness :
  let closer : crossover_cache_buffered.ICloser Store :=
    {| crossover_cache_buffered.client_Close := fun st => st |} in
  let c := {| crossover_cache_buffered.next :=
                fun _ => [HHeader (Header_Add "X-Trace" "1"); HWriteHeader 404;
                          HWrite "not here"];
              crossover_cache_buffered.name := "cache";
              crossover_cache_buffered.redisAuth := "";
              crossover_cache_buffered.redisAddress := "127.0.0.1:6379";
              crossover_cache_buffered.cacheExpiry := 15 |} in
  let rw0 := {| rw_header := []; rw_calls := [] |} in
  let req := {| URL_Path := "/a"; req_Context := Background |} in
  snd (fst (crossover_cache_buffered.ServeHTTP (H0 := closer) (H1 := body_codec)
              (fun w _ _ => w) (Ok (@nil (string * string))) c rw0 req))
  = {| rw_header := []; rw_calls := [CallWrite "not here"] |}.
Proof.
  intros closer c rw0 req.
  rewrite (buffered_miss_writes_body_only (H0 := closer) (H1 := body_codec)
             (fun w _ _ => w) c rw0 req
             [] [] [("/a"%string, "not here"%string)] (Ok ""%string) (Ok tt)
             "not here").
  - reflexivity.
  - reflexivity.
  - left. reflexivity.
  - reflexivity.
  - reflexivity.
  - reflexivity.
Defined.
